(** * lesser_pandas: a shallow embedding of [lesser_pandas.h]

    The header defines two classes, [Column] and [DataFrame], over
    [std::vector<std::string>] and [std::map<std::string, Column>].  This
    file embeds the parts of both classes that the specification talks
    about: type inference at ingestion, the column statistics, the
    comparison operators that produce masks, mask filtering, and the
    mutations [rename], [fillna] and [dropna].

    Conventions.
    - A member function that can throw or run into undefined behaviour
      returns an [outcome]: [Ok v], [Throw e] for a C++ exception, or
      [Undefined] for an unchecked out-of-range access.
    - [std::vector<T>] is [list T]; [std::map<std::string, Column>] is
      [gmap string Column]; [size_t] and [int] arithmetic is done in [Z]
      with the wrap-around written out.
    - What the header takes from the C++ standard library and that depends
      on the floating-point unit or on the library vendor ([double],
      [std::stod], [std::to_string(double)], [std::sort]) is an interface,
      [StdLib]; module [Binary64] gives an executable instance. *)

From Stdlib Require Import ZArith Ascii String PrimFloat SpecFloat FloatOps.
From stdpp Require Import base tactics option list gmap strings fin_maps.

Local Open Scope string_scope.
Local Open Scope Z_scope.
Local Open Scope list_scope.

(** ** Exceptions and outcomes *)

Inductive exn : Set :=
| invalid_argument
| out_of_range
| runtime_error.

Inductive outcome (A : Type) : Type :=
| Ok (a : A)
| Throw (e : exn)
| Undefined.

Arguments Ok {A} a.
Arguments Throw {A} e.
Arguments Undefined {A}.

Global Instance outcome_ret : MRet outcome := λ A a, Ok a.
Global Instance outcome_bind : MBind outcome := λ A B f m,
  match m with
  | Ok a => f a
  | Throw e => Throw e
  | Undefined => Undefined
  end.

Definition returns {A} (m : outcome A) : Prop := ∃ a, m = Ok a.
Definition throws {A} (m : outcome A) : Prop := ∃ e, m = Throw e.

(** [v[i]] on a [std::vector]: no bounds check. *)
Definition vec_index {A} (v : list A) (i : nat) : outcome A :=
  match v !! i with
  | Some x => Ok x
  | None => Undefined
  end.

(** The same with the index held in a [size_t]. *)
Definition vec_index_size {A} (v : list A) (i : Z) : outcome A :=
  if i <? Z.of_nat (length v) then vec_index v (Z.to_nat i) else Undefined.

(** [m.at(k)] on a [std::map]: throws [std::out_of_range]. *)
Definition map_at {V} (m : gmap string V) (k : string) : outcome V :=
  match m !! k with
  | Some v => Ok v
  | None => Throw out_of_range
  end.

(** Unsigned 64-bit [size_t] and 32-bit [int]. *)
Definition size_t_wrap (z : Z) : Z := z `mod` 2 ^ 64.
Definition int_wrap (z : Z) : Z := (z + 2 ^ 31) `mod` 2 ^ 32 - 2 ^ 31.
Definition INT_MIN : Z := - 2 ^ 31.
Definition INT_MAX : Z := 2 ^ 31 - 1.

(** ** [std::stoi]

    [strtol] in base 10: leading white space, an optional sign, a non-empty
    run of decimal digits.  [pos] is the number of characters consumed. *)

Definition isspace (c : ascii) : bool :=
  let n := nat_of_ascii c in
  (n =? 32)%nat || ((9 <=? n)%nat && (n <=? 13)%nat).

Definition digit_of (c : ascii) : option Z :=
  let n := nat_of_ascii c in
  if ((48 <=? n)%nat && (n <=? 57)%nat) then Some (Z.of_nat n - 48) else None.

Fixpoint skip_space (s : string) : nat * string :=
  match s with
  | String c r => if isspace c then let '(n, t) := skip_space r in (S n, t) else (O, s)
  | EmptyString => (O, s)
  end.

Fixpoint read_digits (s : string) (acc : Z) : Z * nat * string :=
  match s with
  | String c r =>
      match digit_of c with
      | Some d => let '(v, n, t) := read_digits r (10 * acc + d) in (v, S n, t)
      | None => (acc, O, s)
      end
  | EmptyString => (acc, O, s)
  end.

Definition read_sign (s : string) : bool * nat * string :=
  match s with
  | String "-" r => (true, 1%nat, r)
  | String "+" r => (false, 1%nat, r)
  | _ => (false, O, s)
  end.

Definition stoi (s : string) : outcome (Z * nat) :=
  let '(nws, s1) := skip_space s in
  let '(neg, nsg, s2) := read_sign s1 in
  let '(v, nd, _) := read_digits s2 0 in
  if (nd =? 0)%nat then Throw invalid_argument
  else
    let v := if neg then - v else v in
    if (v <? INT_MIN) || (INT_MAX <? v) then Throw out_of_range
    else Ok (v, (nws + nsg + nd)%nat).

(** Decimal digits of a natural number, most significant first. *)
Fixpoint dec_digits (fuel : nat) (n : N) (acc : string) : string :=
  match fuel with
  | O => acc
  | S fuel' =>
      let acc' := String (ascii_of_N (48 + n `mod` 10)%N) acc in
      if (n <? 10)%N then acc' else dec_digits fuel' (n / 10)%N acc'
  end.

Definition N_to_string (n : N) : string := dec_digits (S (N.to_nat (N.log2 n))) n "".

(** [std::to_string(int)]. *)
Definition to_string_int (z : Z) : string :=
  match z with
  | Zneg p => String "-" (N_to_string (Npos p))
  | _ => N_to_string (Z.to_N z)
  end.

(** ** The standard-library interface *)

Class StdLib := {
  double : Type;
  (** [std::stod(s, &pos)]: the exception it throws, or the value and [pos] *)
  stod_result : string → exn + double * nat;
  (** [std::to_string(double)] *)
  to_string_double : double → string;
  (** [static_cast<double>(size_t)] and [static_cast<double>(int)] *)
  double_of_size : nat → double;
  double_of_int : Z → double;
  (** [static_cast<int>(double)]: undefined when the truncated value does
      not fit an [int] *)
  int_of_double : double → outcome Z;
  (** [+], [-], [/], [==], [<], [<=] on [double] *)
  dadd : double → double → double;
  dsub : double → double → double;
  ddiv : double → double → double;
  deqb : double → double → bool;
  dltb : double → double → bool;
  dleb : double → double → bool;
  (** [std::sort(first, last, comp)] with a comparator that may throw *)
  std_sort : ∀ A : Type, (A → A → outcome bool) → list A → outcome (list A);
}.

Arguments std_sort {_ _} _ _.

Definition stod `{StdLib} (s : string) : outcome (double * nat) :=
  match stod_result s with
  | inl e => Throw e
  | inr r => Ok r
  end.

(** ** Class [Column] *)

Record Column : Type := mkColumn {
  name : string;
  data : list string;
  dtype : string;
}.

(** A default-constructed [Column]: [dtype = "string"]. *)
Definition Column_default : Column :=
  {| name := ""; data := []; dtype := "string" |}.

(** [element.length() == 0] and [element.empty()]: a missing value. *)
Definition missing (element : string) : bool := (String.length element =? 0)%nat.

(** ** Class [DataFrame] *)

Record DataFrame : Type := mkDataFrame {
  col_data : gmap string Column;
  row_data : list (list string);
  file_dir : string;
  columns : list string;
}.

(** [DataFrame() = default]. *)
Definition DataFrame_default : DataFrame :=
  {| col_data := ∅; row_data := []; file_dir := ""; columns := [] |}.

(** *** [DataFrame::operator[](const vector<bool>&)] *)

(** The loop [for (i = 0; i < data_rows; ++i) if (mask[i]) out.push_back(src[i + off])],
    started at [i] with [n] iterations left. *)
Fixpoint filter_loop {A} (mask : list bool) (src : list A) (off i n : nat)
    (out : list A) : outcome (list A) :=
  match n with
  | O => Ok out
  | S n' =>
      b ← vec_index mask i;
      if b : bool then
        x ← vec_index src (i + off);
        filter_loop mask src off (S i) n' (out ++ [x])
      else filter_loop mask src off (S i) n' out
  end.

(** The loop over [columns] that rebuilds every column of [filtered_df]. *)
Fixpoint filter_columns (src : gmap string Column) (mask : list bool) (n : nat)
    (cols : list string) (dst : gmap string Column) : outcome (gmap string Column) :=
  match cols with
  | [] => Ok dst
  | col_name :: cols' =>
      c ← map_at src col_name;
      d ← filter_loop mask (data c) 0 0 n [];
      filter_columns src mask n cols'
        (<[col_name := {| name := col_name; data := d; dtype := dtype c |}]> dst)
  end.

Definition data_rows (df : DataFrame) : Z :=
  size_t_wrap (Z.of_nat (length (row_data df)) - 1).

Definition DataFrame_filter (df : DataFrame) (mask : list bool) : outcome DataFrame :=
  if negb (Z.of_nat (length mask) =? data_rows df) then Throw out_of_range
  else
    let n := Z.to_nat (data_rows df) in
    (* filtered_df = new DataFrame( *this ) copies all four members *)
    header ← vec_index (row_data df) 0;
    rows ← filter_loop mask (row_data df) 1 0 n (row_data df ++ [header]);
    cols ← filter_columns (col_data df) mask n (columns df) (col_data df);
    Ok {| col_data := cols; row_data := rows;
          file_dir := file_dir df; columns := columns df |}.

Section Embedding.
Context `{StdLib}.

(** ** Members of [Column] that use the standard library *)

(** [0.0] and [1.0]. *)
Definition d0 : double := double_of_int 0.
Definition d1 : double := double_of_int 1.

Definition numeric (c : Column) : bool :=
  bool_decide (dtype c = "int") || bool_decide (dtype c = "float").

(** *** [Column::mean] *)

(** The range-for loop of [mean]: [sum] accumulates the parsed values,
    [col_size] is decremented once per missing element. *)
Fixpoint mean_loop (elements : list string) (sum col_size : double)
    : outcome (double * double) :=
  match elements with
  | [] => Ok (sum, col_size)
  | element :: rest =>
      if missing element then mean_loop rest sum (dsub col_size d1)
      else
        '(num, _) ← stod element;
        mean_loop rest (dadd sum num) col_size
  end.

Definition Column_mean (c : Column) : outcome double :=
  if numeric c then
    '(sum, col_size) ← mean_loop (data c) d0 (double_of_size (length (data c)));
    Ok (ddiv sum col_size)
  else Throw invalid_argument.

(** *** [Column::sum] *)

Fixpoint sum_loop (elements : list string) (sum : double) : outcome double :=
  match elements with
  | [] => Ok sum
  | element :: rest =>
      if missing element then sum_loop rest sum
      else
        '(num, _) ← stod element;
        sum_loop rest (dadd sum num)
  end.

Definition Column_sum (c : Column) : outcome double :=
  if numeric c then sum_loop (data c) d0 else Throw invalid_argument.

(** *** [Column::sorted], [Column::min], [Column::max] *)

(** The comparator [[](string &s1, string &s2) { return stod(s1) < stod(s2); }]. *)
Definition stod_less (s1 s2 : string) : outcome bool :=
  '(x1, _) ← stod s1;
  '(x2, _) ← stod s2;
  Ok (dltb x1 x2).

Definition Column_sorted (c : Column) : outcome (list string) :=
  if bool_decide (dtype c = "string") then Throw invalid_argument
  else std_sort stod_less (data c).

Definition Column_min (c : Column) : outcome double :=
  if bool_decide (dtype c = "string") then Throw invalid_argument
  else
    sorted_col ← Column_sorted c;
    first ← vec_index sorted_col 0;
    '(mn, _) ← stod first;
    Ok mn.

Definition Column_max (c : Column) : outcome double :=
  if bool_decide (dtype c = "string") then Throw invalid_argument
  else
    sorted_col ← Column_sorted c;
    last ← vec_index_size sorted_col (size_t_wrap (Z.of_nat (length sorted_col) - 1));
    '(mx, _) ← stod last;
    Ok mx.

(** *** [fillna]

    The template parameter [T] of both [fillna] templates, at the two types
    their [is_same] test singles out. *)
Inductive fill_value : Type :=
| fill_int (x : Z)
| fill_double (x : double).

(** [std::to_string(x)]. *)
Definition fill_to_string (x : fill_value) : string :=
  match x with
  | fill_int z => to_string_int z
  | fill_double d => to_string_double d
  end.

(** [x = static_cast<int>(x)], the result stored back into a [T]. *)
Definition fill_cast_int (x : fill_value) : outcome fill_value :=
  match x with
  | fill_int z => Ok (fill_int z)
  | fill_double d => z ← int_of_double d; Ok (fill_double (double_of_int z))
  end.

(** [Column::fillna]: the loop over [data]; [x] is the by-value parameter,
    overwritten by the cast each time a missing element of an ["int"] column
    is met. *)
Fixpoint Column_fillna_loop (dt : string) (elements : list string) (x : fill_value)
    : outcome (list string) :=
  match elements with
  | [] => Ok []
  | element :: rest =>
      if missing element then
        x' ← (if bool_decide (dt = "int") then fill_cast_int x else Ok x);
        rest' ← Column_fillna_loop dt rest x';
        Ok (fill_to_string x' :: rest')
      else
        rest' ← Column_fillna_loop dt rest x;
        Ok (element :: rest')
  end.

Definition Column_fillna (c : Column) (x : fill_value) : outcome Column :=
  d ← Column_fillna_loop (dtype c) (data c) x;
  Ok {| name := name c; data := d; dtype := dtype c |}.

(** [DataFrame::fillna]: every missing element of every column becomes
    [to_string(x)]; the column's dtype is not consulted. *)
Definition fill_element (x : fill_value) (element : string) : string :=
  if missing element then fill_to_string x else element.

Definition DataFrame_fillna (df : DataFrame) (x : fill_value) : DataFrame :=
  {| col_data := (λ c, {| name := name c; data := fill_element x <$> data c;
                          dtype := dtype c |}) <$> col_data df;
     row_data := row_data df; file_dir := file_dir df; columns := columns df |}.

(** *** Comparison operators against a [double] key

    The six operators share one body; [cmp] is the comparison of the parsed
    value with the key.  [catch (...)] turns a throwing [stod] into
    [false]. *)
Definition compare_cell (cmp : double → bool) (element : string) : bool :=
  if missing element then false
  else match stod element with
       | Ok (v, _) => cmp v
       | _ => false
       end.

Definition compare_double (cmp : double → double → bool) (c : Column) (key : double)
    : outcome (list bool) :=
  if bool_decide (dtype c = "string") then Throw runtime_error
  else Ok ((λ element, compare_cell (λ v, cmp v key) element) <$> data c).

Definition Column_eq := compare_double deqb.
Definition Column_ne := compare_double (λ v key, negb (deqb v key)).
Definition Column_lt := compare_double dltb.
Definition Column_gt := compare_double (λ v key, dltb key v).
Definition Column_le := compare_double dleb.
Definition Column_ge := compare_double (λ v key, dleb key v).

(** ** Type inference *)

Definition is_integer (s : string) : bool :=
  match stoi s with
  | Ok (_, pos) => (pos =? String.length s)%nat
  | _ => false
  end.

Definition is_float (s : string) : bool :=
  match stod s with
  | Ok (_, pos) => (pos =? String.length s)%nat
  | _ => false
  end.

(** The inner loop of the type-inference pass, with its [continue] and
    [break]. *)
Fixpoint infer_loop (elements : list string) (all_int all_float : bool) : bool * bool :=
  match elements with
  | [] => (all_int, all_float)
  | element :: rest =>
      if missing element then infer_loop rest all_int all_float
      else
        let all_int := if negb (is_integer element) then false else all_int in
        let all_float := if negb (is_float element) then false else all_float in
        if negb all_int && negb all_float then (all_int, all_float)
        else infer_loop rest all_int all_float
  end.

Definition infer_dtype (elements : list string) : string :=
  let '(all_int, all_float) := infer_loop elements true true in
  if all_int then "int" else if all_float then "float" else "string".

(** ** [DataFrame::DataFrame(string)] *)

(** [while (getline(ss, element, ','))]: the fields of a line.  A field is
    produced at every delimiter, and at the end of the line when at least
    one character was read since the last delimiter. *)
Fixpoint split_fields (line cur : string) : list string :=
  match line with
  | EmptyString => if missing cur then [] else [cur]
  | String c rest =>
      if Ascii.eqb c "," then cur :: split_fields rest ""
      else split_fields rest (cur +:+ String c "")
  end.

(** [temp_data[jdx].data.push_back(element)]. *)
Definition push_cell (temp_data : list Column) (jdx : nat) (element : string)
    : outcome (list Column) :=
  c ← vec_index temp_data jdx;
  Ok (<[jdx := {| name := name c; data := data c ++ [element]; dtype := dtype c |}]> temp_data).

(** The inner [while] of a data row. *)
Fixpoint read_cells (fields : list string) (temp_data : list Column)
    (temp_row : list string) (jdx : nat) : outcome (list Column * list string * nat) :=
  match fields with
  | [] => Ok (temp_data, temp_row, jdx)
  | element :: rest =>
      temp_data' ← push_cell temp_data jdx element;
      read_cells rest temp_data' (temp_row ++ [element]) (S jdx)
  end.

(** One data line. *)
Definition read_row (line : string) (temp_data : list Column) (rows : list (list string))
    : outcome (list Column * list (list string)) :=
  '(temp_data, temp_row, jdx) ← read_cells (split_fields line "") temp_data [] 0;
  header ← vec_index rows 0;
  '(temp_data, temp_row) ←
    (if (length temp_row <? length header)%nat then
       temp_data' ← push_cell temp_data jdx "";
       Ok (temp_data', temp_row ++ [""])
     else Ok (temp_data, temp_row));
  Ok (temp_data, rows ++ [temp_row]).

Fixpoint read_rows (lines : list string) (temp_data : list Column)
    (rows : list (list string)) : outcome (list Column * list (list string)) :=
  match lines with
  | [] => Ok (temp_data, rows)
  | line :: rest =>
      '(temp_data, rows) ← read_row line temp_data rows;
      read_rows rest temp_data rows
  end.

(** The constructor.  [file] is what the file system answers for
    [new_file_dir]: [None] when the file cannot be opened, else its lines. *)
Definition DataFrame_read (new_file_dir : string) (file : option (list string))
    : outcome DataFrame :=
  match file with
  | None => Throw runtime_error
  | Some [] =>
      Ok {| col_data := ∅; row_data := []; file_dir := new_file_dir; columns := [] |}
  | Some (first :: lines) =>
      let header := split_fields first "" in
      let temp_data := (λ element, {| name := element; data := []; dtype := "string" |}) <$> header in
      '(temp_data, rows) ← read_rows lines temp_data [header];
      let temp_data :=
        (λ col, {| name := name col; data := data col; dtype := infer_dtype (data col) |})
          <$> temp_data in
      Ok {| col_data := foldl (λ m col, <[name col := col]> m) ∅ temp_data;
            row_data := rows; file_dir := new_file_dir; columns := header |}
  end.

End Embedding.

(** ** Comparison operators against a [std::string] key *)

Definition compare_string (cmp : string → string → bool) (c : Column) (key : string)
    : outcome (list bool) :=
  if bool_decide (dtype c = "float") || bool_decide (dtype c = "int")
  then Throw runtime_error
  else Ok ((λ element, cmp element key) <$> data c).

Definition Column_eq_str := compare_string String.eqb.
Definition Column_ne_str := compare_string (λ element key, negb (String.eqb element key)).
Definition Column_lt_str := compare_string String.ltb.
Definition Column_gt_str := compare_string (λ element key, String.ltb key element).
Definition Column_le_str := compare_string String.leb.
Definition Column_ge_str := compare_string (λ element key, String.leb key element).

(** ** [DataFrame::rename]

    A mutation that throws leaves the object as it is at the throw, so the
    result carries the table in both cases. *)
Inductive mutation : Type :=
| Done (df : DataFrame)
| Thrown (e : exn) (df : DataFrame).

Definition rename_column (old_col_name new_col_name : string) (c : Column)
    (df : DataFrame) : DataFrame :=
  {| col_data :=
       delete old_col_name
         (<[new_col_name := {| name := new_col_name; data := data c; dtype := dtype c |}]>
            (col_data df));
     row_data := row_data df;
     file_dir := file_dir df;
     columns := (λ col, if bool_decide (col = old_col_name) then new_col_name else col)
                  <$> columns df |}.

Fixpoint DataFrame_rename (vec : list (string * string)) (df : DataFrame) : mutation :=
  match vec with
  | [] => Done df
  | (old_col_name, new_col_name) :: rest =>
      match col_data df !! old_col_name with
      | Some c => DataFrame_rename rest (rename_column old_col_name new_col_name c df)
      | None => Thrown out_of_range df
      end
  end.

(** ** [DataFrame::dropna] *)

Definition ptrdiff_wrap (z : Z) : Z := (z + 2 ^ 63) `mod` 2 ^ 64 - 2 ^ 63.

(** The first loop: the positions of the missing elements, stored in a
    [vector<int>]. *)
Fixpoint missing_from (idx : nat) (elements : list string) : list Z :=
  match elements with
  | [] => []
  | element :: rest =>
      if missing element then int_wrap (Z.of_nat idx) :: missing_from (S idx) rest
      else missing_from (S idx) rest
  end.

(** [v.erase(v.begin() + p)]: undefined unless [p] is the position of an
    element. *)
Definition erase_at (p : Z) (c : Column) : Column :=
  {| name := name c; data := delete (Z.to_nat p) (data c); dtype := dtype c |}.

(** The inner loop over [col_data]. *)
Definition erase_all (p : Z) (m : gmap string Column) : outcome (gmap string Column) :=
  if bool_decide (0 ≤ p) && bool_decide (map_Forall (λ _ c, p < Z.of_nat (length (data c))) m)
  then Ok (erase_at p <$> m)
  else Undefined.

(** The second loop: [idx] is read back as a [size_t], the iterator
    arithmetic [begin() + idx - jdx] is done in [ptrdiff_t], and [jdx++]
    overflows an [int] at [INT_MAX]. *)
Fixpoint erase_rows (removed_idx : list Z) (jdx : Z) (m : gmap string Column)
    : outcome (gmap string Column) :=
  match removed_idx with
  | [] => Ok m
  | idx :: rest =>
      m' ← erase_all (ptrdiff_wrap (size_t_wrap idx) - jdx) m;
      if bool_decide (jdx + 1 ≤ INT_MAX) then erase_rows rest (jdx + 1) m'
      else Undefined
  end.

Definition DataFrame_dropna (df : DataFrame) (col : string) : outcome DataFrame :=
  (* col_data[col] default-constructs the entry when the key is absent *)
  let m := match col_data df !! col with
           | Some _ => col_data df
           | None => <[col := Column_default]> (col_data df)
           end in
  let removed_idx := missing_from 0 (default [] (data <$> m !! col)) in
  m' ← erase_rows removed_idx 0 m;
  Ok {| col_data := m'; row_data := row_data df;
        file_dir := file_dir df; columns := columns df |}.

(** ** [DataFrame::operator[](const string&)] *)

Definition DataFrame_column (df : DataFrame) (key : string) : outcome Column :=
  match col_data df !! key with
  | Some c => Ok c
  | None => Throw out_of_range
  end.

(** ** Output

    What a member function writes to a stream is the string of the
    characters written, in order. *)

(** [std::endl]. *)
Definition endl : string := String "010"%char "".

(** [for (size_t i = 0; i < name.length(); i++) cout << '-';] *)
Fixpoint dashes (n : nat) : string :=
  match n with
  | O => ""
  | S n' => String "-" (dashes n')
  end.

(** *** [Column::print]

    The loop [for (...; idx < end; idx++) cout << data[idx] << endl;],
    started at [idx] with [n] iterations left. *)
Fixpoint print_loop (elements : list string) (idx n : nat) (out : string) : outcome string :=
  match n with
  | O => Ok out
  | S n' =>
      element ← vec_index elements idx;
      print_loop elements (S idx) n' (out +:+ element +:+ endl)
  end.

(** [rows_cnt] is an [int]; [data.size() - rows_cnt] is computed in
    [size_t], and [data.size() - 1] is converted back to [int]. *)
Definition Column_print (c : Column) (rows_cnt : Z) (is_tail : bool) : outcome string :=
  let size := Z.of_nat (length (data c)) in
  if size =? 0 then Ok ""
  else
    let rows_cnt := if rows_cnt =? 0 then int_wrap (size_t_wrap (size - 1)) else rows_cnt in
    let out := name c +:+ endl +:+ dashes (String.length (name c)) +:+ endl in
    out ← (if is_tail then
             let first := size_t_wrap (size - rows_cnt) in
             if first <? size
             then print_loop (data c) (Z.to_nat first) (Z.to_nat (size - first)) out
             else Ok out
           else print_loop (data c) 0 (Z.to_nat rows_cnt) out);
    Ok (out +:+ endl +:+ "Printed: " +:+ to_string_int rows_cnt +:+ " rows" +:+ endl).

(** [Column::head], [Column::tail] and [operator<<(ostream&, const Column&)]. *)
Definition Column_head (c : Column) (rows_cnt : Z) : outcome string :=
  Column_print c rows_cnt false.

Definition Column_tail (c : Column) (rows_cnt : Z) : outcome string :=
  Column_print c rows_cnt true.

Definition Column_output (c : Column) : outcome string := Column_print c 0 false.

(** ** [DataFrame::save_to_csv] *)

(** The validation loop over [selected_columns]. *)
Fixpoint validate_columns (m : gmap string Column) (selected_columns columns_to_save : list string)
    : outcome (list string) :=
  match selected_columns with
  | [] => Ok columns_to_save
  | col_name :: rest =>
      match m !! col_name with
      | None => Throw out_of_range
      | Some _ => validate_columns m rest (columns_to_save ++ [col_name])
      end
  end.

(** The header loop: the names, with [sep] after each one but the last. *)
Fixpoint write_names (sep : string) (names : list string) (out : string) : string :=
  match names with
  | [] => out
  | col_name :: rest =>
      let out := out +:+ col_name in
      let out := match rest with [] => out | _ => out +:+ sep end in
      write_names sep rest out
  end.

(** The inner loop of a row: the value of every column at [idx], with
    [na_rep] for a missing value and [sep] after each one but the last. *)
Fixpoint write_row (m : gmap string Column) (sep na_rep : string) (idx : nat)
    (names : list string) (out : string) : outcome string :=
  match names with
  | [] => Ok out
  | col_name :: rest =>
      col ← map_at m col_name;
      element ← vec_index (data col) idx;
      let value := if missing element then na_rep else element in
      let out := out +:+ value in
      let out := match rest with [] => out | _ => out +:+ sep end in
      write_row m sep na_rep idx rest out
  end.

(** The loop over the rows, started at [idx] with [n] iterations left. *)
Fixpoint write_rows (m : gmap string Column) (index : bool) (sep na_rep : string)
    (names : list string) (idx n : nat) (out : string) : outcome string :=
  match n with
  | O => Ok out
  | S n' =>
      let out := if index then out +:+ N_to_string (N.of_nat idx) +:+ sep else out in
      out ← write_row m sep na_rep idx names out;
      write_rows m index sep na_rep names (S idx) n' (out +:+ endl)
  end.

(** [opened] is the state of the [ofstream] after the parent directories
    were created and the file was opened.  The result is the text written
    to the file and the text written to [cout]. *)
Definition DataFrame_save_to_csv (df : DataFrame) (output_file : string) (opened : bool)
    (index : bool) (sep : string) (header : bool) (na_rep : string)
    (selected_columns : list string) : outcome (string * string) :=
  if negb opened then Throw runtime_error
  else
    columns_to_save ←
      match selected_columns with
      | [] => Ok (columns df)
      | _ => validate_columns (col_data df) selected_columns []
      end;
    let out :=
      if header then
        write_names sep columns_to_save (if index then "index" +:+ sep else "") +:+ endl
      else "" in
    num_rows ←
      match columns_to_save with
      | [] => Ok 0%nat
      | first_col :: _ => col ← map_at (col_data df) first_col; Ok (length (data col))
      end;
    out ← write_rows (col_data df) index sep na_rep columns_to_save 0 num_rows out;
    Ok (out, "Data saved successfully to " +:+ output_file +:+ " with separator '"
             +:+ sep +:+ "'." +:+ endl).

(** ** Reading a file back

    [while (getline(file, line))]: the lines of a text.  A line is
    produced at every newline, and at the end of the text when at least
    one character was read since the last newline. *)
Fixpoint file_lines (text cur : string) : list string :=
  match text with
  | EmptyString => if missing cur then [] else [cur]
  | String c rest =>
      if Ascii.eqb c "010" then cur :: file_lines rest ""
      else file_lines rest (cur +:+ String c "")
  end.

(** * An executable instance: IEEE 754 binary64 and glibc/libstdc++

    [double] is Rocq's primitive binary64 type.  [stod] follows [strtod]:
    white space, a sign, then a decimal or hexadecimal floating constant,
    [inf], [infinity] or [nan], correctly rounded to nearest-even, with
    [ERANGE] (hence [std::out_of_range]) on overflow and on an inexact tiny
    result.  [to_string] follows [printf("%f")].  [std_sort] is the
    insertion sort that libstdc++ runs on a range of at most 16 elements.

    Limits of the instance.  [convert] tests the tiny-result condition on
    the rounded value, so a decimal that rounds up to the smallest normal
    number is accepted where [strtod] reports [ERANGE].  [printf_f] prints
    every NaN as ["nan"]; a NaN with the sign bit set, such as the
    [0.0 / 0.0] of an x86-64, is printed ["-nan"] by [printf].  On more
    than 16 elements [std::sort] is an introsort, which the insertion
    sort does not follow.  The general theorems rely on the [StdLib]
    interface and on [sort_contract] only; the instance serves the
    examples. *)

Module Binary64.

Definition prec : Z := 53.
Definition emax : Z := 1024.

(** The binary64 number nearest to [n / d], for [0 ≤ n] and [0 < d]. *)
Definition round_ratio (neg : bool) (n d : Z) : spec_float :=
  if n =? 0 then S754_zero neg
  else
    let '(q, e, l) := SFdiv_core_binary prec emax n 0 d 0 in
    binary_round_aux prec emax neg q e l.

(** Is the finite number [x] exactly [n / d]? *)
Definition exact_ratio (x : spec_float) (n d : Z) : bool :=
  match x with
  | S754_zero _ => n =? 0
  | S754_finite _ m e =>
      if 0 <=? e then (Zpos m * 2 ^ e * d =? n) else (Zpos m * d =? n * 2 ^ (- e))
  | _ => false
  end.

Definition subnormal (x : spec_float) : bool :=
  match x with
  | S754_zero _ => true
  | S754_finite _ m _ => Zpos (digits2_pos m) <? prec
  | _ => false
  end.

(** [strtod]'s result for the exact value [n / d], with its [ERANGE]. *)
Definition convert (neg : bool) (n d : Z) : exn + float :=
  let x := round_ratio neg n d in
  match x with
  | S754_infinity _ => inl out_of_range
  | _ => if subnormal x && negb (exact_ratio x n d) then inl out_of_range
         else inr (SF2Prim x)
  end.

Definition hex_digit_of (c : ascii) : option Z :=
  let n := nat_of_ascii c in
  if ((48 <=? n)%nat && (n <=? 57)%nat) then Some (Z.of_nat n - 48)
  else if ((97 <=? n)%nat && (n <=? 102)%nat) then Some (Z.of_nat n - 87)
  else if ((65 <=? n)%nat && (n <=? 70)%nat) then Some (Z.of_nat n - 55)
  else None.

Fixpoint read_hex_digits (s : string) (acc : Z) : Z * nat * string :=
  match s with
  | String c r =>
      match hex_digit_of c with
      | Some d => let '(v, n, t) := read_hex_digits r (16 * acc + d) in (v, S n, t)
      | None => (acc, O, s)
      end
  | EmptyString => (acc, O, s)
  end.

Definition lower (c : ascii) : ascii :=
  let n := nat_of_ascii c in
  if ((65 <=? n)%nat && (n <=? 90)%nat) then ascii_of_nat (n + 32) else c.

(** Does [s] start with [word], ignoring case?  [word] is in lower case. *)
Fixpoint starts_with (word s : string) : bool :=
  match word, s with
  | EmptyString, _ => true
  | String w word', String c s' => Ascii.eqb w (lower c) && starts_with word' s'
  | _, _ => false
  end.

(** The optional [(n-char-sequence)] after [nan]: the characters consumed. *)
Definition is_nchar (c : ascii) : bool :=
  let n := nat_of_ascii c in
  ((48 <=? n)%nat && (n <=? 57)%nat) || ((97 <=? n)%nat && (n <=? 122)%nat)
  || ((65 <=? n)%nat && (n <=? 90)%nat) || (n =? 95)%nat.

Fixpoint nchar_sequence (s : string) : option nat :=
  match s with
  | String c r =>
      if Ascii.eqb c ")" then Some 1%nat
      else if is_nchar c then S <$> nchar_sequence r
      else None
  | EmptyString => None
  end.

Definition nan_payload (s : string) : nat :=
  match s with
  | String "(" r => default O (S <$> nchar_sequence r)
  | _ => O
  end.

(** The mantissa [digits [. digits]] or [. digits] in the given base: its
    integer value with the point removed, the number of digits after the
    point, the number of digits in all, and the characters consumed. *)
Definition read_mantissa (digits : string → Z → Z * nat * string) (s : string)
    : Z * nat * nat * nat * string :=
  let '(v, ni, s1) := digits s 0 in
  match s1 with
  | String "." r =>
      let '(v', nf, s2) := digits r v in
      if ((ni + nf)%nat =? 0)%nat then (v, O, O, O, s) else (v', nf, (ni + nf)%nat, S (ni + nf), s2)
  | _ => (v, O, ni, ni, s1)
  end.

(** The exponent part [e [sign] digits] (or [p ...]); absent when no digit
    follows. *)
Definition read_exponent (mark : ascii) (s : string) : Z * nat :=
  match s with
  | String c r =>
      if Ascii.eqb (lower c) mark then
        let '(neg, nsg, r1) := read_sign r in
        let '(v, nd, _) := read_digits r1 0 in
        if (nd =? 0)%nat then (0, O) else (if neg then - v else v, S (nsg + nd))
      else (0, O)
  | EmptyString => (0, O)
  end.

Definition pow_ratio (base : Z) (m e : Z) : Z * Z :=
  if 0 <=? e then (m * base ^ e, 1) else (m, base ^ (- e)).

Definition strtod_result (s : string) : exn + float * nat :=
  let '(nws, s1) := skip_space s in
  let '(neg, nsg, s2) := read_sign s1 in
  let pre := (nws + nsg)%nat in
  if starts_with "infinity" s2 then inr (if neg then neg_infinity else infinity, (pre + 8)%nat)
  else if starts_with "inf" s2 then inr (if neg then neg_infinity else infinity, (pre + 3)%nat)
  else if starts_with "nan" s2 then
    inr (nan, (pre + 3 + nan_payload (String.substring 3 (String.length s2) s2))%nat)
  else
    let hex :=
      match s2 with
      | String "0" (String x r) =>
          if Ascii.eqb (lower x) "x" then
            let '(m, nf, nd, len, r1) := read_mantissa read_hex_digits r in
            if (nd =? 0)%nat then None
            else
              let '(e, elen) := read_exponent "p" r1 in
              Some (pow_ratio 2 m (e - 4 * Z.of_nat nf), (2 + len + elen)%nat)
          else None
      | _ => None
      end in
    let dec :=
      let '(m, nf, nd, len, r1) := read_mantissa read_digits s2 in
      if (nd =? 0)%nat then None
      else
        let '(e, elen) := read_exponent "e" r1 in
        Some (pow_ratio 10 m (e - Z.of_nat nf), (len + elen)%nat) in
    match (if hex is Some _ then hex else dec) with
    | None => inl invalid_argument
    | Some ((n, d), len) =>
        match convert neg n d with
        | inl e => inl e
        | inr x => inr (x, (pre + len)%nat)
        end
    end.

(** [printf("%f")]: six digits after the point, the exact binary value
    rounded to nearest-even. *)
Definition pad6 (s : string) : string :=
  String.substring 0 (6 - String.length s) "000000" +:+ s.

Definition printf_f (x : float) : string :=
  match Prim2SF x with
  | S754_nan => "nan"
  | S754_infinity s => if s then "-inf" else "inf"
  | S754_zero s => if s then "-0.000000" else "0.000000"
  | S754_finite s m e =>
      let '(n, d) := pow_ratio 2 (Zpos m * 10 ^ 6) e in
      let q := n / d in
      let r := n mod d in
      let q := if (d <? 2 * r) || ((2 * r =? d) && Z.odd q) then q + 1 else q in
      (if s then "-" else "") +:+ N_to_string (Z.to_N (q / 10 ^ 6)) +:+ "."
        +:+ pad6 (N_to_string (Z.to_N (q mod 10 ^ 6)))
  end.

Definition of_int (z : Z) : float := SF2Prim (binary_normalize prec emax z 0 false).

Definition to_int (x : float) : outcome Z :=
  let in_range z := if (z <? INT_MIN) || (INT_MAX <? z) then Undefined else Ok z in
  match Prim2SF x with
  | S754_zero _ => Ok 0
  | S754_finite s m e =>
      let a := if 0 <=? e then Zpos m * 2 ^ e else Zpos m / 2 ^ (- e) in
      in_range (if s then - a else a)
  | _ => Undefined
  end.

(** [__unguarded_linear_insert]: [rev_sorted] is the sorted prefix, last
    element first; [val] goes below every element it compares less than. *)
Fixpoint linear_insert {A} (comp : A → A → outcome bool) (val : A) (rev_sorted : list A)
    : outcome (list A) :=
  match rev_sorted with
  | [] => Ok [val]
  | next :: rest =>
      b ← comp val next;
      if b : bool then r ← linear_insert comp val rest; Ok (next :: r)
      else Ok (val :: rev_sorted)
  end.

(** [__insertion_sort]: the loop over the elements after the first. *)
Fixpoint insertion_loop {A} (comp : A → A → outcome bool) (todo sorted : list A)
    : outcome (list A) :=
  match todo with
  | [] => Ok sorted
  | val :: todo' =>
      match sorted with
      | [] => insertion_loop comp todo' [val]
      | first :: _ =>
          b ← comp val first;
          if b : bool then insertion_loop comp todo' (val :: sorted)
          else r ← linear_insert comp val (reverse sorted);
               insertion_loop comp todo' (reverse r)
      end
  end.

Definition insertion_sort (A : Type) (comp : A → A → outcome bool) (l : list A)
    : outcome (list A) :=
  match l with
  | [] => Ok []
  | first :: rest => insertion_loop comp rest [first]
  end.

Global Instance lib : StdLib := {|
  double := float;
  stod_result := strtod_result;
  to_string_double := printf_f;
  double_of_size n := of_int (Z.of_nat n);
  double_of_int := of_int;
  int_of_double := to_int;
  dadd := PrimFloat.add;
  dsub := PrimFloat.sub;
  ddiv := PrimFloat.div;
  deqb := PrimFloat.eqb;
  dltb := PrimFloat.ltb;
  dleb := PrimFloat.leb;
  std_sort := insertion_sort;
|}.

End Binary64.

(** ** Masks: the rows a mask keeps *)

(** Number of [true] entries of a mask. *)
Definition count_true (mask : list bool) : nat := length (filter (λ b, b = true) mask).

(** Positions of the [true] entries of a mask, ascending, counted from [i]. *)
Fixpoint kept_from (i : nat) (mask : list bool) : list nat :=
  match mask with
  | [] => []
  | b :: mask' => if b then i :: kept_from (S i) mask' else kept_from (S i) mask'
  end.

Definition kept (mask : list bool) : list nat := kept_from 0 mask.

(** The elements of [xs] at the kept positions. *)
Definition select {A} (mask : list bool) (xs : list A) : list A :=
  omap (λ i, xs !! i) (kept mask).

(** What [filter_columns] stores under a column name. *)
Definition filtered_column (mask : list bool) (col_name : string) (c : Column) : Column :=
  {| name := col_name; data := select mask (data c); dtype := dtype c |}.

(** ** The representation invariant of a table

    [row_data] holds the header and one row per data row, and every column
    listed in [columns] is stored with that many values. *)

Definition row_count (df : DataFrame) : nat := pred (length (row_data df)).

Record table_inv (df : DataFrame) : Prop := {
  inv_header : row_data df ≠ [];
  inv_size : Z.of_nat (length (row_data df)) < 2 ^ 64;
  inv_columns : ∀ c, c ∈ columns df →
    ∃ col, col_data df !! c = Some col ∧ length (data col) = row_count df;
}.

(** ** Type inference: what a column's values are *)

Definition all_integer (elements : list string) : Prop :=
  ∀ v, v ∈ elements → missing v = false → is_integer v = true.

Definition all_float `{StdLib} (elements : list string) : Prop :=
  ∀ v, v ∈ elements → missing v = false → is_float v = true.

Definition all_missing (elements : list string) : Prop :=
  ∀ v, v ∈ elements → v = "".

(** ** Statistics: the values a column holds *)

(** The non-missing elements, in row order. *)
Definition present (elements : list string) : list string :=
  filter (λ v, v ≠ "") elements.

(** [stod] converts [s] to [v]. *)
Definition parses `{StdLib} (s : string) (v : double) : Prop :=
  ∃ pos, stod s = Ok (v, pos).

(** The sum as the loops compute it: from [0.0], left to right. *)
Definition dsum `{StdLib} (values : list double) : double := foldl dadd d0 values.

(** Decrementing the [double] of a positive size below [n] is exact.  On
    binary64 this holds for every [n] up to [2 ^ 53]. *)
Definition exact_decrement `{StdLib} (n : nat) : Prop :=
  ∀ j, (j < n)%nat → dsub (double_of_size (S j)) d1 = double_of_size j.

(** ** [dropna]: the rows that stay *)

(** The mask that is [true] at the rows where the element is not missing. *)
Definition keep_mask (elements : list string) : list bool :=
  (λ v, negb (missing v)) <$> elements.

(** A column with its values replaced. *)
Definition with_data (f : list string → list string) (c : Column) : Column :=
  {| name := name c; data := f (data c); dtype := dtype c |}.

(** ** What the embedding assumes of [std::sort] and [std::stod]

    A range of at most one element is left alone without a call of the
    comparator.  On a longer range every element is passed to the
    comparator at least once, and an exception of the comparator leaves
    [std::sort]; so the sort throws when some element makes every
    comparison it takes part in throw. *)
Record sort_contract `{StdLib} : Prop := {
  sort_trivial : ∀ (A : Type) (comp : A → A → outcome bool) (l : list A),
    (length l ≤ 1)%nat → std_sort comp l = Ok l;
  sort_throws : ∀ (A : Type) (comp : A → A → outcome bool) (l : list A) (x : A),
    (2 ≤ length l)%nat → x ∈ l →
    (∀ y, throws (comp x y) ∧ throws (comp y x)) →
    (∀ a b, comp a b ≠ Undefined) →
    throws (std_sort comp l);
}.

(** [std::stod] throws on the empty string: there is nothing to convert. *)
Definition stod_rejects_empty `{StdLib} : Prop := throws (stod "").

(** ** Well-formed input files

    A data line fits a header of [n] fields when it has [n] fields, or
    [n - 1]: the constructor then pads the last column with a missing
    value. *)
Definition row_fits (n : nat) (line : string) : Prop :=
  length (split_fields line "") = n ∨ S (length (split_fields line "")) = n.

(** [grown k cols' cols]: the same columns, in the same order, with [k]
    more values each. *)
Definition grown (k : nat) (cols' cols : list Column) : Prop :=
  Forall2 (λ c' c, name c' = name c ∧ length (data c') = (length (data c) + k)%nat) cols' cols.

(** ** Masks that come from a comparison

    [mask] is the result of one of the twelve comparison operators applied
    to the column [c]. *)
Definition comparison_mask `{StdLib} (c : Column) (mask : list bool) : Prop :=
  (∃ op key, op ∈ [Column_eq; Column_ne; Column_lt; Column_gt; Column_le; Column_ge]
             ∧ op c key = Ok mask) ∨
  (∃ op key, op ∈ [Column_eq_str; Column_ne_str; Column_lt_str; Column_gt_str;
                   Column_le_str; Column_ge_str]
             ∧ op c key = Ok mask).

(** ** Rows and cells as the constructor stores them *)

(** The row stored for a data line under a header of [n] fields: the
    fields of the line, with one missing value appended when there are
    fewer than [n]. *)
Definition stored_row (n : nat) (line : string) : list string :=
  let fields := split_fields line "" in
  if (length fields <? n)%nat then fields ++ [""] else fields.

(** The [j]-th cell of every row that has one. *)
Definition cells_at (j : nat) (rows : list (list string)) : list string :=
  omap (λ row, row !! j) rows.

(** A column with one more value, or as it is. *)
Definition with_cell (cell : option string) (c : Column) : Column :=
  match cell with
  | Some element => {| name := name c; data := data c ++ [element]; dtype := dtype c |}
  | None => c
  end.

(** ** Printed text *)

(** The text of a list of lines, each one followed by a newline. *)
Definition lines_text (lines : list string) : string :=
  foldr (λ line text, line +:+ endl +:+ text) "" lines.

(** What [Column::print] writes before and after the values: the name
    underlined with dashes, and the number of rows it says it printed. *)
Definition print_title (c : Column) : string :=
  name c +:+ endl +:+ dashes (String.length (name c)) +:+ endl.

Definition print_footer (rows_cnt : Z) : string :=
  endl +:+ "Printed: " +:+ to_string_int rows_cnt +:+ " rows" +:+ endl.

(** ** Saved text *)

(** The character [ch] does not occur in [s]. *)
Fixpoint free_of (ch : ascii) (s : string) : bool :=
  match s with
  | EmptyString => true
  | String c r => negb (Ascii.eqb c ch) && free_of ch r
  end.

(** A name or a value that a comma-separated file can hold: neither a
    comma nor a newline in it. *)
Definition csv_safe (s : string) : Prop :=
  free_of "," s = true ∧ free_of "010" s = true.

(** The values of row [idx] in the columns [names], with [na_rep] for a
    missing value. *)
Definition saved_cells (m : gmap string Column) (na_rep : string) (names : list string)
    (idx : nat) : list string :=
  (λ k, let element := default "" (m !! k ≫= λ c, data c !! idx) in
        if missing element then na_rep else element) <$> names.

(** The lines of the saved file: the header line when asked for, then
    one line per row, each with the row number first when [index] is
    set. *)
Definition saved_lines (m : gmap string Column) (index : bool) (sep : string) (header : bool)
    (na_rep : string) (names : list string) (num_rows : nat) : list string :=
  (if header then [(if index then "index" +:+ sep else "") +:+ String.concat sep names] else [])
  ++ ((λ idx, (if index then N_to_string (N.of_nat idx) +:+ sep else "")
              +:+ String.concat sep (saved_cells m na_rep names idx)) <$> seq 0 num_rows).

(** What [save_to_csv] writes to [cout]. *)
Definition saved_message (output_file sep : string) : string :=
  "Data saved successfully to " +:+ output_file +:+ " with separator '" +:+ sep +:+ "'." +:+ endl.

(** ** A small table

    The file [t.csv]: three columns, three data rows; the second row omits
    its last field and the third has an empty first field. *)

Definition t_csv : list string := ["x,y,z"; "1,a,2.5"; "2,b"; ",c,1"].

Definition t_table : DataFrame :=
  {| col_data :=
       {[ "x" := {| name := "x"; data := ["1"; "2"; ""]; dtype := "int" |};
          "y" := {| name := "y"; data := ["a"; "b"; "c"]; dtype := "string" |};
          "z" := {| name := "z"; data := ["2.5"; ""; "1"]; dtype := "float" |} ]};
     row_data := [["x"; "y"; "z"]; ["1"; "a"; "2.5"]; ["2"; "b"; ""]; [""; "c"; "1"]];
     file_dir := "t.csv";
     columns := ["x"; "y"; "z"] |}.

(** A file whose second column is empty in every row. *)
Definition u_csv : list string := ["x,y"; "1,"; "2,"].

Definition u_table : DataFrame :=
  {| col_data :=
       {[ "x" := {| name := "x"; data := ["1"; "2"]; dtype := "int" |};
          "y" := {| name := "y"; data := [""; ""]; dtype := "int" |} ]};
     row_data := [["x"; "y"]; ["1"; ""]; ["2"; ""]];
     file_dir := "u.csv";
     columns := ["x"; "y"] |}.

(** * The instance meets what is assumed of the library *)

Section InsertionSort.
Context {A : Type} (comp : A → A → outcome bool).
Hypothesis comp_defined : ∀ a b, comp a b ≠ Undefined.

Lemma linear_insert_defined (val : A) (rev_sorted : list A) :
  Binary64.linear_insert comp val rev_sorted ≠ Undefined.
Proof.
  induction rev_sorted as [|next rest IH]; cbn [Binary64.linear_insert]; [done|].
  destruct (comp val next) as [[]| |] eqn:Hc; cbn [mbind outcome_bind]; try done.
  - by destruct (Binary64.linear_insert comp val rest).
  - by apply comp_defined in Hc.
Qed.

Lemma linear_insert_nonempty (val : A) (rev_sorted r : list A) :
  Binary64.linear_insert comp val rev_sorted = Ok r → r ≠ [].
Proof.
  destruct rev_sorted as [|next rest]; cbn [Binary64.linear_insert].
  - by intros [= <-].
  - destruct (comp val next) as [[]| |]; cbn [mbind outcome_bind]; try done.
    + destruct (Binary64.linear_insert comp val rest); cbn [mbind outcome_bind]; try done.
      by intros [= <-].
    + by intros [= <-].
Qed.

Lemma reverse_nonempty (l : list A) : l ≠ [] → reverse l ≠ [].
Proof.
  intros Hl Hr. apply Hl. apply (f_equal length) in Hr.
  rewrite length_reverse in Hr. by destruct l.
Qed.

(** An element of the part still to insert that throws in every
    comparison makes the loop throw. *)
Lemma insertion_loop_throws (todo sorted : list A) (x : A) :
  sorted ≠ [] → x ∈ todo → (∀ y, throws (comp x y)) →
  throws (Binary64.insertion_loop comp todo sorted).
Proof.
  revert sorted. induction todo as [|val todo IH]; intros sorted Hs Hx Hbad.
  - by apply elem_of_nil in Hx.
  - destruct sorted as [|first sorted]; [done|]. cbn [Binary64.insertion_loop].
    destruct (comp val first) as [b|e|] eqn:Hc; cbn [mbind outcome_bind].
    + assert (Hx' : x ∈ todo).
      { apply elem_of_cons in Hx as [->|Hx]; [|done].
        destruct (Hbad first) as [e He]. congruence. }
      destruct b.
      * by apply IH.
      * destruct (Binary64.linear_insert comp val (reverse (first :: sorted)))
          as [r|e|] eqn:Hr; cbn [mbind outcome_bind].
        -- apply IH; [|done|done]. apply reverse_nonempty.
           by apply linear_insert_nonempty in Hr.
        -- by exists e.
        -- by apply linear_insert_defined in Hr.
    + by exists e.
    + by apply comp_defined in Hc.
Qed.

Lemma insertion_sort_throws (l : list A) (x : A) :
  (2 ≤ length l)%nat → x ∈ l → (∀ y, throws (comp x y) ∧ throws (comp y x)) →
  throws (Binary64.insertion_sort A comp l).
Proof.
  intros Hlen Hx Hbad. destruct l as [|first [|val rest]]; cbn [length] in Hlen; try lia.
  unfold Binary64.insertion_sort.
  apply elem_of_cons in Hx as [->|Hx].
  - cbn [Binary64.insertion_loop]. destruct (Hbad val) as [_ [e He]].
    rewrite He. by exists e.
  - apply (insertion_loop_throws _ _ x); [done|done|]. intros y. apply Hbad.
Qed.
End InsertionSort.

Lemma Binary64_sort_contract : sort_contract (H := Binary64.lib).
Proof.
  split.
  - intros A comp [|a [|b l]] Hlen; cbn [length] in Hlen; try lia; reflexivity.
  - intros A comp l x Hlen Hx Hbad Hdef. by apply (insertion_sort_throws comp Hdef l x).
Defined.

Lemma Binary64_stod_rejects_empty : stod_rejects_empty (H := Binary64.lib).
Proof. exists invalid_argument. reflexivity. Defined.

(** * The constructor establishes the representation invariant *)

Lemma read_cells_ok (fields : list string) (temp_data : list Column)
    (temp_row : list string) (jdx : nat) :
  (jdx + length fields ≤ length temp_data)%nat →
  ∃ td, read_cells fields temp_data temp_row jdx
        = Ok (td, temp_row ++ fields, (jdx + length fields)%nat) ∧
    length td = length temp_data ∧
    ∀ i c, temp_data !! i = Some c →
      ∃ c', td !! i = Some c' ∧ name c' = name c ∧
        length (data c') =
          if decide (jdx ≤ i < jdx + length fields)%nat then S (length (data c))
          else length (data c).
Proof.
  revert temp_data temp_row jdx.
  induction fields as [|element rest IH]; intros temp_data temp_row jdx Hlen;
    cbn [read_cells length] in *.
  - exists temp_data. rewrite app_nil_r, Nat.add_0_r. split; [done|]. split; [done|].
    intros i c Hc. exists c. split; [done|]. split; [done|].
    rewrite decide_False by lia. done.
  - destruct (lookup_lt_is_Some_2 temp_data jdx) as [c0 Hc0]; [lia|].
    unfold push_cell, vec_index. rewrite Hc0. cbn [mbind outcome_bind].
    set (c1 := {| name := name c0; data := data c0 ++ [element]; dtype := dtype c0 |}).
    destruct (IH (<[jdx:=c1]> temp_data) (temp_row ++ [element]) (S jdx))
      as (td & Hrun & Hl & Hcols).
    { rewrite length_insert. lia. }
    exists td. rewrite Hrun. rewrite <- app_assoc. cbn [app].
    replace (S jdx + length rest)%nat with (jdx + S (length rest))%nat by lia.
    split; [done|]. split; [by rewrite Hl, length_insert|].
    intros i c Hc. destruct (decide (i = jdx)) as [->|Hne].
    + destruct (Hcols jdx c1) as (c' & Hc' & Hn & Hd).
      { apply list_lookup_insert_eq. by eapply lookup_lt_Some. }
      exists c'. split; [done|]. rewrite Hc0 in Hc. injection Hc as <-.
      split; [done|]. rewrite Hd. rewrite decide_False by lia.
      rewrite decide_True by lia. subst c1. cbn [data]. rewrite length_app. cbn. lia.
    + destruct (Hcols i c) as (c' & Hc' & Hn & Hd).
      { by rewrite list_lookup_insert_ne. }
      exists c'. split; [done|]. split; [done|]. rewrite Hd.
      destruct (decide (S jdx ≤ i < S jdx + length rest)%nat),
               (decide (jdx ≤ i < jdx + S (length rest))%nat); (done || lia).
Qed.

Lemma grown_refl (cols : list Column) : grown 0 cols cols.
Proof. apply Forall2_same_length_lookup. split; [done|]. intros i c' c Hc' Hc.
  rewrite Hc in Hc'. injection Hc' as <-. split; [done|lia]. Qed.

Lemma grown_step (k : nat) (cols2 cols1 cols0 : list Column) :
  grown k cols2 cols1 → grown 1 cols1 cols0 → grown (S k) cols2 cols0.
Proof.
  unfold grown. intros H21 H10.
  pose proof (Forall2_length _ _ _ H21) as Hl21.
  pose proof (Forall2_length _ _ _ H10) as Hl10.
  apply Forall2_same_length_lookup. split; [lia|].
  intros i c2 c0 Hc2 Hc0.
  destruct (lookup_lt_is_Some_2 cols1 i) as [c1 Hc1].
  { apply lookup_lt_Some in Hc0. lia. }
  destruct (Forall2_lookup_lr _ _ _ _ _ _ H21 Hc2 Hc1) as [Hn2 Hd2].
  destruct (Forall2_lookup_lr _ _ _ _ _ _ H10 Hc1 Hc0) as [Hn1 Hd1].
  split; [congruence|lia].
Qed.

(** A line that fits the header adds one value to every column and one row
    to the row buffer. *)
Lemma read_row_ok (line : string) (temp_data : list Column) (header : list string)
    (rows : list (list string)) :
  length header = length temp_data → row_fits (length header) line →
  ∃ td row, read_row line temp_data (header :: rows) = Ok (td, header :: rows ++ [row]) ∧
    grown 1 td temp_data.
Proof.
  intros Hhd Hfit. unfold read_row, row_fits in *.
  destruct (read_cells_ok (split_fields line "") temp_data [] 0) as (td & Hrun & Hl & Hcols).
  { destruct Hfit; lia. }
  rewrite Hrun. cbn [mbind outcome_bind app]. unfold vec_index at 1.
  cbn [lookup list_lookup mbind outcome_bind].
  set (fields := split_fields line "") in *. cbn [Nat.add] in *.
  destruct Hfit as [Hfull|Hshort].
  - rewrite (proj2 (Nat.ltb_ge (length fields) (length header))) by lia. cbn [mbind outcome_bind].
    exists td, fields. split; [done|].
    apply Forall2_same_length_lookup. split; [done|]. intros i c' c Hc' Hc.
    destruct (Hcols i c Hc) as (c'' & Hc'' & Hn & Hd).
    rewrite Hc' in Hc''. injection Hc'' as <-. split; [done|].
    rewrite Hd. rewrite decide_True; [lia|]. apply lookup_lt_Some in Hc. lia.
  - rewrite (proj2 (Nat.ltb_lt (length fields) (length header))) by lia.
    destruct (lookup_lt_is_Some_2 td (length fields)) as [cl Hcl]; [lia|].
    unfold push_cell, vec_index. rewrite Hcl. cbn [mbind outcome_bind].
    eexists _, _. split; [done|].
    apply Forall2_same_length_lookup. split; [by rewrite length_insert|].
    intros i c' c Hc' Hc.
    destruct (Hcols i c Hc) as (c'' & Hc'' & Hn & Hd).
    destruct (decide (i = length fields)) as [->|Hne].
    + rewrite list_lookup_insert_eq in Hc' by (by eapply lookup_lt_Some).
      injection Hc' as <-. rewrite Hcl in Hc''. injection Hc'' as <-.
      cbn [name data]. split; [done|]. rewrite length_app, Hd.
      rewrite decide_False by lia. cbn. lia.
    + rewrite list_lookup_insert_ne in Hc' by done.
      rewrite Hc' in Hc''. injection Hc'' as <-. split; [done|].
      rewrite Hd. rewrite decide_True; [lia|]. apply lookup_lt_Some in Hc. lia.
Qed.

Lemma read_rows_ok (lines : list string) (temp_data : list Column) (header : list string)
    (rows : list (list string)) :
  length header = length temp_data → Forall (row_fits (length header)) lines →
  ∃ td rows', read_rows lines temp_data (header :: rows) = Ok (td, header :: rows') ∧
    length rows' = (length rows + length lines)%nat ∧
    grown (length lines) td temp_data.
Proof.
  revert temp_data rows. induction lines as [|line lines IH]; intros temp_data rows Hhd Hfit;
    cbn [read_rows].
  - exists temp_data, rows. split; [done|]. split; [cbn; lia|apply grown_refl].
  - apply Forall_cons in Hfit as [Hline Hfit].
    destruct (read_row_ok line temp_data header rows Hhd Hline) as (td1 & row & Hrun & Hg1).
    rewrite Hrun. cbn [mbind outcome_bind].
    destruct (IH td1 (rows ++ [row])) as (td & rows' & Hrun' & Hlen & Hg); [|done|].
    { rewrite Hhd. symmetry. by eapply Forall2_length. }
    exists td, rows'. split; [done|]. split.
    + rewrite Hlen, length_app. cbn. lia.
    + cbn [length]. by apply (grown_step _ _ td1).
Qed.

Lemma foldl_insert_other (cols : list Column) (m : gmap string Column) (k : string) :
  k ∉ name <$> cols → foldl (λ m col, <[name col := col]> m) m cols !! k = m !! k.
Proof.
  revert m. induction cols as [|x cols IH]; intros m Hk; cbn [foldl]; [done|].
  rewrite fmap_cons in Hk. apply not_elem_of_cons in Hk as [Hne Hk].
  rewrite IH by done. by rewrite lookup_insert_ne.
Qed.

Lemma foldl_insert_NoDup (cols : list Column) (m : gmap string Column) (x : Column) :
  NoDup (name <$> cols) → x ∈ cols →
  foldl (λ m col, <[name col := col]> m) m cols !! name x = Some x.
Proof.
  revert m. induction cols as [|y cols IH]; intros m Hnd Hx; [by apply elem_of_nil in Hx|].
  rewrite fmap_cons in Hnd. apply NoDup_cons in Hnd as [Hy Hnd]. cbn [foldl].
  apply elem_of_cons in Hx as [->|Hx].
  - rewrite foldl_insert_other by done. apply lookup_insert_eq.
  - by apply IH.
Qed.

(** A file with a header of distinct names and data lines that fit it is
    read into a table that satisfies the representation invariant, with
    one row per data line. *)
Lemma DataFrame_read_inv `{StdLib} (path first : string) (lines : list string) :
  NoDup (split_fields first "") →
  Forall (row_fits (length (split_fields first ""))) lines →
  Z.of_nat (S (length lines)) < 2 ^ 64 →
  ∃ df, DataFrame_read path (Some (first :: lines)) = Ok df ∧
    table_inv df ∧ row_count df = length lines ∧ columns df = split_fields first "".
Proof.
  intros Hnd Hfit Hsize. unfold DataFrame_read.
  set (header := split_fields first "") in *.
  set (temp0 := (λ element, {| name := element; data := []; dtype := "string" |}) <$> header).
  destruct (read_rows_ok lines temp0 header []) as (td & rows & Hrun & Hlen & Hg).
  { subst temp0. by rewrite length_fmap. }
  { done. }
  rewrite Hrun. cbn [mbind outcome_bind]. eexists. split; [done|].
  cbn [length Nat.add] in Hlen.
  assert (Hrc : row_count {| col_data := foldl (λ m col, <[name col:=col]> m) ∅
             ((λ col, {| name := name col; data := data col; dtype := infer_dtype (data col) |}) <$> td);
             row_data := header :: rows; file_dir := path; columns := header |} = length lines).
  { unfold row_count. cbn [row_data length pred]. done. }
  split; [|split; [exact Hrc|done]].
  split.
  - done.
  - cbn [row_data length]. lia.
  - cbn [columns col_data]. intros c Hc. rewrite Hrc.
    apply list_elem_of_lookup in Hc as [i Hi].
    assert (Ht0 : temp0 !! i = Some {| name := c; data := []; dtype := "string" |}).
    { subst temp0. by rewrite list_lookup_fmap, Hi. }
    destruct (lookup_lt_is_Some_2 td i) as [ci Hci].
    { rewrite (Forall2_length _ _ _ Hg). by eapply lookup_lt_Some. }
    destruct (Forall2_lookup_lr _ _ _ _ _ _ Hg Hci Ht0) as [Hn Hd].
    cbn [name data length] in Hn, Hd.
    set (f := λ col, {| name := name col; data := data col; dtype := infer_dtype (data col) |}).
    exists (f ci). split; [|by cbn].
    replace c with (name (f ci)) by done.
    apply foldl_insert_NoDup.
    + rewrite <- list_fmap_compose.
      assert (Hnames : name ∘ f <$> td = header); [|by rewrite Hnames].
      apply list_eq. intros j. rewrite list_lookup_fmap.
      destruct (td !! j) as [cj|] eqn:Hcj.
      * destruct (lookup_lt_is_Some_2 temp0 j) as [c0 Hc0].
        { rewrite <- (Forall2_length _ _ _ Hg). by eapply lookup_lt_Some. }
        destruct (Forall2_lookup_lr _ _ _ _ _ _ Hg Hcj Hc0) as [Hnj _].
        subst temp0. rewrite list_lookup_fmap in Hc0.
        destruct (header !! j) as [h|]; [|done]. injection Hc0 as <-. cbn in *.
        by rewrite Hnj.
      * cbn. symmetry. apply lookup_ge_None. apply lookup_ge_None in Hcj.
        rewrite (Forall2_length _ _ _ Hg) in Hcj. subst temp0.
        by rewrite length_fmap in Hcj.
    + apply list_elem_of_fmap. exists ci. split; [done|].
      apply list_elem_of_lookup. by exists i.
Qed.

(** * The example table *)

Lemma t_table_read : DataFrame_read (H := Binary64.lib) "t.csv" (Some t_csv) = Ok t_table.
Proof. vm_compute. reflexivity. Qed.

Lemma t_table_inv : table_inv t_table.
Proof.
  split.
  - discriminate.
  - cbn. lia.
  - intros c Hc. cbn in Hc.
    repeat (apply elem_of_cons in Hc as [->|Hc]; [eexists; split; [reflexivity|reflexivity]|]).
    by apply elem_of_nil in Hc.
Defined.

Lemma u_table_read : DataFrame_read (H := Binary64.lib) "u.csv" (Some u_csv) = Ok u_table.
Proof. vm_compute. reflexivity. Qed.

(** * Mask filtering *)

Section FilterLoop.
Context {A : Type}.
Implicit Types (mask : list bool) (src out : list A).

Lemma kept_from_length i mask : length (kept_from i mask) = count_true mask.
Proof.
  unfold count_true. revert i.
  induction mask as [|[] mask IH]; intros i; cbn [kept_from]; [done| |].
  - rewrite filter_cons_True by done. cbn [length]. by rewrite IH.
  - rewrite filter_cons_False by done. by rewrite IH.
Qed.

Lemma kept_from_bound i mask j p :
  kept_from i mask !! j = Some p →
  (i ≤ p < i + length mask)%nat ∧ mask !! (p - i)%nat = Some true.
Proof.
  revert i j. induction mask as [|b mask IH]; intros i j; simpl; [done|].
  destruct b.
  - destruct j as [|j]; simpl.
    + intros [= <-]. rewrite Nat.sub_diag. split; [lia|done].
    + intros H. apply IH in H as [H1 H2]. split; [lia|].
      replace (p - i)%nat with (S (p - S i)) by lia. done.
  - intros H. apply IH in H as [H1 H2]. split; [lia|].
    replace (p - i)%nat with (S (p - S i)) by lia. done.
Qed.

(** The loop appends, in order, the source elements at the positions the
    mask keeps. *)
Lemma filter_loop_ok mask src off i n out :
  (i + n = length mask)%nat → (length mask + off ≤ length src)%nat →
  filter_loop mask src off i n out
  = Ok (out ++ omap (λ p, src !! (p + off)%nat) (kept_from i (drop i mask))).
Proof.
  revert i out. induction n as [|n IH]; intros i out Hlen Hsrc; cbn [filter_loop].
  - rewrite drop_ge by lia. simpl. by rewrite app_nil_r.
  - destruct (lookup_lt_is_Some_2 mask i) as [b Hb]; [lia|].
    unfold vec_index. rewrite Hb. cbn [mbind outcome_bind].
    rewrite (drop_S _ _ _ Hb). cbn [kept_from].
    destruct b.
    + destruct (lookup_lt_is_Some_2 src (i + off)%nat) as [x Hx]; [lia|].
      rewrite Hx. cbn [mbind outcome_bind].
      rewrite IH by lia. cbn [omap list_omap]. rewrite Hx. by rewrite <- app_assoc.
    + rewrite IH by lia. done.
Qed.

Lemma filter_loop_select mask src :
  (length mask ≤ length src)%nat →
  filter_loop mask src 0 0 (length mask) [] = Ok (select mask src).
Proof.
  intros H. rewrite filter_loop_ok by lia. rewrite drop_0, app_nil_l.
  unfold select, kept. f_equal.
  induction (kept_from 0 mask) as [|p l IH]; [done|].
  cbn [omap list_omap]. by rewrite Nat.add_0_r, IH.
Qed.

Lemma omap_lookup_total (f : nat → option A) (l : list nat) j p :
  (∀ q, q ∈ l → is_Some (f q)) → l !! j = Some p → omap f l !! j = f p.
Proof.
  revert j. induction l as [|q l IH]; intros j Hl Hj; [done|].
  simpl. destruct (Hl q) as [x Hx]; [by left|]. rewrite Hx.
  destruct j as [|j]; simpl in *.
  - by inversion Hj; subst.
  - apply IH; [|done]. intros q' Hq'. apply Hl. by right.
Qed.

Lemma select_lookup mask src j p :
  (length mask ≤ length src)%nat →
  kept mask !! j = Some p → select mask src !! j = src !! p.
Proof.
  intros Hlen Hj. unfold select. apply (omap_lookup_total (λ i, src !! i)); [|done].
  intros q [k Hk]%list_elem_of_lookup. apply kept_from_bound in Hk as [Hk _].
  apply lookup_lt_is_Some_2. lia.
Qed.

Lemma select_length mask src :
  (length mask ≤ length src)%nat → length (select mask src) = count_true mask.
Proof.
  intros Hlen. rewrite <- (kept_from_length 0 mask). unfold select, kept.
  generalize (kept_from_bound 0 mask). generalize (kept_from 0 mask). intros l Hl.
  induction l as [|q l IH]; [done|]. simpl.
  destruct (Hl 0%nat q eq_refl) as [Hq _].
  destruct (lookup_lt_is_Some_2 src q) as [x Hx]; [lia|]. rewrite Hx. simpl.
  f_equal. apply IH. intros j p Hp. apply (Hl (S j)). done.
Qed.

Lemma kept_from_S i mask : kept_from (S i) mask = S <$> kept_from i mask.
Proof.
  revert i. induction mask as [|[] mask IH]; intros i; cbn [kept_from fmap list_fmap].
  - done.
  - by rewrite IH.
  - by rewrite IH.
Qed.

Lemma select_nil src : select [] src = [].
Proof. done. Qed.

Lemma select_cons b mask x src :
  select (b :: mask) (x :: src) = if b then x :: select mask src else select mask src.
Proof.
  unfold select, kept. cbn [kept_from].
  assert (Hshift : omap (λ i, (x :: src) !! i) (kept_from 1 mask)
                   = omap (λ i, src !! i) (kept_from 0 mask)).
  { rewrite kept_from_S. induction (kept_from 0 mask) as [|p l IH]; [done|].
    cbn [fmap list_fmap omap list_omap]. cbn [lookup list_lookup]. by rewrite IH. }
  destruct b; cbn [omap list_omap]; cbn [lookup list_lookup]; by rewrite Hshift.
Qed.
End FilterLoop.

Lemma filter_columns_ok (src : gmap string Column) (mask : list bool) cols dst :
  (∀ c, c ∈ cols → ∃ col, src !! c = Some col ∧ length (data col) = length mask) →
  ∃ dst', filter_columns src mask (length mask) cols dst = Ok dst' ∧
    ∀ c, dst' !! c = if decide (c ∈ cols) then filtered_column mask c <$> src !! c
                     else dst !! c.
Proof.
  revert dst. induction cols as [|c0 cols IH]; intros dst Hcols; cbn [filter_columns].
  - exists dst. split; [done|]. intros c. by rewrite decide_False by apply not_elem_of_nil.
  - destruct (Hcols c0) as (col & Hcol & Hlen); [by left|].
    unfold map_at. rewrite Hcol. cbn [mbind outcome_bind].
    rewrite filter_loop_select by lia. cbn [mbind outcome_bind].
    destruct (IH (<[c0:=filtered_column mask c0 col]> dst)) as (dst' & Hrun & Hdst').
    { intros c Hc. apply Hcols. by right. }
    exists dst'. split; [exact Hrun|]. intros c. rewrite Hdst'.
    destruct (decide (c ∈ cols)) as [Hin|Hnin].
    + rewrite decide_True by (by right). done.
    + destruct (decide (c = c0)) as [->|Hne].
      * rewrite decide_True by (by left). rewrite lookup_insert_eq, Hcol. done.
      * rewrite lookup_insert_ne by done.
        rewrite decide_False; [done|]. intros [?|?]%elem_of_cons; done.
Qed.

Lemma data_rows_inv df : table_inv df → data_rows df = Z.of_nat (row_count df).
Proof.
  intros [Hh Hs _]. unfold data_rows, row_count, size_t_wrap.
  destruct (row_data df) as [|r rs]; [done|]. cbn [length pred] in *.
  rewrite Z.mod_small; lia.
Qed.

Lemma data_rows_range df : 0 ≤ data_rows df < 2 ^ 64.
Proof. unfold data_rows, size_t_wrap. apply Z.mod_pos_bound. lia. Qed.

Lemma DataFrame_filter_mismatch (T : DataFrame) (m : list bool) :
  Z.of_nat (length m) ≠ data_rows T → DataFrame_filter T m = Throw out_of_range.
Proof.
  intros Hne. unfold DataFrame_filter.
  by destruct (Z.eqb_spec (Z.of_nat (length m)) (data_rows T)).
Qed.

(** The filtered table, member by member.  Its row buffer is the copy made
    by the copy constructor with the header and the kept rows pushed after
    it. *)
Lemma DataFrame_filter_ok (T : DataFrame) (m : list bool) :
  table_inv T → length m = row_count T →
  ∃ F, DataFrame_filter T m = Ok F ∧
    columns F = columns T ∧
    (length (row_data F) = length (row_data T) + 1 + count_true m)%nat ∧
    ∀ c, col_data F !! c =
         if decide (c ∈ columns T) then filtered_column m c <$> col_data T !! c
         else col_data T !! c.
Proof.
  intros Hinv Hlen. pose proof (data_rows_inv T Hinv) as Hrows.
  unfold DataFrame_filter. rewrite Hrows, Hlen, Z.eqb_refl, Nat2Z.id.
  cbn [negb]. destruct Hinv as [Hh Hs Hc].
  destruct (row_data T) as [|header rows] eqn:Hrd; [done|].
  unfold vec_index at 1. cbn [lookup list_lookup mbind outcome_bind].
  assert (Hrc : row_count T = length rows) by (unfold row_count; by rewrite Hrd).
  rewrite <- Hlen. rewrite filter_loop_ok by (cbn [length]; lia).
  cbn [mbind outcome_bind].
  destruct (filter_columns_ok (col_data T) m (columns T) (col_data T)) as (cols & Hrun & Hcols).
  { intros c Hin. destruct (Hc c Hin) as (col & ? & ?). exists col. split; [done|lia]. }
  rewrite Hrun. cbn [mbind outcome_bind]. eexists. split; [done|].
  cbn [row_data col_data columns]. split; [done|]. split; [|exact Hcols].
  rewrite drop_0. rewrite !length_app. cbn [length].
  assert (length (omap (λ p, (header :: rows) !! (p + 1)%nat) (kept_from 0 m))
          = count_true m) as ->; [|lia].
  rewrite <- (select_length m rows) by lia. unfold select, kept. f_equal.
  induction (kept_from 0 m) as [|p l IH]; [done|].
  cbn [omap list_omap]. rewrite IH. by rewrite Nat.add_1_r.
Qed.

(** [DataFrame::operator[](mask)]: a mask whose length differs from the
    number of data rows is rejected with [std::out_of_range]; on a table that
    satisfies the representation invariant, a mask of the right length gives
    a table with the same [columns] in which every listed column keeps its
    name and dtype, has as many values as the mask has [true] entries, and
    holds at position [j] the source column's value at the [j]-th kept
    position.  The operator reads its receiver and writes only the new
    object, so the source table is the same value before and after. *)
Theorem DataFrame_filter_correct (T : DataFrame) (m : list bool) :
  (Z.of_nat (length m) ≠ data_rows T → DataFrame_filter T m = Throw out_of_range) ∧
  (table_inv T → length m = row_count T →
   ∃ F, DataFrame_filter T m = Ok F ∧
     columns F = columns T ∧
     ∀ c, c ∈ columns T →
       ∃ src dst, col_data T !! c = Some src ∧ col_data F !! c = Some dst ∧
         name dst = c ∧ dtype dst = dtype src ∧
         length (data dst) = count_true m ∧
         ∀ j i, kept m !! j = Some i → data dst !! j = data src !! i).
Proof.
  split; [apply DataFrame_filter_mismatch|].
  intros Hinv Hlen.
  destruct (DataFrame_filter_ok T m Hinv Hlen) as (F & HF & Hcs & _ & Hcols).
  exists F. split; [done|]. split; [done|]. intros c Hin.
  destruct (inv_columns T Hinv c Hin) as (src & Hsrc & Hsl).
  exists src, (filtered_column m c src). split; [done|]. split.
  { rewrite Hcols. rewrite decide_True by done. by rewrite Hsrc. }
  cbn [filtered_column name dtype data]. split; [done|]. split; [done|]. split.
  - apply select_length. lia.
  - intros j i Hj. apply select_lookup; [lia|done].
Qed.

(** Filtering the result of a filter again, with a mask that has one entry
    per row of the filtered columns, is always rejected: the filtered
    table's row buffer is longer than its columns. *)
Lemma DataFrame_refilter_rejected (T F : DataFrame) (m m' : list bool) :
  table_inv T → length m = row_count T →
  DataFrame_filter T m = Ok F → length m' = count_true m →
  DataFrame_filter F m' = Throw out_of_range.
Proof.
  intros Hinv Hlen HF Hm'.
  destruct (DataFrame_filter_ok T m Hinv Hlen) as (F' & HF' & _ & Hrows & _).
  rewrite HF in HF'. injection HF' as <-.
  apply DataFrame_filter_mismatch.
  unfold data_rows, size_t_wrap. rewrite Hrows, Hm'.
  destruct Hinv as [Hh Hs _].
  assert (0 < length (row_data T))%nat by (destruct (row_data T); [done|cbn; lia]).
  assert (Hk : (count_true m ≤ length m)%nat) by (unfold count_true; apply length_filter).
  unfold row_count in Hlen.
  intros Heq.
  assert (Hmod : (Z.of_nat (length (row_data T) + 1 + count_true m) - 1
                  - Z.of_nat (count_true m)) `mod` 2 ^ 64 = 0).
  { rewrite Zminus_mod, <- Heq, Zminus_mod_idemp_r, Z.sub_diag. done. }
  replace (Z.of_nat (length (row_data T) + 1 + count_true m) - 1 - Z.of_nat (count_true m))
    with (Z.of_nat (length (row_data T))) in Hmod by lia.
  rewrite Z.mod_small in Hmod by lia. lia.
Qed.

Lemma DataFrame_filter_correct_witness :
  ∃ F, DataFrame_filter t_table [true; false; true] = Ok F ∧
    columns F = columns t_table ∧
    ∀ c, c ∈ columns t_table →
      ∃ src dst, col_data t_table !! c = Some src ∧ col_data F !! c = Some dst ∧
        name dst = c ∧ dtype dst = dtype src ∧
        length (data dst) = count_true [true; false; true] ∧
        ∀ j i, kept [true; false; true] !! j = Some i → data dst !! j = data src !! i.
Proof.
  apply (proj2 (DataFrame_filter_correct t_table [true; false; true])).
  - exact t_table_inv.
  - reflexivity.
Defined.

(** C3. Filtering [t.csv] with the mask [true, false, true] succeeds and
    leaves columns of two values; filtering the result again with the
    all-true mask of length two throws [std::out_of_range], because the
    row buffer of the filtered table holds the four copied rows, the header
    again and the two kept rows. *)
Theorem DataFrame_refilter_all_true_throws :
  ∃ F, DataFrame_filter t_table [true; false; true] = Ok F ∧
    (∀ c, c ∈ columns F → ∃ col, col_data F !! c = Some col ∧ length (data col) = 2%nat) ∧
    length (row_data F) = 7%nat ∧
    DataFrame_filter F [true; true] = Throw out_of_range.
Proof.
  destruct (DataFrame_filter_ok t_table [true; false; true] t_table_inv eq_refl)
    as (F & HF & Hcs & Hrows & Hcols).
  exists F. split; [done|]. split; [|split].
  - intros c Hc. rewrite Hcs in Hc. rewrite Hcols, decide_True by done.
    destruct (inv_columns _ t_table_inv c Hc) as (src & -> & Hl).
    eexists. split; [done|]. cbn [filtered_column data]. by rewrite select_length by (rewrite Hl; done).
  - exact Hrows.
  - by apply (DataFrame_refilter_rejected t_table F [true; false; true] [true; true] t_table_inv).
Qed.

(** C1. The filtered table is not a table the operator can filter.
    Filtering [t.csv] with the mask [true, false, true], which has two
    [true] entries, gives columns of two values, but a row buffer that
    holds the four rows of the source, the header again and the two kept
    rows: by the operator's own count, [row_data.size() - 1], the result
    has six data rows, and it does not satisfy the representation
    invariant.  Applied to that result, a mask of six entries, the
    length the operator asks for, does not return a table: the loop over
    the columns reads [data[2]] of a column of two values, undefined
    behaviour. *)
Theorem DataFrame_filter_result_row_buffer :
  count_true [true; false; true] = 2%nat ∧
  ∃ F, DataFrame_filter t_table [true; false; true] = Ok F ∧
    row_data F = [["x"; "y"; "z"]; ["1"; "a"; "2.5"]; ["2"; "b"; ""]; [""; "c"; "1"];
                  ["x"; "y"; "z"]; ["1"; "a"; "2.5"]; [""; "c"; "1"]] ∧
    data_rows F = 6 ∧
    (∀ c, c ∈ columns F → ∃ col, col_data F !! c = Some col ∧ length (data col) = 2%nat) ∧
    ¬ table_inv F ∧
    DataFrame_filter F (replicate 6 true) = Undefined.
Proof.
  split; [reflexivity|].
  eexists. split; [vm_compute; reflexivity|].
  split; [reflexivity|]. split; [reflexivity|]. split; [|split].
  - intros c Hc. cbn [columns t_table] in Hc.
    repeat (apply elem_of_cons in Hc as [->|Hc];
            [eexists; split; [vm_compute; reflexivity|reflexivity]|]).
    by apply elem_of_nil in Hc.
  - intros Hinv. destruct (inv_columns _ Hinv "x") as (col & Hcol & Hlen); [by left|].
    vm_compute in Hcol. injection Hcol as <-. vm_compute in Hlen. discriminate Hlen.
  - vm_compute. reflexivity.
Qed.

(** * [std::stoi]: what [is_integer] accepts *)

Lemma append_String (c : ascii) (r t : string) : String c r +:+ t = String c (r +:+ t).
Proof. reflexivity. Qed.

Lemma append_length (s t : string) :
  String.length (s +:+ t) = (String.length s + String.length t)%nat.
Proof.
  induction s as [|c r IH]; [done|]. rewrite append_String. cbn [String.length]. lia.
Qed.

Lemma skip_space_length (s : string) :
  String.length s = (fst (skip_space s) + String.length (snd (skip_space s)))%nat.
Proof.
  induction s as [|c r IH]; [done|]. cbn [skip_space].
  destruct (isspace c); [|done].
  destruct (skip_space r) as [n t]. cbn [fst snd String.length] in *. lia.
Qed.

Lemma skip_space_app (s t : string) :
  snd (skip_space s) ≠ "" →
  skip_space (s +:+ t) = (fst (skip_space s), snd (skip_space s) +:+ t).
Proof.
  induction s as [|c r IH]; [by intros []|].
  rewrite append_String. cbn [skip_space].
  destruct (isspace c); [|done].
  destruct (skip_space r) as [n u] eqn:Hr. cbn [fst snd] in *.
  intros Hne. by rewrite IH.
Qed.

Lemma read_sign_length (s : string) :
  String.length s = (snd (fst (read_sign s)) + String.length (snd (read_sign s)))%nat.
Proof.
  destruct s as [|c r]; [done|]. unfold read_sign.
  destruct (Ascii.eqb_spec c "-") as [->|Hm]; [done|].
  destruct (Ascii.eqb_spec c "+") as [->|Hp]; [done|].
  destruct c as [[] [] [] [] [] [] [] []]; done.
Qed.

Lemma read_sign_app (s t : string) :
  s ≠ "" →
  read_sign (s +:+ t) = (fst (read_sign s), snd (read_sign s) +:+ t).
Proof.
  destruct s as [|c r]; [done|]. intros _. rewrite append_String. unfold read_sign.
  destruct c as [[] [] [] [] [] [] [] []]; done.
Qed.

Lemma read_digits_length (s : string) (acc : Z) :
  String.length s
  = (snd (fst (read_digits s acc)) + String.length (snd (read_digits s acc)))%nat.
Proof.
  revert acc. induction s as [|c r IH]; intros acc; [done|]. cbn [read_digits].
  destruct (digit_of c) as [d|]; [|done].
  specialize (IH (10 * acc + d)). destruct (read_digits r (10 * acc + d)) as [[v n] t].
  cbn [fst snd String.length] in *. lia.
Qed.

(** Digits followed by a character that is not a digit: the run of digits
    ends there. *)
Lemma read_digits_app (s : string) (c : ascii) (t : string) (acc : Z) :
  snd (read_digits s acc) = "" → digit_of c = None →
  read_digits (s +:+ String c t) acc
  = (fst (fst (read_digits s acc)), snd (fst (read_digits s acc)), String c t).
Proof.
  revert acc. induction s as [|a r IH]; intros acc Hend Hc.
  - change ("" +:+ String c t) with (String c t). cbn [read_digits]. by rewrite Hc.
  - cbn [read_digits] in Hend. rewrite append_String.
    cbn [read_digits]. destruct (digit_of a) as [d|]; [|done].
    specialize (IH (10 * acc + d)).
    destruct (read_digits r (10 * acc + d)) as [[v n] u] eqn:Hr.
    cbn [fst snd] in *. by rewrite IH.
Qed.

(** [is_integer] and the position [stoi] reports. *)
Lemma is_integer_stoi (s : string) :
  is_integer s = true ↔ ∃ v, stoi s = Ok (v, String.length s).
Proof.
  unfold is_integer. destruct (stoi s) as [[v pos]| |]; split.
  - intros ->%Nat.eqb_eq. by exists v.
  - intros [v' [= _ ->]]. apply Nat.eqb_refl.
  - done.
  - by intros [v' ?].
  - done.
  - by intros [v' ?].
Qed.

(** Trailing garbage disqualifies: a string that [is_integer] accepts is no
    longer accepted when anything that does not start with a digit is
    appended. *)
Lemma is_integer_trailing (s : string) (c : ascii) (t : string) :
  is_integer s = true → digit_of c = None → is_integer (s +:+ String c t) = false.
Proof.
  intros Hs Hc. unfold is_integer in *. unfold stoi in *.
  pose proof (skip_space_length s) as Hl1.
  pose proof (skip_space_app s (String c t)) as Ha1.
  destruct (skip_space s) as [nws s1]. cbn [fst snd] in *.
  pose proof (read_sign_length s1) as Hl2.
  pose proof (read_sign_app s1 (String c t)) as Ha2.
  destruct (read_sign s1) as [[neg nsg] s2]. cbn [fst snd] in *.
  pose proof (read_digits_length s2 0) as Hl3.
  pose proof (read_digits_app s2 c t 0) as Ha3.
  destruct (read_digits s2 0) as [[v nd] rest]. cbn [fst snd] in *.
  destruct (nd =? 0)%nat eqn:Hnd; [done|]. apply Nat.eqb_neq in Hnd.
  destruct ((_ <? INT_MIN) || (INT_MAX <? _)) eqn:Hrange; [done|].
  apply Nat.eqb_eq in Hs.
  assert (Hrest : rest = "") by (destruct rest; [done|cbn [String.length] in *; lia]).
  subst rest.
  assert (Hs2 : s2 ≠ "") by (destruct s2; [cbn in Hl3; lia|done]).
  assert (Hs1 : s1 ≠ "").
  { intros ->. destruct s2; [done|]. cbn [String.length] in Hl2. lia. }
  rewrite Ha1 by done. rewrite Ha2 by done. rewrite Ha3 by done.
  apply Nat.eqb_neq in Hnd. rewrite Hnd, Hrange.
  apply Nat.eqb_neq. rewrite append_length. cbn [String.length]. lia.
Qed.

(** ** [to_string(int)] is read back by [stoi] *)

Definition digit_char (d : N) : ascii := ascii_of_N (48 + d).

Lemma digit_of_digit_char (d : N) : (d < 10)%N → digit_of (digit_char d) = Some (Z.of_N d).
Proof.
  intros Hd. assert (Hcases : d ∈ [0; 1; 2; 3; 4; 5; 6; 7; 8; 9]%N).
  { destruct d as [|p]; [by left|].
    do 10 (destruct p as [p|p|]; try lia; try (cbn; set_solver)). }
  repeat (apply elem_of_cons in Hcases as [->|Hcases]; [reflexivity|]).
  by apply elem_of_nil in Hcases.
Qed.

Lemma isspace_digit_char (d : N) : (d < 10)%N → isspace (digit_char d) = false.
Proof.
  intros Hd. assert (Hcases : d ∈ [0; 1; 2; 3; 4; 5; 6; 7; 8; 9]%N).
  { destruct d as [|p]; [by left|].
    do 10 (destruct p as [p|p|]; try lia; try (cbn; set_solver)). }
  repeat (apply elem_of_cons in Hcases as [->|Hcases]; [reflexivity|]).
  by apply elem_of_nil in Hcases.
Qed.

Lemma read_sign_digit_char (d : N) (r : string) :
  (d < 10)%N → read_sign (String (digit_char d) r) = (false, O, String (digit_char d) r).
Proof.
  intros Hd. assert (Hcases : d ∈ [0; 1; 2; 3; 4; 5; 6; 7; 8; 9]%N).
  { destruct d as [|p]; [by left|].
    do 10 (destruct p as [p|p|]; try lia; try (cbn; set_solver)). }
  repeat (apply elem_of_cons in Hcases as [->|Hcases]; [reflexivity|]).
  by apply elem_of_nil in Hcases.
Qed.

(** The text [dec_digits] produces starts with a digit. *)
Lemma dec_digits_head (fuel : nat) (n : N) (acc : string) :
  ∃ d r, (d < 10)%N ∧ dec_digits (S fuel) n acc = String (digit_char d) r.
Proof.
  revert n acc. induction fuel as [|fuel IH]; intros n acc.
  - cbn [dec_digits]. exists (n `mod` 10)%N, acc.
    split; [apply N.mod_lt; lia|]. by destruct (n <? 10)%N.
  - change (dec_digits (S (S fuel)) n acc)
      with (if (n <? 10)%N then String (digit_char (n `mod` 10)) acc
            else dec_digits (S fuel) (n / 10)%N (String (digit_char (n `mod` 10)) acc)).
    destruct (n <? 10)%N; [|apply IH].
    exists (n `mod` 10)%N, acc. split; [apply N.mod_lt; lia|done].
Qed.

(** Reading the digits of [n] back, in front of more digits. *)
Lemma read_digits_dec_digits (fuel : nat) (n : N) (acc : string) :
  (n < 2 ^ N.of_nat fuel)%N →
  ∃ k : nat, ∀ a : Z,
    read_digits (dec_digits fuel n acc) a
    = (fst (fst (read_digits acc (a * 10 ^ Z.of_nat k + Z.of_N n))),
       (k + snd (fst (read_digits acc (a * 10 ^ Z.of_nat k + Z.of_N n))))%nat,
       snd (read_digits acc (a * 10 ^ Z.of_nat k + Z.of_N n))).
Proof.
  revert n acc. induction fuel as [|fuel IH]; intros n acc Hn.
  - assert (n = 0%N) as -> by (cbn in Hn; lia). exists O. intros a. cbn [dec_digits].
    replace (a * 10 ^ Z.of_nat 0 + Z.of_N 0) with a by (cbn; lia).
    by destruct (read_digits acc a) as [[v m] t].
  - cbn [dec_digits]. fold (digit_char (n `mod` 10)).
    assert (Hd : (n `mod` 10 < 10)%N) by (apply N.mod_lt; lia).
    destruct (N.ltb_spec n 10) as [Hsmall|Hbig].
    + exists 1%nat. intros a. cbn [read_digits].
      rewrite digit_of_digit_char by done. rewrite N.mod_small by done.
      replace (a * 10 ^ Z.of_nat 1 + Z.of_N n) with (10 * a + Z.of_N n) by lia.
      by destruct (read_digits acc (10 * a + Z.of_N n)) as [[v m] t].
    + destruct (IH (n / 10)%N (String (digit_char (n `mod` 10)) acc)) as [k Hk].
      { rewrite Nat2N.inj_succ, N.pow_succ_r' in Hn.
        apply N.Div0.div_lt_upper_bound. lia. }
      exists (S k). intros a. rewrite Hk. cbn [read_digits].
      rewrite digit_of_digit_char by done.
      replace (10 * (a * 10 ^ Z.of_nat k + Z.of_N (n / 10)) + Z.of_N (n `mod` 10))
        with (a * 10 ^ Z.of_nat (S k) + Z.of_N n).
      * destruct (read_digits acc _) as [[v m] t]. cbn [fst snd]. do 2 f_equal. lia.
      * rewrite Nat2Z.inj_succ, Z.pow_succ_r by lia.
        rewrite (N.div_mod n 10) at 1 by lia.
        rewrite N2Z.inj_add, N2Z.inj_mul. change (Z.of_N 10) with 10. lia.
Qed.

Lemma log2_fuel (n : N) : (n < 2 ^ N.of_nat (S (N.to_nat (N.log2 n))))%N.
Proof.
  rewrite Nat2N.inj_succ, N2Nat.id.
  destruct n as [|p]; [done|]. apply N.log2_spec. lia.
Qed.

Lemma stoi_N_to_string (n : N) :
  ∃ k : nat, read_digits (N_to_string n) 0 = (Z.of_N n, k, "") ∧
    String.length (N_to_string n) = k ∧ k ≠ O ∧
    skip_space (N_to_string n) = (O, N_to_string n) ∧
    read_sign (N_to_string n) = (false, O, N_to_string n).
Proof.
  unfold N_to_string.
  destruct (read_digits_dec_digits (S (N.to_nat (N.log2 n))) n "" (log2_fuel n)) as [k Hk].
  destruct (dec_digits_head (N.to_nat (N.log2 n)) n "") as (d & r & Hd & Hhead).
  specialize (Hk 0). cbn [read_digits fst snd] in Hk.
  rewrite Z.mul_0_l, Z.add_0_l, Nat.add_0_r in Hk.
  exists k. split; [done|].
  pose proof (read_digits_length (dec_digits (S (N.to_nat (N.log2 n))) n "") 0) as Hlen.
  rewrite Hk in Hlen. cbn [fst snd String.length] in Hlen.
  split; [lia|]. split.
  - intros ->. rewrite Hhead in Hlen. cbn [String.length] in Hlen. lia.
  - rewrite Hhead. split.
    + cbn [skip_space]. by rewrite isspace_digit_char.
    + by apply read_sign_digit_char.
Qed.

(** [std::to_string(int)] of a value in range is accepted by [is_integer]. *)
Lemma is_integer_to_string_int (z : Z) :
  INT_MIN ≤ z ≤ INT_MAX → is_integer (to_string_int z) = true.
Proof.
  intros Hz. apply is_integer_stoi. exists z. unfold to_string_int.
  destruct z as [|p|p].
  - reflexivity.
  - destruct (stoi_N_to_string (Z.to_N (Z.pos p))) as (k & Hrd & Hlen & Hk & Hsp & Hsg).
    unfold stoi. rewrite Hsp, Hsg, Hrd.
    rewrite (proj2 (Nat.eqb_neq k 0)) by done.
    rewrite Z2N.id by lia.
    replace ((Z.pos p <? INT_MIN) || (INT_MAX <? Z.pos p)) with false.
    + by rewrite Hlen.
    + symmetry. apply orb_false_iff. split; [apply Z.ltb_ge|apply Z.ltb_ge]; lia.
  - destruct (stoi_N_to_string (N.pos p)) as (k & Hrd & Hlen & Hk & Hsp & Hsg).
    unfold stoi. cbn [skip_space]. change (isspace "-") with false. cbv iota.
    cbn [read_sign]. rewrite Hrd.
    rewrite (proj2 (Nat.eqb_neq k 0)) by done.
    change (Z.of_N (N.pos p)) with (Z.pos p).
    replace ((- Z.pos p <? INT_MIN) || (INT_MAX <? - Z.pos p)) with false.
    + cbn [String.length]. by rewrite Hlen.
    + symmetry. apply orb_false_iff. split; [apply Z.ltb_ge|apply Z.ltb_ge]; lia.
Qed.

(** * Type inference *)

Section Infer.
Context `{StdLib}.

Lemma missing_iff (v : string) : missing v = true ↔ v = "".
Proof. destruct v; cbn; split; intros; done. Qed.

Lemma forallb_all (p : string → bool) (elements : list string) :
  forallb (λ v, missing v || p v) elements = true ↔
  ∀ v, v ∈ elements → missing v = false → p v = true.
Proof.
  rewrite forallb_forall. split.
  - intros Hall v Hv Hm. apply list_elem_of_In, Hall in Hv. rewrite Hm in Hv. done.
  - intros Hall v Hv%list_elem_of_In. destruct (missing v) eqn:Hm; [done|]. by apply Hall.
Qed.

(** The flags at the end of the loop, the [break] included. *)
Lemma infer_loop_flags (elements : list string) (all_int all_float : bool) :
  infer_loop elements all_int all_float
  = (all_int && forallb (λ v, missing v || is_integer v) elements,
     all_float && forallb (λ v, missing v || is_float v) elements).
Proof.
  revert all_int all_float.
  induction elements as [|element rest IH]; intros all_int all_float; cbn [infer_loop forallb].
  - by rewrite !andb_true_r.
  - destruct (missing element); cbn [orb andb]; [apply IH|].
    destruct (is_integer element), (is_float element); cbn [negb andb];
      rewrite ?andb_false_r; cbn [negb andb];
      try (destruct all_int, all_float; cbn [negb andb]; rewrite ?IH; done).
Qed.

Lemma infer_dtype_cases (elements : list string) :
  infer_dtype elements =
    if forallb (λ v, missing v || is_integer v) elements then "int"
    else if forallb (λ v, missing v || is_float v) elements then "float"
    else "string".
Proof. unfold infer_dtype. rewrite infer_loop_flags. done. Qed.

Lemma infer_dtype_spec (elements : list string) :
  (infer_dtype elements = "int" ↔ all_integer elements) ∧
  (infer_dtype elements = "float" ↔ ¬ all_integer elements ∧ all_float elements) ∧
  (infer_dtype elements = "string" ↔ ¬ all_integer elements ∧ ¬ all_float elements).
Proof.
  rewrite infer_dtype_cases. unfold all_integer, all_float.
  rewrite <- !forallb_all.
  destruct (forallb (λ v, missing v || is_integer v) elements),
           (forallb (λ v, missing v || is_float v) elements);
    repeat split; try done; try (intros [? ?]; done); try (intros ?; split; done).
Qed.

Lemma is_integer_1 : is_integer "1" = true.
Proof. reflexivity. Qed.

Lemma infer_dtype_1 : infer_dtype ["1"] = "int".
Proof. rewrite infer_dtype_cases. cbn [forallb]. by rewrite is_integer_1. Qed.

Lemma infer_dtype_all_missing (elements : list string) :
  all_missing elements → infer_dtype elements = "int".
Proof.
  intros Hall. apply infer_dtype_spec. intros v Hv Hm.
  apply Hall in Hv. subst v. done.
Qed.

(** Every column stored by the constructor carries the dtype inferred
    from its own values. *)
Lemma foldl_insert_lookup (cols : list Column) (m : gmap string Column) c col
    (P : Column → Prop) :
  (∀ x, x ∈ cols → P x) → (∀ k x, m !! k = Some x → P x) →
  foldl (λ m col, <[name col := col]> m) m cols !! c = Some col → P col.
Proof.
  revert m. induction cols as [|x cols IH]; intros m Hcols Hm; cbn [foldl].
  - apply Hm.
  - apply IH.
    + intros y Hy. apply Hcols. by right.
    + intros k y. destruct (decide (name x = k)) as [<-|Hne].
      * rewrite lookup_insert_eq. intros [= <-]. apply Hcols. by left.
      * rewrite lookup_insert_ne by done. apply Hm.
Qed.

Lemma DataFrame_read_dtype path file df c col :
  DataFrame_read path file = Ok df → col_data df !! c = Some col →
  dtype col = infer_dtype (data col).
Proof.
  unfold DataFrame_read. destruct file as [[|first lines]|]; [|  |done].
  - intros [= <-]. cbn [col_data]. by rewrite lookup_empty.
  - destruct (read_rows _ _ _) as [[temp_data rows]| |]; [|done|done].
    cbn [mbind outcome_bind]. intros [= <-]. cbn [col_data].
    apply (foldl_insert_lookup _ _ _ _ (λ x, dtype x = infer_dtype (data x))).
    + intros x [y [-> _]]%list_elem_of_fmap. done.
    + intros k x. by rewrite lookup_empty.
Qed.
End Infer.

(** C2. For every column stored by the ingesting constructor: the dtype is
    ["int"] exactly when every non-missing value is accepted by
    [is_integer], ["float"] exactly when that fails and every non-missing
    value is accepted by [is_float], and ["string"] exactly when both fail.
    [is_integer] and [is_float] accept a value only when the conversion
    consumes the whole string, and a string that [is_integer] accepts is
    rejected once anything not starting with a digit is appended.  The
    integer test has precedence: a column holding just ["1"] is ["int"]. *)
Theorem ingest_dtype_spec `{StdLib} (path : string) (file : option (list string))
    (df : DataFrame) (c : string) (col : Column) :
  DataFrame_read path file = Ok df → col_data df !! c = Some col →
  (dtype col = "int" ↔ all_integer (data col)) ∧
  (dtype col = "float" ↔ ¬ all_integer (data col) ∧ all_float (data col)) ∧
  (dtype col = "string" ↔ ¬ all_integer (data col) ∧ ¬ all_float (data col)) ∧
  (∀ s, is_integer s = true → ∃ v, stoi s = Ok (v, String.length s)) ∧
  (∀ s c t, is_integer s = true → digit_of c = None →
            is_integer (s +:+ String c t) = false) ∧
  (∀ s, is_float s = true → ∃ v, stod s = Ok (v, String.length s)) ∧
  is_integer "1" = true ∧ infer_dtype ["1"] = "int".
Proof.
  intros Hread Hcol. rewrite (DataFrame_read_dtype _ _ _ _ _ Hread Hcol).
  destruct (infer_dtype_spec (data col)) as (Hi & Hf & Hs).
  split; [done|]. split; [done|]. split; [done|]. split; [|split; [|split]].
  - intros s. apply is_integer_stoi.
  - apply is_integer_trailing.
  - intros s. unfold is_float. destruct (stod s) as [[v pos]| |]; [|done|done].
    intros ->%Nat.eqb_eq. by exists v.
  - split; [reflexivity|apply infer_dtype_1].
Qed.

Lemma ingest_dtype_spec_witness :
  (dtype {| name := "z"; data := ["2.5"; ""; "1"]; dtype := "float" |} = "int"
   ↔ all_integer ["2.5"; ""; "1"]) ∧
  (dtype {| name := "z"; data := ["2.5"; ""; "1"]; dtype := "float" |} = "float"
   ↔ ¬ all_integer ["2.5"; ""; "1"] ∧ all_float (H := Binary64.lib) ["2.5"; ""; "1"]) ∧
  (dtype {| name := "z"; data := ["2.5"; ""; "1"]; dtype := "float" |} = "string"
   ↔ ¬ all_integer ["2.5"; ""; "1"] ∧ ¬ all_float (H := Binary64.lib) ["2.5"; ""; "1"]) ∧
  (∀ s, is_integer s = true → ∃ v, stoi s = Ok (v, String.length s)) ∧
  (∀ s c t, is_integer s = true → digit_of c = None →
            is_integer (s +:+ String c t) = false) ∧
  (∀ s, is_float (H := Binary64.lib) s = true → ∃ v, stod s = Ok (v, String.length s)) ∧
  is_integer "1" = true ∧ infer_dtype (H := Binary64.lib) ["1"] = "int".
Proof.
  apply (ingest_dtype_spec (H := Binary64.lib) "t.csv" (Some t_csv) t_table "z").
  - exact t_table_read.
  - reflexivity.
Defined.

(** C7, as the code has it.  A column all of whose values are missing (a
    column without rows included) is stored with dtype ["int"]: both flags
    start [true] and only a non-missing value can clear one. *)
Theorem ingest_all_missing_int `{StdLib} (path : string) (file : option (list string))
    (df : DataFrame) (c : string) (col : Column) :
  DataFrame_read path file = Ok df → col_data df !! c = Some col →
  all_missing (data col) → dtype col = "int".
Proof.
  intros Hread Hcol Hall. rewrite (DataFrame_read_dtype _ _ _ _ _ Hread Hcol).
  by apply infer_dtype_all_missing.
Qed.

Lemma ingest_all_missing_int_witness :
  dtype {| name := "y"; data := [""; ""]; dtype := "int" |} = "int".
Proof.
  apply (ingest_all_missing_int (H := Binary64.lib) "u.csv" (Some u_csv) u_table "y").
  - exact u_table_read.
  - reflexivity.
  - intros v Hv. cbn in Hv.
    repeat (apply elem_of_cons in Hv as [->|Hv]; [reflexivity|]).
    by apply elem_of_nil in Hv.
Defined.

(** The all-missing column [y] of [u.csv] is not given dtype ["string"]. *)
Lemma ingest_all_missing_not_string :
  ∃ df col, DataFrame_read (H := Binary64.lib) "u.csv" (Some u_csv) = Ok df ∧
    col_data df !! "y" = Some col ∧ all_missing (data col) ∧ dtype col ≠ "string".
Proof.
  exists u_table, {| name := "y"; data := [""; ""]; dtype := "int" |}.
  split; [exact u_table_read|]. split; [reflexivity|]. split; [|discriminate].
  intros v Hv. cbn in Hv.
  repeat (apply elem_of_cons in Hv as [->|Hv]; [reflexivity|]).
  by apply elem_of_nil in Hv.
Qed.

(** * Comparison operators *)

Section CompareDouble.
Context `{StdLib}.

Lemma compare_cell_missing (cmp : double → bool) : compare_cell cmp "" = false.
Proof. reflexivity. Qed.

(** On a column whose dtype is not ["string"], an operator against a
    [double] key returns one entry per row, [false] at a missing row. *)
Lemma compare_double_missing (cmp : double → double → bool) (c : Column) (key : double) :
  dtype c ≠ "string" →
  ∃ mask, compare_double cmp c key = Ok mask ∧ length mask = length (data c) ∧
    ∀ i, data c !! i = Some "" → mask !! i = Some false.
Proof.
  intros Hd. unfold compare_double. rewrite bool_decide_eq_false_2 by done.
  eexists. split; [done|]. split; [by rewrite length_fmap|].
  intros i Hi. rewrite list_lookup_fmap, Hi. done.
Qed.

Lemma compare_double_string (cmp : double → double → bool) (c : Column) (key : double) :
  dtype c = "string" → compare_double cmp c key = Throw runtime_error.
Proof. intros Hd. unfold compare_double. by rewrite bool_decide_eq_true_2. Qed.
End CompareDouble.

Lemma compare_string_ok (cmp : string → string → bool) (c : Column) (key : string) :
  dtype c ≠ "int" → dtype c ≠ "float" →
  compare_string cmp c key = Ok ((λ element, cmp element key) <$> data c).
Proof.
  intros Hi Hf. unfold compare_string.
  by rewrite !bool_decide_eq_false_2 by done.
Qed.

(** C4, as the code has it.  At a row whose value is the empty string, each
    of the six operators against a [double] key yields [false], whatever
    the key (on a column of any dtype but ["string"], where they throw);
    the six operators against a [std::string] key compare the empty string
    with the key like any other value: [==] and [>=] yield [true] exactly
    for the empty key, [!=] and [<] exactly for a non-empty key, [<=]
    always, [>] never. *)
Theorem compare_missing_row `{StdLib} (c : Column) (i : nat) :
  data c !! i = Some "" →
  (dtype c ≠ "string" → ∀ key : double,
     ∀ op, op ∈ [Column_eq; Column_ne; Column_lt; Column_gt; Column_le; Column_ge] →
       ∃ mask, op c key = Ok mask ∧ mask !! i = Some false) ∧
  (dtype c ≠ "int" → dtype c ≠ "float" → ∀ key : string,
     ∃ m_eq m_ne m_lt m_gt m_le m_ge,
       Column_eq_str c key = Ok m_eq ∧ m_eq !! i = Some (String.eqb key "") ∧
       Column_ne_str c key = Ok m_ne ∧ m_ne !! i = Some (negb (String.eqb key "")) ∧
       Column_lt_str c key = Ok m_lt ∧ m_lt !! i = Some (negb (String.eqb key "")) ∧
       Column_gt_str c key = Ok m_gt ∧ m_gt !! i = Some false ∧
       Column_le_str c key = Ok m_le ∧ m_le !! i = Some true ∧
       Column_ge_str c key = Ok m_ge ∧ m_ge !! i = Some (String.eqb key "")).
Proof.
  intros Hi. split.
  - intros Hd key op Hop.
    assert (∃ cmp, op = compare_double cmp) as [cmp ->].
    { repeat (apply elem_of_cons in Hop as [->|Hop]; [eexists; reflexivity|]).
      by apply elem_of_nil in Hop. }
    destruct (compare_double_missing cmp c key Hd) as (mask & Hm & _ & Hrow).
    exists mask. split; [done|]. by apply Hrow.
  - intros Hint Hfloat key.
    unfold Column_eq_str, Column_ne_str, Column_lt_str, Column_gt_str,
      Column_le_str, Column_ge_str.
    rewrite !compare_string_ok by done.
    do 6 eexists.
    repeat (split; [reflexivity|];
            split; [rewrite list_lookup_fmap, Hi; cbn [fmap option_fmap option_map];
                    f_equal; by destruct key|]).
    split; [reflexivity|].
    rewrite list_lookup_fmap, Hi. cbn [fmap option_fmap option_map]. by destruct key.
Qed.

Lemma compare_missing_row_witness :
  (dtype {| name := "x"; data := ["1"; ""; "3"]; dtype := "int" |} ≠ "string" →
   ∀ key : double,
     ∀ op, op ∈ [Column_eq (H := Binary64.lib); Column_ne; Column_lt; Column_gt;
                 Column_le; Column_ge] →
       ∃ mask, op {| name := "x"; data := ["1"; ""; "3"]; dtype := "int" |} key = Ok mask
               ∧ mask !! 1%nat = Some false) ∧
  (dtype {| name := "x"; data := ["1"; ""; "3"]; dtype := "int" |} ≠ "int" →
   dtype {| name := "x"; data := ["1"; ""; "3"]; dtype := "int" |} ≠ "float" →
   ∀ key : string,
     ∃ m_eq m_ne m_lt m_gt m_le m_ge,
       Column_eq_str {| name := "x"; data := ["1"; ""; "3"]; dtype := "int" |} key = Ok m_eq
       ∧ m_eq !! 1%nat = Some (String.eqb key "") ∧
       Column_ne_str {| name := "x"; data := ["1"; ""; "3"]; dtype := "int" |} key = Ok m_ne
       ∧ m_ne !! 1%nat = Some (negb (String.eqb key "")) ∧
       Column_lt_str {| name := "x"; data := ["1"; ""; "3"]; dtype := "int" |} key = Ok m_lt
       ∧ m_lt !! 1%nat = Some (negb (String.eqb key "")) ∧
       Column_gt_str {| name := "x"; data := ["1"; ""; "3"]; dtype := "int" |} key = Ok m_gt
       ∧ m_gt !! 1%nat = Some false ∧
       Column_le_str {| name := "x"; data := ["1"; ""; "3"]; dtype := "int" |} key = Ok m_le
       ∧ m_le !! 1%nat = Some true ∧
       Column_ge_str {| name := "x"; data := ["1"; ""; "3"]; dtype := "int" |} key = Ok m_ge
       ∧ m_ge !! 1%nat = Some (String.eqb key "")).
Proof.
  apply (compare_missing_row (H := Binary64.lib)
           {| name := "x"; data := ["1"; ""; "3"]; dtype := "int" |} 1).
  reflexivity.
Defined.

(** The specification's example: [x == 1.0] on the ["int"] column
    [["1"; ""; "3"]]. *)
Example Column_eq_example :
  Column_eq (H := Binary64.lib) {| name := "x"; data := ["1"; ""; "3"]; dtype := "int" |}
    1%float = Ok [true; false; false].
Proof. vm_compute. reflexivity. Qed.

(** On the ["string"] column [["a"; ""]], [!= "a"] yields [true] at the
    missing second row. *)
Lemma Column_ne_str_missing_true :
  data {| name := "y"; data := ["a"; ""]; dtype := "string" |} !! 1%nat = Some "" ∧
  Column_ne_str {| name := "y"; data := ["a"; ""]; dtype := "string" |} "a"
  = Ok [false; true].
Proof. split; reflexivity. Qed.

(** * Column statistics: [mean] *)

Section Mean.
Context `{StdLib}.

Lemma missing_false_iff (v : string) : missing v = false ↔ v ≠ "".
Proof. destruct v; cbn; split; intros; done. Qed.

Lemma present_cons_missing element rest :
  missing element = true → present (element :: rest) = present rest.
Proof.
  intros Hm. unfold present. apply filter_cons_False.
  intros Hne. apply missing_false_iff in Hne. congruence.
Qed.

Lemma present_cons_value element rest :
  missing element = false → present (element :: rest) = element :: present rest.
Proof.
  intros Hm. unfold present. apply filter_cons_True. by apply missing_false_iff.
Qed.

Lemma present_length elements : (length (present elements) ≤ length elements)%nat.
Proof. apply length_filter. Qed.

(** The loop of [mean]: the parsed values are added in row order, and the
    size is decremented once per missing element. *)
Lemma mean_loop_ok (elements : list string) (values : list double) (sum : double) (n : nat) :
  Forall2 parses (present elements) values →
  (length elements ≤ n)%nat → exact_decrement n →
  mean_loop elements sum (double_of_size n)
  = Ok (foldl dadd sum values,
        double_of_size (n - (length elements - length values))).
Proof.
  revert values sum n.
  induction elements as [|element rest IH]; intros values sum n Hval Hlen Hex;
    cbn [mean_loop].
  - apply Forall2_nil_inv_l in Hval as ->. cbn. by rewrite Nat.sub_0_r.
  - pose proof (Forall2_length _ _ _ Hval) as Hvl.
    pose proof (present_length rest) as Hpl.
    cbn [length] in Hlen. destruct (missing element) eqn:Hm.
    + rewrite present_cons_missing in Hval, Hvl by done.
      destruct n as [|n]; [lia|]. rewrite (Hex n) by lia.
      rewrite (IH values sum n Hval) by (try lia; intros j Hj; apply Hex; lia).
      do 3 f_equal. cbn [length]. lia.
    + rewrite present_cons_value in Hval, Hvl by done.
      apply Forall2_cons_inv_l in Hval as (v & values' & [pos Hv] & Hval & ->).
      rewrite Hv. cbn [mbind outcome_bind]. cbn [length] in Hvl.
      rewrite (IH values' (dadd sum v) n Hval) by (done || lia).
      cbn [foldl length]. done.
Qed.

(** A non-missing element that [stod] rejects makes the loop throw. *)
Lemma mean_loop_throws (elements : list string) (sum col_size : double) (v : string) :
  v ∈ elements → v ≠ "" → throws (stod v) → throws (mean_loop elements sum col_size).
Proof.
  revert sum col_size. induction elements as [|element rest IH]; intros sum col_size Hv Hne Hbad.
  - by apply elem_of_nil in Hv.
  - cbn [mean_loop]. destruct (missing element) eqn:Hm.
    + apply IH; [|done|done]. apply elem_of_cons in Hv as [->|Hv]; [|done].
      apply missing_false_iff in Hne. congruence.
    + unfold stod in *. destruct (stod_result element) as [e|[num pos]] eqn:He.
      * by exists e.
      * cbn [mbind outcome_bind]. apply IH; [|done|done].
        apply elem_of_cons in Hv as [->|Hv]; [|done].
        destruct Hbad as [e Hbad]. by rewrite He in Hbad.
Qed.

Lemma Column_mean_throws (c : Column) (v : string) :
  v ∈ data c → v ≠ "" → throws (stod v) → throws (Column_mean c).
Proof.
  intros Hv Hne Hbad. unfold Column_mean. destruct (numeric c); [|by exists invalid_argument].
  destruct (mean_loop_throws (data c) d0 (double_of_size (length (data c))) v Hv Hne Hbad)
    as [e ->].
  by exists e.
Qed.

Lemma Column_mean_text (c : Column) :
  numeric c = false → Column_mean c = Throw invalid_argument.
Proof. intros Hn. unfold Column_mean. by rewrite Hn. Qed.
End Mean.

(** C5. [Column::mean] on an ["int"] or ["float"] column whose non-missing
    elements convert to [values]: the result is the sum of [values] divided
    by the number of [values], not by the number of rows.  (The size is
    counted down in [double] arithmetic, which is exact for the sizes a
    column can have.)  On [["1"; "2.5"; ""]] the mean is [(1 + 2.5) / 2]. *)
Theorem Column_mean_spec `{StdLib} (c : Column) (values : list double) :
  numeric c = true →
  Forall2 parses (present (data c)) values →
  exact_decrement (length (data c)) →
  Column_mean c = Ok (ddiv (dsum values) (double_of_size (length values))) ∧
  length values = length (present (data c)).
Proof.
  intros Hnum Hval Hex. split; [|symmetry; by eapply Forall2_length].
  unfold Column_mean. rewrite Hnum.
  rewrite (mean_loop_ok _ values) by done. cbn [mbind outcome_bind].
  pose proof (Forall2_length _ _ _ Hval) as Hvl.
  pose proof (present_length (data c)) as Hpl.
  unfold dsum. do 3 f_equal. lia.
Qed.

Lemma Column_mean_spec_witness :
  Column_mean (H := Binary64.lib) {| name := "x"; data := ["1"; "2.5"; ""]; dtype := "float" |}
  = Ok 1.75%float ∧
  length [1%float; 2.5%float] = length (present ["1"; "2.5"; ""]).
Proof.
  apply (Column_mean_spec (H := Binary64.lib)
           {| name := "x"; data := ["1"; "2.5"; ""]; dtype := "float" |}
           [1%float; 2.5%float]).
  - reflexivity.
  - repeat constructor; eexists; vm_compute; reflexivity.
  - intros j Hj. cbn [data length] in Hj.
    destruct j as [|[|[|j]]]; [vm_compute; reflexivity..|lia].
Defined.

(** * [dropna] *)

Lemma with_data_id (c : Column) : with_data (λ d, d) c = c.
Proof. by destruct c. Qed.

Lemma int_index_roundtrip (i : nat) :
  Z.of_nat i < 2 ^ 31 → ptrdiff_wrap (size_t_wrap (int_wrap (Z.of_nat i))) = Z.of_nat i.
Proof.
  intros Hi. unfold ptrdiff_wrap, size_t_wrap, int_wrap.
  rewrite (Z.mod_small (Z.of_nat i + 2 ^ 31)) by lia.
  replace (Z.of_nat i + 2 ^ 31 - 2 ^ 31) with (Z.of_nat i) by lia.
  rewrite (Z.mod_small (Z.of_nat i)) by lia.
  rewrite Z.mod_small by lia. lia.
Qed.

Lemma take_delete_same {A} (d : list A) (p : nat) :
  (p < length d)%nat → take p (delete p d) = take p d.
Proof.
  intros Hp. rewrite delete_take_drop.
  rewrite take_app_le by (rewrite length_take; lia).
  rewrite take_take. f_equal. lia.
Qed.

Lemma drop_delete_same {A} (d : list A) (p : nat) :
  (p < length d)%nat → drop p (delete p d) = drop (S p) d.
Proof.
  intros Hp. rewrite delete_take_drop.
  rewrite drop_app_length'; [done|]. rewrite length_take. lia.
Qed.

Lemma erase_all_ok (p : nat) (m : gmap string Column) :
  (∀ k c, m !! k = Some c → (p < length (data c))%nat) →
  erase_all (Z.of_nat p) m = Ok (with_data (delete p) <$> m).
Proof.
  intros Hlen. unfold erase_all.
  rewrite bool_decide_eq_true_2 by lia.
  rewrite bool_decide_eq_true_2.
  - cbn [andb]. f_equal. apply map_fmap_ext. intros k c Hc.
    unfold erase_at, with_data. by rewrite Nat2Z.id.
  - intros k c Hc. apply Hlen in Hc. lia.
Qed.

(** The state of a column when the first [i] rows have been examined and
    [j] of them erased: the rows kept so far, then the rows not yet
    examined. *)
Lemma erase_rows_ok (rest : list string) (i j : nat) (m : gmap string Column) :
  (j ≤ i)%nat → Z.of_nat (i + length rest) < 2 ^ 31 →
  (∀ k c, m !! k = Some c → length (data c) = (i - j + length rest)%nat) →
  erase_rows (missing_from i rest) (Z.of_nat j) m
  = Ok (with_data (λ d, take (i - j) d ++ select (keep_mask rest) (drop (i - j) d)) <$> m).
Proof.
  revert i j m. induction rest as [|element rest IH]; intros i j m Hji Hi Hlen;
    cbn [missing_from].
  - cbn [erase_rows]. f_equal. rewrite <- (map_fmap_id m) at 1.
    apply map_fmap_ext. intros k c Hc. apply Hlen in Hc. cbn [length] in Hc.
    unfold with_data. rewrite take_ge by lia. rewrite select_nil, app_nil_r.
    by destruct c.
  - cbn [length] in Hi. destruct (missing element) eqn:Hm.
    + cbn [erase_rows]. rewrite int_index_roundtrip by lia.
      replace (Z.of_nat i - Z.of_nat j) with (Z.of_nat (i - j)) by lia.
      rewrite erase_all_ok by (intros k c Hc; apply Hlen in Hc; cbn [length] in Hc; lia).
      cbn [mbind outcome_bind]. rewrite bool_decide_eq_true_2 by (unfold INT_MAX; lia).
      replace (Z.of_nat j + 1) with (Z.of_nat (S j)) by lia.
      rewrite IH; [|lia|lia|].
      * f_equal. rewrite <- map_fmap_compose. apply map_fmap_ext. intros k c Hc.
        apply Hlen in Hc. cbn [length] in Hc.
        unfold with_data, compose. cbn [name data dtype]. f_equal.
        replace (S i - S j)%nat with (i - j)%nat by lia.
        destruct (lookup_lt_is_Some_2 (data c) (i - j)%nat) as [x Hx]; [lia|].
        rewrite take_delete_same by lia. rewrite drop_delete_same by lia.
        rewrite (drop_S _ _ _ Hx). cbn [keep_mask fmap list_fmap]. rewrite Hm.
        cbn [negb]. by rewrite select_cons.
      * intros k c [c0 [<- Hc0]]%lookup_fmap_Some. apply Hlen in Hc0.
        cbn [length] in Hc0. unfold with_data. cbn [data].
        rewrite length_delete by (apply lookup_lt_is_Some_2; lia). lia.
    + rewrite IH; [|lia|lia|].
      * f_equal. apply map_fmap_ext. intros k c Hc.
        apply Hlen in Hc. cbn [length] in Hc. unfold with_data. f_equal.
        replace (S i - j)%nat with (S (i - j)) by lia.
        destruct (lookup_lt_is_Some_2 (data c) (i - j)%nat) as [x Hx]; [lia|].
        rewrite (take_S_r _ _ _ Hx), (drop_S _ _ _ Hx).
        cbn [keep_mask fmap list_fmap]. rewrite Hm. cbn [negb].
        rewrite select_cons. by rewrite <- app_assoc.
      * intros k c Hc. apply Hlen in Hc. cbn [length] in Hc. lia.
Qed.

Lemma select_keep_mask (elements : list string) :
  select (keep_mask elements) elements = present elements.
Proof.
  induction elements as [|element rest IH]; [reflexivity|].
  unfold keep_mask. rewrite fmap_cons, select_cons. fold (keep_mask rest).
  destruct (missing element) eqn:Hm; cbn [negb].
  - rewrite present_cons_missing by done. exact IH.
  - rewrite present_cons_value by done. by rewrite IH.
Qed.

Lemma present_no_missing (elements : list string) : "" ∉ present elements.
Proof. unfold present. intros [Hne _]%list_elem_of_filter. done. Qed.

Lemma keep_mask_count (elements : list string) :
  count_true (keep_mask elements) = length (present elements).
Proof.
  rewrite <- select_keep_mask. symmetry. apply select_length.
  unfold keep_mask. by rewrite length_fmap.
Qed.

Lemma kept_from_elem (i p : nat) (mask : list bool) :
  p ∈ kept_from i mask ↔ (i ≤ p)%nat ∧ mask !! (p - i)%nat = Some true.
Proof.
  split.
  - intros [j Hj]%list_elem_of_lookup. apply kept_from_bound in Hj as [Hj1 Hj2].
    split; [lia|done].
  - revert i. induction mask as [|b mask IH]; intros i [Hle Hp]; [done|].
    destruct (decide (p = i)) as [->|Hne].
    + rewrite Nat.sub_diag in Hp. cbn in Hp. injection Hp as ->. cbn [kept_from]. by left.
    + assert (Hin : p ∈ kept_from (S i) mask).
      { apply IH. split; [lia|].
        replace (p - i)%nat with (S (p - S i)) in Hp by lia. done. }
      cbn [kept_from]. destruct b; [by right|done].
Qed.

Lemma keep_mask_kept (elements : list string) (i : nat) :
  i ∈ kept (keep_mask elements) ↔ ∃ v, elements !! i = Some v ∧ v ≠ "".
Proof.
  unfold kept. rewrite kept_from_elem, Nat.sub_0_r. unfold keep_mask.
  rewrite list_lookup_fmap. split.
  - intros [_ Hi]. destruct (elements !! i) as [v|]; [|done].
    exists v. split; [done|]. injection Hi as Hi. apply missing_false_iff.
    by destruct (missing v).
  - intros (v & -> & Hv). split; [lia|]. apply missing_false_iff in Hv.
    cbn. by rewrite Hv.
Qed.

(** C6. [dropna(col)] on a table whose columns all have as many rows as
    [col] (fewer than [2 ^ 31], the range of the [int] positions the
    function stores).  The rows kept are exactly those at which [col] is
    not empty; every column keeps its name and dtype and holds, in order,
    its values at the kept rows; all columns end with the same number of
    rows; and [col] itself is left with its non-missing values only. *)
Theorem DataFrame_dropna_spec (df : DataFrame) (col : string) (c0 : Column) :
  col_data df !! col = Some c0 →
  (∀ k c, col_data df !! k = Some c → length (data c) = length (data c0)) →
  Z.of_nat (length (data c0)) < 2 ^ 31 →
  ∃ df', DataFrame_dropna df col = Ok df' ∧
    columns df' = columns df ∧
    (∀ i, i ∈ kept (keep_mask (data c0)) ↔ ∃ v, data c0 !! i = Some v ∧ v ≠ "") ∧
    (∀ k, col_data df' !! k
          = with_data (select (keep_mask (data c0))) <$> col_data df !! k) ∧
    (∀ k c, col_data df !! k = Some c →
       length (select (keep_mask (data c0)) (data c)) = length (present (data c0)) ∧
       ∀ j i, kept (keep_mask (data c0)) !! j = Some i →
              select (keep_mask (data c0)) (data c) !! j = data c !! i) ∧
    select (keep_mask (data c0)) (data c0) = present (data c0) ∧
    "" ∉ present (data c0).
Proof.
  intros Hcol Hlen Hsize. unfold DataFrame_dropna. rewrite Hcol. cbv zeta. rewrite Hcol.
  cbn [fmap option_fmap option_map default]. unfold id.
  change (erase_rows (missing_from 0 (data c0)) 0 (col_data df))
    with (erase_rows (missing_from 0 (data c0)) (Z.of_nat 0) (col_data df)).
  rewrite (erase_rows_ok (data c0) 0 0 (col_data df)); [|lia|cbn; lia|].
  - cbn [mbind outcome_bind]. eexists. split; [reflexivity|]. cbn [columns col_data].
    split; [done|]. split; [apply keep_mask_kept|]. split; [|split; [|split]].
    + intros k. rewrite lookup_fmap. destruct (col_data df !! k) as [c|]; [|done].
      cbn. f_equal.
    + intros k c Hc. apply Hlen in Hc.
      assert (Hm : (length (keep_mask (data c0)) ≤ length (data c))%nat).
      { unfold keep_mask. rewrite length_fmap. lia. }
      split.
      * rewrite select_length by done. apply keep_mask_count.
      * intros j i Hj. by apply select_lookup.
    + apply select_keep_mask.
    + apply present_no_missing.
  - intros k c Hc. apply Hlen in Hc. cbn. lia.
Qed.

(** [dropna("x")] on the example table: row 2, where [x] is empty, goes. *)
Lemma DataFrame_dropna_spec_witness :
  ∃ df', DataFrame_dropna t_table "x" = Ok df' ∧
    columns df' = columns t_table ∧
    (∀ i, i ∈ kept (keep_mask ["1"; "2"; ""]) ↔
          ∃ v, ["1"; "2"; ""] !! i = Some v ∧ v ≠ "") ∧
    (∀ k, col_data df' !! k
          = with_data (select (keep_mask ["1"; "2"; ""])) <$> col_data t_table !! k) ∧
    (∀ k c, col_data t_table !! k = Some c →
       length (select (keep_mask ["1"; "2"; ""]) (data c)) = length (present ["1"; "2"; ""]) ∧
       ∀ j i, kept (keep_mask ["1"; "2"; ""]) !! j = Some i →
              select (keep_mask ["1"; "2"; ""]) (data c) !! j = data c !! i) ∧
    select (keep_mask ["1"; "2"; ""]) ["1"; "2"; ""] = present ["1"; "2"; ""] ∧
    "" ∉ present ["1"; "2"; ""].
Proof.
  apply (DataFrame_dropna_spec t_table "x"
           {| name := "x"; data := ["1"; "2"; ""]; dtype := "int" |}).
  - reflexivity.
  - intros k c Hc. cbn [t_table col_data] in Hc.
    destruct (decide (k = "x")) as [->|Hx]; [by injection Hc as <-|].
    destruct (decide (k = "y")) as [->|Hy]; [by injection Hc as <-|].
    destruct (decide (k = "z")) as [->|Hz]; [by injection Hc as <-|].
    rewrite !lookup_insert_ne in Hc by done. by rewrite lookup_singleton_ne in Hc.
  - cbn. lia.
Defined.

Example DataFrame_dropna_example :
  DataFrame_dropna t_table "x"
  = Ok {| col_data :=
            {[ "x" := {| name := "x"; data := ["1"; "2"]; dtype := "int" |};
               "y" := {| name := "y"; data := ["a"; "b"]; dtype := "string" |};
               "z" := {| name := "z"; data := ["2.5"; ""]; dtype := "float" |} ]};
          row_data := row_data t_table; file_dir := "t.csv"; columns := ["x"; "y"; "z"] |}.
Proof. vm_compute. reflexivity. Qed.

(** [dropna] leaves the row buffer as it was, so the table no longer
    satisfies the representation invariant: a mask with one entry per
    remaining row is rejected by the filter. *)
Example DataFrame_dropna_then_filter :
  ∃ df', DataFrame_dropna t_table "x" = Ok df' ∧
    length (row_data df') = 4%nat ∧
    DataFrame_filter df' [true; true] = Throw out_of_range.
Proof. eexists. split; [reflexivity|]. split; reflexivity. Qed.

(** * [rename] *)

Lemma DataFrame_rename_app (pre post : list (string * string)) (df : DataFrame) :
  DataFrame_rename (pre ++ post) df =
    match DataFrame_rename pre df with
    | Done df' => DataFrame_rename post df'
    | Thrown e df' => Thrown e df'
    end.
Proof.
  revert df. induction pre as [|[old_col_name new_col_name] pre IH]; intros df; [done|].
  cbn [app DataFrame_rename]. destruct (col_data df !! old_col_name); [apply IH|done].
Qed.

Lemma DataFrame_rename_thrown (vec : list (string * string)) (df df' : DataFrame) (e : exn) :
  DataFrame_rename vec df = Thrown e df' →
  ∃ pre old_col_name new_col_name post,
    vec = pre ++ (old_col_name, new_col_name) :: post ∧
    DataFrame_rename pre df = Done df' ∧
    col_data df' !! old_col_name = None ∧ e = out_of_range.
Proof.
  revert df. induction vec as [|[old_col_name new_col_name] vec IH]; intros df; [done|].
  cbn [DataFrame_rename]. destruct (col_data df !! old_col_name) as [c|] eqn:Hold.
  - intros (pre & o & n & post & -> & Hpre & Hnone & ->)%IH.
    exists ((old_col_name, new_col_name) :: pre), o, n, post.
    split; [done|]. split; [|done]. cbn [DataFrame_rename]. by rewrite Hold.
  - intros [= <- <-]. by exists [], old_col_name, new_col_name, vec.
Qed.

(** C8, as the code has it.  [rename] applies the pairs one after the
    other.  It throws exactly when it reaches a pair whose old name is not a
    key of the column map at that moment; the exception is
    [std::out_of_range], and the table is then the one obtained by applying
    the pairs before that one, to the column map and to [columns] alike.
    When the first pair is the one that fails, that is the pre-call
    state. *)
Theorem DataFrame_rename_spec (vec : list (string * string)) (df df' : DataFrame) (e : exn) :
  (DataFrame_rename vec df = Thrown e df' ↔
   ∃ pre old_col_name new_col_name post,
     vec = pre ++ (old_col_name, new_col_name) :: post ∧
     DataFrame_rename pre df = Done df' ∧
     col_data df' !! old_col_name = None ∧ e = out_of_range) ∧
  (∀ old_col_name new_col_name c,
     col_data df !! old_col_name = Some c →
     DataFrame_rename ((old_col_name, new_col_name) :: vec) df
     = DataFrame_rename vec (rename_column old_col_name new_col_name c df)) ∧
  (∀ old_col_name new_col_name,
     col_data df !! old_col_name = None →
     DataFrame_rename ((old_col_name, new_col_name) :: vec) df = Thrown out_of_range df).
Proof.
  split; [split|split].
  - apply DataFrame_rename_thrown.
  - intros (pre & o & n & post & -> & Hpre & Hnone & ->).
    rewrite DataFrame_rename_app, Hpre. cbn [DataFrame_rename]. by rewrite Hnone.
  - intros o n c Hc. cbn [DataFrame_rename]. by rewrite Hc.
  - intros o n Hc. cbn [DataFrame_rename]. by rewrite Hc.
Qed.

(** Renaming [x] to [u] and then the unknown [q] on the example table: the
    call throws, and [x] has become [u] in the column map and in
    [columns].  Renaming [x] to [u] and then [u], which is not a column of
    the table before the call, back to [x] does not throw. *)
Lemma DataFrame_rename_partial :
  col_data t_table !! "q" = None ∧
  (∃ df', DataFrame_rename [("x", "u"); ("q", "w")] t_table = Thrown out_of_range df' ∧
     columns df' = ["u"; "y"; "z"] ∧
     col_data df' !! "x" = None ∧
     col_data df' !! "u" = Some {| name := "u"; data := ["1"; "2"; ""]; dtype := "int" |} ∧
     df' ≠ t_table) ∧
  col_data t_table !! "u" = None ∧
  DataFrame_rename [("x", "u"); ("u", "x")] t_table = Done t_table.
Proof.
  split; [reflexivity|]. split; [|split; [reflexivity|vm_compute; reflexivity]].
  eexists. split; [reflexivity|].
  split; [reflexivity|]. split; [reflexivity|]. split; [reflexivity|].
  intros Heq. apply (f_equal columns) in Heq. discriminate Heq.
Qed.

(** * [fillna] *)

Section Fillna.
Context `{StdLib}.

(** The table-level [fillna] writes [to_string(x)] into every missing
    element, whatever the dtype of the column. *)
Lemma DataFrame_fillna_lookup (df : DataFrame) (x : fill_value) (k : string) :
  col_data (DataFrame_fillna df x) !! k
  = with_data (fmap (fill_element x)) <$> col_data df !! k.
Proof. unfold DataFrame_fillna. cbn [col_data]. by rewrite lookup_fmap. Qed.

Lemma fill_element_missing (x : fill_value) : fill_element x "" = fill_to_string x.
Proof. reflexivity. Qed.

(** An ["int"] column with a missing value stops being all-integer as soon
    as the text of the fill value is not an integer. *)
Lemma DataFrame_fillna_breaks_int (df : DataFrame) (x : fill_value) (k : string) (c : Column) :
  col_data df !! k = Some c → "" ∈ data c →
  is_integer (fill_to_string x) = false → missing (fill_to_string x) = false →
  ∃ c', col_data (DataFrame_fillna df x) !! k = Some c' ∧ dtype c' = dtype c ∧
        ¬ all_integer (data c').
Proof.
  intros Hc Hin Hint Hm. rewrite DataFrame_fillna_lookup, Hc.
  eexists. split; [reflexivity|]. split; [reflexivity|].
  intros Hall. cbn [with_data data] in Hall.
  specialize (Hall (fill_to_string x)). rewrite Hint in Hall.
  assert (true = false); [|done]. symmetry. apply Hall; [|done].
  apply list_elem_of_fmap. exists "". by rewrite fill_element_missing.
Qed.

(** With an [int] fill value the text stored is an integer, so an ["int"]
    column stays all-integer and is left without a missing value. *)
Lemma DataFrame_fillna_int_keeps_int (df : DataFrame) (z : Z) (k : string) (c : Column) :
  INT_MIN ≤ z ≤ INT_MAX → col_data df !! k = Some c → all_integer (data c) →
  ∃ c', col_data (DataFrame_fillna df (fill_int z)) !! k = Some c' ∧ dtype c' = dtype c ∧
        all_integer (data c') ∧ "" ∉ data c'.
Proof.
  intros Hz Hc Hall. rewrite DataFrame_fillna_lookup, Hc.
  eexists. split; [reflexivity|]. split; [reflexivity|]. cbn [with_data data].
  pose proof (is_integer_to_string_int z Hz) as Hint.
  split.
  - intros v [u [-> Hu]]%list_elem_of_fmap Hm. unfold fill_element in *.
    destruct (missing u) eqn:Hmu; [done|]. by apply Hall.
  - intros [u [Heq Hu]]%list_elem_of_fmap. unfold fill_element in Heq.
    destruct (missing u) eqn:Hmu.
    + cbn [fill_to_string] in Heq. by rewrite <- Heq in Hint.
    + by subst u.
Qed.
End Fillna.

(** C9.  [fillna(2.5)] on the table read from [t.csv]: the missing value of
    the ["int"] column [x] becomes ["2.500000"], which [is_integer]
    rejects; the column is still tagged ["int"].  [Column::fillna] with the
    same argument casts first and stores ["2.000000"]. *)
Theorem DataFrame_fillna_double_in_int_column :
  col_data t_table !! "x" = Some {| name := "x"; data := ["1"; "2"; ""]; dtype := "int" |} ∧
  col_data (DataFrame_fillna (H := Binary64.lib) t_table (fill_double 2.5%float)) !! "x"
  = Some {| name := "x"; data := ["1"; "2"; "2.500000"]; dtype := "int" |} ∧
  is_integer "2.500000" = false ∧
  ¬ all_integer ["1"; "2"; "2.500000"] ∧
  Column_fillna (H := Binary64.lib)
    {| name := "x"; data := ["1"; "2"; ""]; dtype := "int" |} (fill_double 2.5%float)
  = Ok {| name := "x"; data := ["1"; "2"; "2.000000"]; dtype := "int" |}.
Proof.
  split; [reflexivity|]. split; [vm_compute; reflexivity|]. split; [reflexivity|].
  split; [|vm_compute; reflexivity].
  intros Hall. specialize (Hall "2.500000").
  assert (false = true); [|done]. apply Hall; [|reflexivity].
  do 2 right. by left.
Qed.

(** * Column statistics: [sorted], [min], [max] *)

Section Sorted.
Context `{StdLib}.

Lemma stod_defined (s : string) : stod s ≠ Undefined.
Proof. unfold stod. by destruct (stod_result s). Qed.

Lemma stod_cases (s : string) : returns (stod s) ∨ throws (stod s).
Proof.
  unfold returns, throws, stod. destruct (stod_result s) as [e|r]; [right|left]; eauto.
Qed.

Lemma stod_less_defined (s1 s2 : string) : stod_less s1 s2 ≠ Undefined.
Proof.
  unfold stod_less, stod.
  destruct (stod_result s1) as [e|[x1 p1]]; cbn [mbind outcome_bind]; [done|].
  by destruct (stod_result s2) as [e|[x2 p2]].
Qed.

(** A string that [stod] rejects makes the comparator throw on either
    side. *)
Lemma stod_less_throws (s : string) :
  throws (stod s) → ∀ y, throws (stod_less s y) ∧ throws (stod_less y s).
Proof.
  intros [e He] y. unfold stod_less. rewrite He. cbn [mbind outcome_bind].
  split; [by exists e|].
  destruct (stod_cases y) as [[[v p] ->]|[e' ->]]; cbn [mbind outcome_bind]; eexists; done.
Qed.

Lemma not_returns_throws {A} (m : outcome A) : throws m → ¬ returns m.
Proof. intros [e ->] [a Ha]. done. Qed.

Section Contract.
Hypothesis sort_ok : sort_contract.
Hypothesis stod_empty : stod_rejects_empty.
Variable c : Column.
Hypothesis c_numeric : dtype c ≠ "string".

Lemma Column_sorted_unfold : Column_sorted c = std_sort stod_less (data c).
Proof. unfold Column_sorted. by rewrite bool_decide_eq_false_2. Qed.

Lemma Column_sorted_throws (v : string) :
  (2 ≤ length (data c))%nat → v ∈ data c → throws (stod v) →
  throws (Column_sorted c).
Proof.
  intros Hlen Hv Hbad. rewrite Column_sorted_unfold.
  apply (sort_throws sort_ok _ _ _ v); [done|done| |].
  - by apply stod_less_throws.
  - apply stod_less_defined.
Qed.

Lemma Column_sorted_single (v : string) : data c = [v] → Column_sorted c = Ok [v].
Proof.
  intros Hd. rewrite Column_sorted_unfold, Hd.
  apply (sort_trivial sort_ok). cbn. lia.
Qed.

Lemma Column_sorted_returns :
  returns (Column_sorted c) →
  (length (data c) ≤ 1)%nat ∨ ∀ v, v ∈ data c → returns (stod v).
Proof.
  intros Hret. destruct (decide (length (data c) ≤ 1)%nat) as [|Hlen]; [by left|right].
  intros v Hv. destruct (stod_cases v) as [|Hthrow]; [done|].
  exfalso. eapply not_returns_throws; [|exact Hret].
  apply (Column_sorted_throws v); [lia|done|done].
Qed.

Lemma Column_min_unfold :
  Column_min c = (sorted_col ← Column_sorted c;
                  first ← vec_index sorted_col 0;
                  '(mn, _) ← stod first; Ok mn).
Proof. unfold Column_min. by rewrite bool_decide_eq_false_2. Qed.

Lemma Column_max_unfold :
  Column_max c = (sorted_col ← Column_sorted c;
                  last ← vec_index_size sorted_col
                           (size_t_wrap (Z.of_nat (length sorted_col) - 1));
                  '(mx, _) ← stod last; Ok mx).
Proof. unfold Column_max. by rewrite bool_decide_eq_false_2. Qed.

Lemma Column_min_single (v : string) :
  data c = [v] → Column_min c = ('(mn, _) ← stod v; Ok mn).
Proof.
  intros Hd. rewrite Column_min_unfold, (Column_sorted_single v Hd). done.
Qed.

Lemma Column_max_single (v : string) :
  data c = [v] → Column_max c = ('(mx, _) ← stod v; Ok mx).
Proof.
  intros Hd. rewrite Column_max_unfold, (Column_sorted_single v Hd). done.
Qed.

Lemma bind_stod_throws {B} (v : string) (k : double * nat → outcome B) :
  throws (stod v) → throws (stod v ≫= k).
Proof. intros [e ->]. by exists e. Qed.

Lemma bind_stod_returns (v : string) :
  returns ('(x, _) ← stod v; Ok x) → returns (stod v).
Proof.
  intros [a Ha]. destruct (stod v) as [r| |]; [by exists r|done|done].
Qed.

Lemma missing_extremum_throws (f : Column → outcome double) :
  (f = Column_min ∨ f = Column_max) → "" ∈ data c → throws (f c).
Proof.
  intros Hf Hin.
  destruct (data c) as [|v [|w rest]] eqn:Hd.
  - by apply elem_of_nil in Hin.
  - apply list_elem_of_singleton in Hin as <-.
    destruct Hf as [-> | ->].
    + rewrite (Column_min_single "" Hd). by apply bind_stod_throws.
    + rewrite (Column_max_single "" Hd). by apply bind_stod_throws.
  - assert (Hs : throws (Column_sorted c)).
    { apply (Column_sorted_throws ""); [rewrite Hd; cbn; lia|by rewrite Hd|done]. }
    destruct Hs as [e He].
    destruct Hf as [-> | ->]; [rewrite Column_min_unfold|rewrite Column_max_unfold];
      rewrite He; by exists e.
Qed.

Lemma extremum_returns (f : Column → outcome double) :
  (f = Column_min ∨ f = Column_max) → returns (f c) →
  data c ≠ [] ∧ ∀ v, v ∈ data c → returns (stod v).
Proof.
  intros Hf Hret.
  assert (Hsorted : returns (Column_sorted c)).
  { destruct Hret as [a Ha].
    destruct Hf as [-> | ->];
      [rewrite Column_min_unfold in Ha|rewrite Column_max_unfold in Ha];
      destruct (Column_sorted c) as [l| |]; try done; by exists l. }
  destruct (data c) as [|v [|w rest]] eqn:Hd.
  - exfalso. destruct Hret as [a Ha].
    assert (Hs : Column_sorted c = Ok []).
    { rewrite Column_sorted_unfold, Hd. apply (sort_trivial sort_ok). cbn. lia. }
    destruct Hf as [-> | ->];
      [rewrite Column_min_unfold in Ha|rewrite Column_max_unfold in Ha];
      rewrite Hs in Ha; done.
  - split; [done|]. intros u ->%list_elem_of_singleton.
    destruct Hf as [-> | ->];
      [rewrite (Column_min_single v Hd) in Hret|rewrite (Column_max_single v Hd) in Hret];
      by apply bind_stod_returns.
  - split; [done|]. rewrite <- Hd.
    destruct (Column_sorted_returns Hsorted) as [Hle|Hall]; [|done].
    rewrite Hd in Hle. cbn in Hle. lia.
Qed.
End Contract.
End Sorted.

(** C10, as the code has it.  On a column whose dtype is not ["string"]
    (["int"] and ["float"] in particular), with [std::sort] and [std::stod]
    as assumed above.  When the column holds a missing value, [min] and
    [max] throw, and [sorted] throws if the column has at least two rows;
    a column that consists of one missing value is returned by [sorted] as
    it is, because no comparison is made.  [sorted] returns only when the
    column has at most one row or [stod] converts every element; [min] and
    [max] return only when the column has a row and [stod] converts every
    element. *)
Theorem sorted_min_max_missing `{StdLib} (c : Column) :
  sort_contract → stod_rejects_empty → dtype c ≠ "string" →
  ("" ∈ data c →
     ((2 ≤ length (data c))%nat → throws (Column_sorted c)) ∧
     (data c = [""] → Column_sorted c = Ok [""]) ∧
     throws (Column_min c) ∧ throws (Column_max c)) ∧
  (returns (Column_sorted c) →
     (length (data c) ≤ 1)%nat ∨ ∀ v, v ∈ data c → returns (stod v)) ∧
  (returns (Column_min c) → data c ≠ [] ∧ ∀ v, v ∈ data c → returns (stod v)) ∧
  (returns (Column_max c) → data c ≠ [] ∧ ∀ v, v ∈ data c → returns (stod v)).
Proof.
  intros Hsort Hstod Hd. split; [|split; [|split]].
  - intros Hin. split; [|split; [|split]].
    + intros Hlen. by apply (Column_sorted_throws Hsort c Hd "").
    + by apply Column_sorted_single.
    + apply (missing_extremum_throws Hsort Hstod c Hd); [by left|done].
    + apply (missing_extremum_throws Hsort Hstod c Hd); [by right|done].
  - by apply Column_sorted_returns.
  - apply (extremum_returns Hsort c Hd). by left.
  - apply (extremum_returns Hsort c Hd). by right.
Qed.

Lemma sorted_min_max_missing_witness :
  ("" ∈ data {| name := "x"; data := ["3"; ""; "1"]; dtype := "int" |} →
     ((2 ≤ length (data {| name := "x"; data := ["3"; ""; "1"]; dtype := "int" |}))%nat →
      throws (Column_sorted (H := Binary64.lib)
                {| name := "x"; data := ["3"; ""; "1"]; dtype := "int" |})) ∧
     (data {| name := "x"; data := ["3"; ""; "1"]; dtype := "int" |} = [""] →
      Column_sorted {| name := "x"; data := ["3"; ""; "1"]; dtype := "int" |} = Ok [""]) ∧
     throws (Column_min {| name := "x"; data := ["3"; ""; "1"]; dtype := "int" |}) ∧
     throws (Column_max {| name := "x"; data := ["3"; ""; "1"]; dtype := "int" |})) ∧
  (returns (Column_sorted {| name := "x"; data := ["3"; ""; "1"]; dtype := "int" |}) →
     (length (data {| name := "x"; data := ["3"; ""; "1"]; dtype := "int" |}) ≤ 1)%nat ∨
     ∀ v, v ∈ data {| name := "x"; data := ["3"; ""; "1"]; dtype := "int" |} →
          returns (stod v)) ∧
  (returns (Column_min {| name := "x"; data := ["3"; ""; "1"]; dtype := "int" |}) →
     data {| name := "x"; data := ["3"; ""; "1"]; dtype := "int" |} ≠ [] ∧
     ∀ v, v ∈ data {| name := "x"; data := ["3"; ""; "1"]; dtype := "int" |} →
          returns (stod v)) ∧
  (returns (Column_max {| name := "x"; data := ["3"; ""; "1"]; dtype := "int" |}) →
     data {| name := "x"; data := ["3"; ""; "1"]; dtype := "int" |} ≠ [] ∧
     ∀ v, v ∈ data {| name := "x"; data := ["3"; ""; "1"]; dtype := "int" |} →
          returns (stod v)).
Proof.
  apply (sorted_min_max_missing (H := Binary64.lib)
           {| name := "x"; data := ["3"; ""; "1"]; dtype := "int" |}).
  - exact Binary64_sort_contract.
  - exact Binary64_stod_rejects_empty.
  - discriminate.
Defined.

(** An ["int"] column made of one missing value: [sorted] returns it. *)
Lemma Column_sorted_single_missing_returns :
  dtype {| name := "x"; data := [""]; dtype := "int" |} = "int" ∧
  "" ∈ data {| name := "x"; data := [""]; dtype := "int" |} ∧
  Column_sorted (H := Binary64.lib) {| name := "x"; data := [""]; dtype := "int" |}
  = Ok [""].
Proof. split; [reflexivity|]. split; [by left|reflexivity]. Qed.

Example Column_sorted_example :
  Column_sorted (H := Binary64.lib) {| name := "x"; data := ["10"; "9"; "3.5"]; dtype := "float" |}
  = Ok ["3.5"; "9"; "10"].
Proof. vm_compute. reflexivity. Qed.

Example Column_min_missing_example :
  Column_min (H := Binary64.lib) {| name := "x"; data := ["3"; ""; "1"]; dtype := "int" |}
  = Throw invalid_argument.
Proof. vm_compute. reflexivity. Qed.

(** * More on the column statistics *)

Section SumMean.
Context `{StdLib}.

(** Number of missing elements. *)
Lemma present_missing_count (elements : list string) :
  (length (present elements) + length (filter (λ v, v = "") elements) = length elements)%nat.
Proof.
  induction elements as [|element rest IH]; [done|].
  destruct (decide (element = "")) as [->|Hne].
  - rewrite present_cons_missing by done. rewrite filter_cons_True by done. cbn [length]. lia.
  - rewrite present_cons_value by (by apply missing_false_iff).
    rewrite filter_cons_False by done. cbn [length]. lia.
Qed.

Lemma sum_loop_ok (elements : list string) (values : list double) (sum : double) :
  Forall2 parses (present elements) values →
  sum_loop elements sum = Ok (foldl dadd sum values).
Proof.
  revert values sum. induction elements as [|element rest IH]; intros values sum Hval;
    cbn [sum_loop].
  - by apply Forall2_nil_inv_l in Hval as ->.
  - destruct (missing element) eqn:Hm.
    + rewrite present_cons_missing in Hval by done. by apply IH.
    + rewrite present_cons_value in Hval by done.
      apply Forall2_cons_inv_l in Hval as (v & values' & [pos Hv] & Hval & ->).
      rewrite Hv. cbn [mbind outcome_bind foldl]. by apply IH.
Qed.

(** The loop of [mean] is the loop of [sum] with the size counted down
    beside it. *)
Lemma mean_loop_sum_loop (elements : list string) (sum : double) (n : nat) :
  (length elements ≤ n)%nat → exact_decrement n →
  mean_loop elements sum (double_of_size n)
  = (s ← sum_loop elements sum;
     Ok (s, double_of_size (n - (length elements - length (present elements))))).
Proof.
  revert sum n. induction elements as [|element rest IH]; intros sum n Hlen Hex;
    cbn [mean_loop sum_loop].
  - cbn. by rewrite Nat.sub_0_r.
  - pose proof (present_length rest) as Hpl. cbn [length] in Hlen.
    destruct (missing element) eqn:Hm.
    + rewrite present_cons_missing by done.
      destruct n as [|n]; [lia|]. rewrite (Hex n) by lia.
      rewrite IH by (try lia; intros j Hj; apply Hex; lia).
      destruct (sum_loop rest sum); cbn [mbind outcome_bind]; try done.
      do 3 f_equal. cbn [length]. lia.
    + rewrite present_cons_value by done.
      destruct (stod element) as [[num pos]| |]; cbn [mbind outcome_bind]; try done.
      rewrite IH by (done || lia).
      destruct (sum_loop rest (dadd sum num)); cbn [mbind outcome_bind]; done.
Qed.
End SumMean.

(** X1. [Column::sum] on an ["int"] or ["float"] column adds the converted
    non-missing elements in row order, starting from [0.0]; on any other
    dtype it throws [std::invalid_argument]; a non-missing element that
    [stod] rejects makes it throw. *)
Theorem Column_sum_spec `{StdLib} (c : Column) :
  (numeric c = false → Column_sum c = Throw invalid_argument) ∧
  (numeric c = true →
     (∀ values, Forall2 parses (present (data c)) values → Column_sum c = Ok (dsum values)) ∧
     (∀ v, v ∈ data c → v ≠ "" → throws (stod v) → throws (Column_sum c))).
Proof.
  unfold Column_sum. split; [by intros ->|]. intros ->. split.
  - intros values Hval. by apply sum_loop_ok.
  - intros v Hv Hne Hbad. generalize d0.
    induction (data c) as [|element rest IH]; intros sum; [by apply elem_of_nil in Hv|].
    cbn [sum_loop]. destruct (missing element) eqn:Hm.
    + apply IH. apply elem_of_cons in Hv as [->|Hv]; [|done].
      apply missing_false_iff in Hne. congruence.
    + unfold stod in *. destruct (stod_result element) as [e|[num pos]] eqn:He.
      * by exists e.
      * cbn [mbind outcome_bind]. apply IH.
        apply elem_of_cons in Hv as [->|Hv]; [|done].
        destruct Hbad as [e Hbad]. by rewrite He in Hbad.
Qed.

Lemma Column_sum_spec_witness :
  (∀ values, Forall2 (parses (H := Binary64.lib)) (present ["1"; "2.5"; ""]) values →
     Column_sum {| name := "x"; data := ["1"; "2.5"; ""]; dtype := "float" |}
     = Ok (dsum values)) ∧
  (∀ v, v ∈ ["1"; "2.5"; ""] → v ≠ "" → throws (stod (H := Binary64.lib) v) →
     throws (Column_sum {| name := "x"; data := ["1"; "2.5"; ""]; dtype := "float" |})).
Proof.
  apply (proj2 (Column_sum_spec (H := Binary64.lib)
                  {| name := "x"; data := ["1"; "2.5"; ""]; dtype := "float" |})).
  reflexivity.
Defined.

(** X2. On an ["int"] or ["float"] column, [mean] throws exactly as [sum]
    does, and otherwise returns the result of [sum] divided by the number
    of non-missing elements (the size is counted down in [double]
    arithmetic, exact for the sizes a column can have). *)
Theorem Column_mean_is_sum_over_count `{StdLib} (c : Column) :
  numeric c = true → exact_decrement (length (data c)) →
  Column_mean c
  = (s ← Column_sum c; Ok (ddiv s (double_of_size (length (present (data c)))))).
Proof.
  intros Hnum Hex. unfold Column_mean, Column_sum. rewrite Hnum.
  rewrite mean_loop_sum_loop by done.
  pose proof (present_length (data c)) as Hpl.
  destruct (sum_loop (data c) d0); cbn [mbind outcome_bind]; try done.
  do 3 f_equal. lia.
Qed.

Lemma Column_mean_is_sum_over_count_witness :
  Column_mean (H := Binary64.lib) {| name := "x"; data := ["1"; "2.5"; ""]; dtype := "float" |}
  = (s ← Column_sum {| name := "x"; data := ["1"; "2.5"; ""]; dtype := "float" |};
     Ok (ddiv s (double_of_size (length (present ["1"; "2.5"; ""]))))).
Proof.
  apply (Column_mean_is_sum_over_count (H := Binary64.lib)
           {| name := "x"; data := ["1"; "2.5"; ""]; dtype := "float" |}).
  - reflexivity.
  - intros j Hj. cbn [data length] in Hj.
    destruct j as [|[|[|j]]]; [vm_compute; reflexivity..|lia].
Defined.

Lemma present_all_missing (elements : list string) :
  all_missing elements → present elements = [].
Proof.
  induction elements as [|element rest IH]; intros Hall; [done|].
  rewrite present_cons_missing.
  - apply IH. intros v Hv. apply Hall. by right.
  - apply missing_iff. apply Hall. by left.
Qed.

(** X3. [mean] of an ["int"] or ["float"] column without a non-missing
    element (no rows, or missing values only) does not throw: it returns
    [0.0 / 0.0], while [sum] returns [0.0]. *)
Theorem Column_mean_all_missing `{StdLib} (c : Column) :
  numeric c = true → all_missing (data c) → exact_decrement (length (data c)) →
  Column_sum c = Ok d0 ∧ Column_mean c = Ok (ddiv d0 (double_of_size 0)).
Proof.
  intros Hnum Hall Hex.
  pose proof (present_all_missing _ Hall) as Hp.
  assert (Hsum : Column_sum c = Ok d0).
  { unfold Column_sum. rewrite Hnum. apply (sum_loop_ok _ []). rewrite Hp. constructor. }
  split; [done|].
  unfold Column_mean. rewrite Hnum. rewrite mean_loop_sum_loop by done.
  unfold Column_sum in Hsum. rewrite Hnum in Hsum. rewrite Hsum. cbn [mbind outcome_bind].
  rewrite Hp. cbn [length]. do 3 f_equal. lia.
Qed.

Lemma Column_mean_all_missing_witness :
  Column_sum (H := Binary64.lib) {| name := "y"; data := [""; ""]; dtype := "int" |}
  = Ok 0%float ∧
  Column_mean (H := Binary64.lib) {| name := "y"; data := [""; ""]; dtype := "int" |}
  = Ok nan.
Proof.
  apply (Column_mean_all_missing (H := Binary64.lib)
           {| name := "y"; data := [""; ""]; dtype := "int" |}).
  - reflexivity.
  - intros v Hv. cbn [data] in Hv.
    repeat (apply elem_of_cons in Hv as [->|Hv]; [reflexivity|]).
    by apply elem_of_nil in Hv.
  - intros j Hj. cbn [data length] in Hj.
    destruct j as [|[|j]]; [vm_compute; reflexivity..|lia].
Defined.

(** X4. On a column without rows whose dtype is not ["string"], [sorted]
    returns the empty vector, and [min] and [max] read [sorted_col[0]] and
    [sorted_col[size() - 1]] of that empty vector: undefined behaviour, not
    an exception. *)
Theorem Column_min_max_empty `{StdLib} (c : Column) :
  sort_contract → dtype c ≠ "string" → data c = [] →
  Column_sorted c = Ok [] ∧ Column_min c = Undefined ∧ Column_max c = Undefined.
Proof.
  intros Hsort Hd Hdata.
  assert (Hs : Column_sorted c = Ok []).
  { rewrite (Column_sorted_unfold c Hd), Hdata. apply (sort_trivial Hsort). cbn. lia. }
  split; [done|]. split.
  - rewrite (Column_min_unfold c Hd), Hs. reflexivity.
  - rewrite (Column_max_unfold c Hd), Hs. reflexivity.
Qed.

Lemma Column_min_max_empty_witness :
  Column_sorted (H := Binary64.lib) {| name := "x"; data := []; dtype := "int" |} = Ok [] ∧
  Column_min (H := Binary64.lib) {| name := "x"; data := []; dtype := "int" |} = Undefined ∧
  Column_max (H := Binary64.lib) {| name := "x"; data := []; dtype := "int" |} = Undefined.
Proof.
  apply (Column_min_max_empty (H := Binary64.lib) {| name := "x"; data := []; dtype := "int" |}).
  - exact Binary64_sort_contract.
  - discriminate.
  - reflexivity.
Defined.

(** * More on the comparison operators *)

Section CompareMore.
Context `{StdLib}.

Lemma compare_cell_rejected (cmp : double → bool) (v : string) :
  v = "" ∨ throws (stod v) → compare_cell cmp v = false.
Proof.
  intros [->|[e He]]; [done|]. unfold compare_cell. rewrite He. by destruct (missing v).
Qed.

Lemma compare_cell_converted (cmp : double → bool) (v : string) (x : double) :
  v ≠ "" → parses v x → compare_cell cmp v = cmp x.
Proof.
  intros Hne [pos Hx]. unfold compare_cell. apply missing_false_iff in Hne.
  by rewrite Hne, Hx.
Qed.

Lemma compare_double_lookup (cmp : double → double → bool) (c : Column) (key : double) :
  dtype c ≠ "string" →
  compare_double cmp c key = Ok ((λ element, compare_cell (λ v, cmp v key) element) <$> data c).
Proof. intros Hd. unfold compare_double. by rewrite bool_decide_eq_false_2. Qed.
End CompareMore.

(** X5. On a column whose dtype is not ["string"], each of the six
    operators against a [double] key returns one entry per row.  A row
    whose element is missing or is rejected by [stod] is [false] in all six
    masks (the exception is caught), so [!=] is the complement of [==] only
    at the rows that convert: there the [!=] entry is the negation of the
    [==] entry. *)
Theorem compare_double_rows `{StdLib} (c : Column) (key : double) :
  dtype c ≠ "string" →
  (∀ op, op ∈ [Column_eq; Column_ne; Column_lt; Column_gt; Column_le; Column_ge] →
     ∃ mask, op c key = Ok mask ∧ length mask = length (data c) ∧
       ∀ i v, data c !! i = Some v → v = "" ∨ throws (stod v) → mask !! i = Some false) ∧
  (∃ m_eq m_ne, Column_eq c key = Ok m_eq ∧ Column_ne c key = Ok m_ne ∧
     ∀ i v x, data c !! i = Some v → v ≠ "" → parses v x →
       m_eq !! i = Some (deqb x key) ∧ m_ne !! i = Some (negb (deqb x key))).
Proof.
  intros Hd. split.
  - intros op Hop.
    assert (∃ cmp, op = compare_double cmp) as [cmp ->].
    { repeat (apply elem_of_cons in Hop as [->|Hop]; [eexists; reflexivity|]).
      by apply elem_of_nil in Hop. }
    rewrite compare_double_lookup by done. eexists. split; [done|].
    split; [by rewrite length_fmap|].
    intros i v Hi Hrej. rewrite list_lookup_fmap, Hi. cbn. f_equal.
    by apply compare_cell_rejected.
  - unfold Column_eq, Column_ne. rewrite !compare_double_lookup by done.
    do 2 eexists. split; [done|]. split; [done|].
    intros i v x Hi Hne Hx. rewrite !list_lookup_fmap, Hi. cbn.
    by rewrite !(compare_cell_converted _ v x).
Qed.

Lemma compare_double_rows_witness :
  (∀ op, op ∈ [Column_eq (H := Binary64.lib); Column_ne; Column_lt; Column_gt;
               Column_le; Column_ge] →
     ∃ mask, op {| name := "x"; data := ["1"; ""; "3"]; dtype := "int" |} 1%float = Ok mask ∧
       length mask = length ["1"; ""; "3"] ∧
       ∀ i v, ["1"; ""; "3"] !! i = Some v → v = "" ∨ throws (stod v) →
              mask !! i = Some false) ∧
  (∃ m_eq m_ne,
     Column_eq {| name := "x"; data := ["1"; ""; "3"]; dtype := "int" |} 1%float = Ok m_eq ∧
     Column_ne {| name := "x"; data := ["1"; ""; "3"]; dtype := "int" |} 1%float = Ok m_ne ∧
     ∀ i v x, ["1"; ""; "3"] !! i = Some v → v ≠ "" → parses v x →
       m_eq !! i = Some (deqb x 1%float) ∧ m_ne !! i = Some (negb (deqb x 1%float))).
Proof.
  apply (compare_double_rows (H := Binary64.lib)
           {| name := "x"; data := ["1"; ""; "3"]; dtype := "int" |} 1%float).
  discriminate.
Defined.

Lemma string_leb_ltb (s t : string) : String.leb s t = negb (String.ltb t s).
Proof.
  unfold String.leb, String.ltb. rewrite (String.compare_antisym t s).
  by destruct (String.compare s t).
Qed.

Lemma string_compare_refl (s : string) : String.compare s s = Eq.
Proof.
  induction s as [|a s IH]; [done|]. cbn [String.compare].
  unfold Ascii.compare. by rewrite N.compare_refl.
Qed.

Lemma string_eqb_compare (s t : string) :
  String.eqb s t = match String.compare s t with Eq => true | _ => false end.
Proof.
  destruct (String.eqb_spec s t) as [->|Hne].
  - by rewrite string_compare_refl.
  - destruct (String.compare s t) eqn:Hc; try done.
    by apply String.compare_eq_iff in Hc.
Qed.

(** X6. On a column whose dtype is neither ["int"] nor ["float"], the six
    operators against a [std::string] key return one entry per row, and at
    every row exactly one of [<], [==], [>] holds; [!=], [>=] and [<=] are
    the negations of [==], [<] and [>]. *)
Theorem compare_string_rows (c : Column) (key : string) :
  dtype c ≠ "int" → dtype c ≠ "float" →
  ∃ m_eq m_ne m_lt m_gt m_le m_ge,
    Column_eq_str c key = Ok m_eq ∧ Column_ne_str c key = Ok m_ne ∧
    Column_lt_str c key = Ok m_lt ∧ Column_gt_str c key = Ok m_gt ∧
    Column_le_str c key = Ok m_le ∧ Column_ge_str c key = Ok m_ge ∧
    length m_eq = length (data c) ∧
    m_ne = negb <$> m_eq ∧ m_ge = negb <$> m_lt ∧ m_le = negb <$> m_gt ∧
    ∀ i, (i < length (data c))%nat →
      (m_lt !! i = Some true ∧ m_eq !! i = Some false ∧ m_gt !! i = Some false) ∨
      (m_lt !! i = Some false ∧ m_eq !! i = Some true ∧ m_gt !! i = Some false) ∨
      (m_lt !! i = Some false ∧ m_eq !! i = Some false ∧ m_gt !! i = Some true).
Proof.
  intros Hi Hf.
  unfold Column_eq_str, Column_ne_str, Column_lt_str, Column_gt_str,
    Column_le_str, Column_ge_str.
  rewrite !compare_string_ok by done. do 6 eexists.
  do 6 (split; [reflexivity|]). split; [by rewrite length_fmap|].
  split; [|split; [|split]].
  - by rewrite <- list_fmap_compose.
  - rewrite <- list_fmap_compose. apply list_fmap_ext. intros _ element _. cbn.
    apply string_leb_ltb.
  - rewrite <- list_fmap_compose. apply list_fmap_ext. intros _ element _. cbn.
    apply string_leb_ltb.
  - intros i Hlt. destruct (lookup_lt_is_Some_2 (data c) i Hlt) as [element He].
    rewrite !list_lookup_fmap, He. cbn.
    rewrite string_eqb_compare. unfold String.ltb.
    rewrite (String.compare_antisym key element).
    destruct (String.compare element key); cbn;
      [right; left|left|right; right]; repeat split.
Qed.

Lemma compare_string_rows_witness :
  ∃ m_eq m_ne m_lt m_gt m_le m_ge,
    Column_eq_str {| name := "y"; data := ["a"; "b"; ""]; dtype := "string" |} "b" = Ok m_eq ∧
    Column_ne_str {| name := "y"; data := ["a"; "b"; ""]; dtype := "string" |} "b" = Ok m_ne ∧
    Column_lt_str {| name := "y"; data := ["a"; "b"; ""]; dtype := "string" |} "b" = Ok m_lt ∧
    Column_gt_str {| name := "y"; data := ["a"; "b"; ""]; dtype := "string" |} "b" = Ok m_gt ∧
    Column_le_str {| name := "y"; data := ["a"; "b"; ""]; dtype := "string" |} "b" = Ok m_le ∧
    Column_ge_str {| name := "y"; data := ["a"; "b"; ""]; dtype := "string" |} "b" = Ok m_ge ∧
    length m_eq = length ["a"; "b"; ""] ∧
    m_ne = negb <$> m_eq ∧ m_ge = negb <$> m_lt ∧ m_le = negb <$> m_gt ∧
    ∀ i, (i < length ["a"; "b"; ""])%nat →
      (m_lt !! i = Some true ∧ m_eq !! i = Some false ∧ m_gt !! i = Some false) ∨
      (m_lt !! i = Some false ∧ m_eq !! i = Some true ∧ m_gt !! i = Some false) ∨
      (m_lt !! i = Some false ∧ m_eq !! i = Some false ∧ m_gt !! i = Some true).
Proof.
  apply (compare_string_rows {| name := "y"; data := ["a"; "b"; ""]; dtype := "string" |} "b");
    discriminate.
Defined.

(** * More on mask filtering *)

Lemma select_nil_r {A} (mask : list bool) : select mask (@nil A) = [].
Proof.
  unfold select. induction (kept mask) as [|p l IH]; [done|].
  cbn [omap list_omap]. by rewrite lookup_nil.
Qed.

Lemma select_all_true {A} (l : list A) : select (replicate (length l) true) l = l.
Proof.
  induction l as [|x l IH]; [done|]. cbn [length replicate].
  by rewrite select_cons, IH.
Qed.

Lemma select_all_false {A} (n : nat) (l : list A) : select (replicate n false) l = [].
Proof.
  revert l. induction n as [|n IH]; intros l; [done|].
  destruct l as [|x l]; [apply select_nil_r|].
  cbn [replicate]. by rewrite select_cons.
Qed.

Lemma comparison_mask_length `{StdLib} (c : Column) (mask : list bool) :
  comparison_mask c mask → length mask = length (data c).
Proof.
  intros [(op & key & Hop & Hrun)|(op & key & Hop & Hrun)].
  - assert (∃ cmp, op = compare_double cmp) as [cmp ->].
    { repeat (apply elem_of_cons in Hop as [->|Hop]; [eexists; reflexivity|]).
      by apply elem_of_nil in Hop. }
    unfold compare_double in Hrun. destruct (bool_decide _); [done|].
    injection Hrun as <-. by rewrite length_fmap.
  - assert (∃ cmp, op = compare_string cmp) as [cmp ->].
    { repeat (apply elem_of_cons in Hop as [->|Hop]; [eexists; reflexivity|]).
      by apply elem_of_nil in Hop. }
    unfold compare_string in Hrun. destruct (_ || _); [done|].
    injection Hrun as <-. by rewrite length_fmap.
Qed.

(** X7. [df[df[key] op value]]: on a table that satisfies the
    representation invariant, the mask that any of the twelve comparison
    operators returns for a listed column is accepted by the mask filter,
    and the filtered columns all have as many rows as the mask has [true]
    entries. *)
Theorem filter_by_comparison `{StdLib} (T : DataFrame) (key : string) (c : Column)
    (mask : list bool) :
  table_inv T → key ∈ columns T → DataFrame_column T key = Ok c →
  comparison_mask c mask →
  ∃ F, DataFrame_filter T mask = Ok F ∧ columns F = columns T ∧
    ∀ k, k ∈ columns T →
      ∃ src dst, col_data T !! k = Some src ∧ col_data F !! k = Some dst ∧
        data dst = select mask (data src) ∧ length (data dst) = count_true mask.
Proof.
  intros Hinv Hkey Hc Hmask. unfold DataFrame_column in Hc.
  destruct (inv_columns T Hinv key Hkey) as (c' & Hc' & Hlen).
  rewrite Hc' in Hc. injection Hc as ->.
  assert (Hml : length mask = row_count T).
  { by rewrite (comparison_mask_length c mask Hmask). }
  destruct (DataFrame_filter_ok T mask Hinv Hml) as (F & HF & Hcs & _ & Hcols).
  exists F. split; [done|]. split; [done|]. intros k Hk.
  destruct (inv_columns T Hinv k Hk) as (src & Hsrc & Hsl).
  exists src, (filtered_column mask k src). split; [done|]. split.
  - rewrite Hcols, decide_True by done. by rewrite Hsrc.
  - cbn [filtered_column data]. split; [done|]. apply select_length. lia.
Qed.

Lemma filter_by_comparison_witness :
  ∃ F, DataFrame_filter t_table [true; false; false] = Ok F ∧ columns F = columns t_table ∧
    ∀ k, k ∈ columns t_table →
      ∃ src dst, col_data t_table !! k = Some src ∧ col_data F !! k = Some dst ∧
        data dst = select [true; false; false] (data src) ∧
        length (data dst) = count_true [true; false; false].
Proof.
  apply (filter_by_comparison (H := Binary64.lib) t_table "x"
           {| name := "x"; data := ["1"; "2"; ""]; dtype := "int" |}).
  - exact t_table_inv.
  - by left.
  - reflexivity.
  - left. exists Column_eq, 1%float. split; [by left|]. vm_compute. reflexivity.
Defined.

(** X8. On a table that satisfies the representation invariant, the
    all-true mask keeps every value of every listed column, in order, and
    the all-false mask leaves every listed column without a row; names and
    dtypes are kept in both cases. *)
Theorem filter_all_true_all_false (T : DataFrame) :
  table_inv T →
  ∃ F_all F_none,
    DataFrame_filter T (replicate (row_count T) true) = Ok F_all ∧
    DataFrame_filter T (replicate (row_count T) false) = Ok F_none ∧
    ∀ k, k ∈ columns T →
      ∃ src, col_data T !! k = Some src ∧
        col_data F_all !! k = Some {| name := k; data := data src; dtype := dtype src |} ∧
        col_data F_none !! k = Some {| name := k; data := []; dtype := dtype src |}.
Proof.
  intros Hinv.
  destruct (DataFrame_filter_ok T (replicate (row_count T) true) Hinv)
    as (F1 & HF1 & _ & _ & Hc1); [by rewrite length_replicate|].
  destruct (DataFrame_filter_ok T (replicate (row_count T) false) Hinv)
    as (F2 & HF2 & _ & _ & Hc2); [by rewrite length_replicate|].
  exists F1, F2. split; [done|]. split; [done|]. intros k Hk.
  destruct (inv_columns T Hinv k Hk) as (src & Hsrc & Hsl).
  exists src. split; [done|]. rewrite Hc1, Hc2, !decide_True by done.
  rewrite Hsrc. cbn. unfold filtered_column.
  rewrite <- Hsl at 1. by rewrite select_all_true, select_all_false.
Qed.

Lemma filter_all_true_all_false_witness :
  ∃ F_all F_none,
    DataFrame_filter t_table (replicate (row_count t_table) true) = Ok F_all ∧
    DataFrame_filter t_table (replicate (row_count t_table) false) = Ok F_none ∧
    ∀ k, k ∈ columns t_table →
      ∃ src, col_data t_table !! k = Some src ∧
        col_data F_all !! k = Some {| name := k; data := data src; dtype := dtype src |} ∧
        col_data F_none !! k = Some {| name := k; data := []; dtype := dtype src |}.
Proof. apply (filter_all_true_all_false t_table). exact t_table_inv. Defined.

Lemma data_rows_no_header (df : DataFrame) :
  row_data df = [] → data_rows df = 2 ^ 64 - 1.
Proof. intros Hr. unfold data_rows. rewrite Hr. reflexivity. Qed.

(** X9. A table without a header row, that is a default-constructed table
    or the table read from a file without lines, rejects every mask, the
    empty mask included: [row_data.size() - 1] wraps around to
    [2 ^ 64 - 1]. *)
Theorem filter_empty_table `{StdLib} (path : string) (mask : list bool) :
  Z.of_nat (length mask) < 2 ^ 64 - 1 →
  DataFrame_filter DataFrame_default mask = Throw out_of_range ∧
  ∃ df, DataFrame_read path (Some []) = Ok df ∧
        DataFrame_filter df mask = Throw out_of_range.
Proof.
  intros Hlen. split.
  - apply DataFrame_filter_mismatch. rewrite data_rows_no_header by done. lia.
  - eexists. split; [reflexivity|]. apply DataFrame_filter_mismatch.
    rewrite data_rows_no_header by done. lia.
Qed.

Lemma filter_empty_table_witness :
  DataFrame_filter DataFrame_default [] = Throw out_of_range ∧
  ∃ df, DataFrame_read (H := Binary64.lib) "e.csv" (Some []) = Ok df ∧
        DataFrame_filter df [] = Throw out_of_range.
Proof. apply (filter_empty_table (H := Binary64.lib) "e.csv" []). cbn. lia. Defined.

(** * More on [rename] and on column access *)

Lemma rename_columns_length (old_col_name new_col_name : string) (c : Column) (df : DataFrame) :
  length (columns (rename_column old_col_name new_col_name c df)) = length (columns df).
Proof. unfold rename_column. cbn [columns]. by rewrite length_fmap. Qed.

Lemma rename_columns_self (a : string) (cols : list string) :
  (λ col, if bool_decide (col = a) then a else col) <$> cols = cols.
Proof.
  induction cols as [|col cols IH]; [done|]. rewrite fmap_cons, IH.
  by destruct (bool_decide_reflect (col = a)) as [->|].
Qed.

Lemma rename_columns_back (a b : string) (cols : list string) :
  b ∉ cols →
  (λ col, if bool_decide (col = b) then a else col)
    <$> ((λ col, if bool_decide (col = a) then b else col) <$> cols) = cols.
Proof.
  induction cols as [|col cols IH]; intros Hb; [done|].
  apply not_elem_of_cons in Hb as [Hne Hb]. rewrite !fmap_cons, IH by done.
  destruct (bool_decide_reflect (col = a)) as [->|Hca].
  - by rewrite bool_decide_eq_true_2.
  - by rewrite bool_decide_eq_false_2.
Qed.

(** X10. Renaming one column to a different name.  The column is then
    reached under the new name, with the same values and dtype and its
    [name] field updated; the old name is no longer a key; every other key
    is untouched; [columns] has the new name wherever it had the old one.
    When the new name was already a key, the column stored under it is
    replaced, so the table has one stored column fewer. *)
Theorem rename_one_column (df : DataFrame) (a b : string) (c : Column) :
  col_data df !! a = Some c → a ≠ b →
  ∃ df', DataFrame_rename [(a, b)] df = Done df' ∧
    DataFrame_column df' b = Ok {| name := b; data := data c; dtype := dtype c |} ∧
    DataFrame_column df' a = Throw out_of_range ∧
    (∀ k, k ≠ a → k ≠ b → col_data df' !! k = col_data df !! k) ∧
    size (col_data df') =
      match col_data df !! b with
      | Some _ => pred (size (col_data df))
      | None => size (col_data df)
      end ∧
    (a ∉ columns df') ∧ length (columns df') = length (columns df) ∧
    (∀ i, columns df !! i = Some a → columns df' !! i = Some b) ∧
    (∀ i col, columns df !! i = Some col → col ≠ a → columns df' !! i = Some col) ∧
    row_data df' = row_data df.
Proof.
  intros Hc Hab. eexists. cbn [DataFrame_rename]. rewrite Hc. split; [reflexivity|].
  unfold DataFrame_column, rename_column. cbn [col_data columns row_data].
  split; [|split; [|split; [|split; [|split; [|split; [|split; [|split]]]]]]].
  - by rewrite lookup_delete_ne, lookup_insert_eq by done.
  - by rewrite lookup_delete_eq.
  - intros k Ha Hb. by rewrite lookup_delete_ne, lookup_insert_ne by done.
  - rewrite map_size_delete_Some by (by rewrite lookup_insert_ne, Hc by done).
    destruct (col_data df !! b) as [cb|] eqn:Hb.
    + by rewrite map_size_insert_Some.
    + rewrite map_size_insert_None by done. done.
  - intros [col [Heq Hin]]%list_elem_of_fmap.
    destruct (bool_decide_reflect (col = a)); congruence.
  - by rewrite length_fmap.
  - intros i Hi. rewrite list_lookup_fmap, Hi. cbn. by rewrite bool_decide_eq_true_2.
  - intros i col Hi Hne. rewrite list_lookup_fmap, Hi. cbn. by rewrite bool_decide_eq_false_2.
  - done.
Qed.

Lemma rename_one_column_witness :
  ∃ df', DataFrame_rename [("x", "y")] t_table = Done df' ∧
    DataFrame_column df' "y" = Ok {| name := "y"; data := ["1"; "2"; ""]; dtype := "int" |} ∧
    DataFrame_column df' "x" = Throw out_of_range ∧
    (∀ k, k ≠ "x" → k ≠ "y" → col_data df' !! k = col_data t_table !! k) ∧
    size (col_data df') =
      match col_data t_table !! "y" with
      | Some _ => pred (size (col_data t_table))
      | None => size (col_data t_table)
      end ∧
    ("x" ∉ columns df') ∧ length (columns df') = length (columns t_table) ∧
    (∀ i, columns t_table !! i = Some "x" → columns df' !! i = Some "y") ∧
    (∀ i col, columns t_table !! i = Some col → col ≠ "x" → columns df' !! i = Some col) ∧
    row_data df' = row_data t_table.
Proof.
  apply (rename_one_column t_table "x" "y"
           {| name := "x"; data := ["1"; "2"; ""]; dtype := "int" |}).
  - reflexivity.
  - discriminate.
Defined.

Lemma filter_columns_absent (src : gmap string Column) (mask : list bool) (cols : list string)
    (dst : gmap string Column) (a : string) :
  a ∈ cols → src !! a = None →
  (∀ k c, k ∈ cols → src !! k = Some c → length (data c) = length mask) →
  filter_columns src mask (length mask) cols dst = Throw out_of_range.
Proof.
  revert dst. induction cols as [|k cols IH]; intros dst Ha Hnone Hlen.
  - by apply elem_of_nil in Ha.
  - cbn [filter_columns]. unfold map_at. destruct (src !! k) as [c|] eqn:Hk; [|done].
    cbn [mbind outcome_bind].
    rewrite filter_loop_select by (rewrite (Hlen k c); [lia|by left|done]).
    cbn [mbind outcome_bind]. apply IH.
    + apply elem_of_cons in Ha as [->|Ha]; [congruence|done].
    + done.
    + intros k' c' Hk' Hc'. apply (Hlen k' c'); [by right|done].
Qed.

(** X11. Renaming a column to its own name removes it from the column map
    and leaves [columns] as it was.  The column can then no longer be
    accessed, and on a table that satisfied the representation invariant
    with that column listed, the mask filter throws [std::out_of_range] for
    every mask, of the right length or not. *)
Theorem rename_to_itself (df : DataFrame) (a : string) (c : Column) :
  col_data df !! a = Some c →
  ∃ df', DataFrame_rename [(a, a)] df = Done df' ∧
    col_data df' = delete a (col_data df) ∧ columns df' = columns df ∧
    row_data df' = row_data df ∧
    DataFrame_column df' a = Throw out_of_range ∧
    (table_inv df → a ∈ columns df →
     ∀ mask, DataFrame_filter df' mask = Throw out_of_range).
Proof.
  intros Hc. eexists. cbn [DataFrame_rename]. rewrite Hc. split; [reflexivity|].
  unfold rename_column. cbn [col_data columns row_data].
  assert (Hmap : delete a (<[a:={| name := a; data := data c; dtype := dtype c |}]> (col_data df))
                 = delete a (col_data df)) by apply delete_insert_eq.
  rewrite Hmap, rename_columns_self.
  split; [done|]. split; [done|]. split; [done|]. split.
  - unfold DataFrame_column. cbn [col_data]. by rewrite lookup_delete_eq.
  - intros Hinv Ha mask.
    destruct (decide (Z.of_nat (length mask) = data_rows df)) as [Hlen|Hlen].
    + unfold DataFrame_filter, data_rows in *. cbn [row_data col_data columns].
      rewrite Hlen, Z.eqb_refl. cbn [negb].
      fold (data_rows df) in *. rewrite (data_rows_inv df Hinv) in *.
      apply Nat2Z.inj in Hlen. rewrite Nat2Z.id.
      destruct Hinv as [Hh Hs Hcols].
      destruct (row_data df) as [|header rows] eqn:Hrd; [done|].
      unfold vec_index at 1. cbn [lookup list_lookup mbind outcome_bind].
      assert (Hrc : row_count df = length rows) by (unfold row_count; by rewrite Hrd).
      rewrite <- Hlen. rewrite filter_loop_ok by (cbn [length]; lia).
      cbn [mbind outcome_bind].
      rewrite (filter_columns_absent _ _ _ _ a); [done|done|apply lookup_delete_eq|].
      intros k ck Hk Hck. apply lookup_delete_Some in Hck as [Hne Hck].
      destruct (Hcols k Hk) as (ck' & Hck' & Hl). rewrite Hck in Hck'.
      injection Hck' as <-. lia.
    + apply DataFrame_filter_mismatch. unfold data_rows in *. by cbn [row_data].
Qed.

Lemma rename_to_itself_witness :
  ∃ df', DataFrame_rename [("x", "x")] t_table = Done df' ∧
    col_data df' = delete "x" (col_data t_table) ∧ columns df' = columns t_table ∧
    row_data df' = row_data t_table ∧
    DataFrame_column df' "x" = Throw out_of_range ∧
    (table_inv t_table → "x" ∈ columns t_table →
     ∀ mask, DataFrame_filter df' mask = Throw out_of_range).
Proof.
  apply (rename_to_itself t_table "x" {| name := "x"; data := ["1"; "2"; ""]; dtype := "int" |}).
  reflexivity.
Defined.

(** X12. Renaming a column to a name that is neither a key of the column
    map nor listed in [columns], and back, restores the table, provided
    the column's [name] field was its key. *)
Theorem rename_round_trip (df : DataFrame) (a b : string) (c : Column) :
  col_data df !! a = Some c → name c = a →
  col_data df !! b = None → b ∉ columns df →
  DataFrame_rename [(a, b); (b, a)] df = Done df.
Proof.
  intros Hc Hname Hb Hcols.
  assert (Hab : a ≠ b) by congruence.
  cbn [DataFrame_rename]. rewrite Hc.
  assert (H1 : col_data (rename_column a b c df) !! b
               = Some {| name := b; data := data c; dtype := dtype c |}).
  { unfold rename_column. cbn [col_data]. by rewrite lookup_delete_ne, lookup_insert_eq. }
  rewrite H1. clear H1.
  unfold rename_column. cbn [col_data columns row_data file_dir name data dtype].
  rewrite rename_columns_back by done.
  destruct df as [m rows dir cols]. cbn [col_data columns row_data file_dir] in *.
  f_equal. f_equal. apply map_eq. intros k.
  destruct (decide (k = b)) as [->|Hkb]; [by rewrite lookup_delete_eq, Hb|].
  rewrite lookup_delete_ne by done.
  destruct (decide (k = a)) as [->|Hka].
  - rewrite lookup_insert_eq, Hc. f_equal. destruct c as [n d t]. cbn in *. by subst n.
  - rewrite lookup_insert_ne, lookup_delete_ne, lookup_insert_ne by done. done.
Qed.

Lemma rename_round_trip_witness :
  DataFrame_rename [("x", "u"); ("u", "x")] t_table = Done t_table.
Proof.
  apply (rename_round_trip t_table "x" "u"
           {| name := "x"; data := ["1"; "2"; ""]; dtype := "int" |}).
  - reflexivity.
  - reflexivity.
  - reflexivity.
  - cbn [t_table columns]. intros Hin.
    repeat (apply elem_of_cons in Hin as [Hin|Hin]; [discriminate|]).
    by apply elem_of_nil in Hin.
Defined.

(** X13. Renaming a listed column to a different name keeps the
    representation invariant and the row count: every name in the new
    [columns] is a key of a column with as many values as before. *)
Theorem rename_keeps_invariant (df : DataFrame) (a b : string) :
  table_inv df → a ∈ columns df → a ≠ b →
  ∃ df', DataFrame_rename [(a, b)] df = Done df' ∧ table_inv df' ∧
    row_count df' = row_count df ∧ b ∈ columns df'.
Proof.
  intros Hinv Ha Hab. destruct (inv_columns df Hinv a Ha) as (c & Hc & Hl).
  eexists. cbn [DataFrame_rename]. rewrite Hc. split; [reflexivity|].
  assert (Hrc : row_count (rename_column a b c df) = row_count df) by done.
  split; [|split; [done|]].
  - destruct Hinv as [Hh Hs Hcols]. split; [done|done|].
    rewrite Hrc. unfold rename_column. cbn [columns col_data].
    intros k [col [-> Hin]]%list_elem_of_fmap.
    destruct (bool_decide_reflect (col = a)) as [->|Hne].
    + eexists. rewrite lookup_delete_ne, lookup_insert_eq by done. split; [done|]. done.
    + destruct (decide (col = b)) as [->|Hcb].
      * eexists. rewrite lookup_delete_ne, lookup_insert_eq by done. split; [done|]. done.
      * rewrite lookup_delete_ne, lookup_insert_ne by done. by apply Hcols.
  - unfold rename_column. cbn [columns]. apply list_elem_of_fmap.
    exists a. by rewrite bool_decide_eq_true_2.
Qed.

Lemma rename_keeps_invariant_witness :
  ∃ df', DataFrame_rename [("x", "y")] t_table = Done df' ∧ table_inv df' ∧
    row_count df' = row_count t_table ∧ "y" ∈ columns df'.
Proof.
  apply (rename_keeps_invariant t_table "x" "y").
  - exact t_table_inv.
  - by left.
  - discriminate.
Defined.

(** * More on [dropna] *)

Lemma missing_from_no_missing (i : nat) (elements : list string) :
  "" ∉ elements → missing_from i elements = [].
Proof.
  revert i. induction elements as [|element rest IH]; intros i Hno; [done|].
  apply not_elem_of_cons in Hno as [Hne Hno]. cbn [missing_from].
  assert (Hm : missing element = false) by (apply missing_false_iff; congruence).
  rewrite Hm. by apply IH.
Qed.

Lemma missing_from_some_missing (i : nat) (elements : list string) :
  "" ∈ elements → missing_from i elements ≠ [].
Proof.
  revert i. induction elements as [|element rest IH]; intros i Hin.
  - by apply elem_of_nil in Hin.
  - cbn [missing_from]. destruct (missing element) eqn:Hm; [done|].
    apply IH. apply elem_of_cons in Hin as [<-|Hin]; [done|done].
Qed.

Lemma DataFrame_eta (df : DataFrame) :
  {| col_data := col_data df; row_data := row_data df;
     file_dir := file_dir df; columns := columns df |} = df.
Proof. by destruct df. Qed.

Lemma DataFrame_dropna_ok (df : DataFrame) (col : string) (c0 : Column) :
  col_data df !! col = Some c0 →
  (∀ k c, col_data df !! k = Some c → length (data c) = length (data c0)) →
  Z.of_nat (length (data c0)) < 2 ^ 31 →
  DataFrame_dropna df col
  = Ok {| col_data := with_data (select (keep_mask (data c0))) <$> col_data df;
          row_data := row_data df; file_dir := file_dir df; columns := columns df |}.
Proof.
  intros Hcol Hlen Hsize. unfold DataFrame_dropna. rewrite Hcol. cbv zeta. rewrite Hcol.
  cbn [fmap option_fmap option_map default]. unfold id.
  change (erase_rows (missing_from 0 (data c0)) 0 (col_data df))
    with (erase_rows (missing_from 0 (data c0)) (Z.of_nat 0) (col_data df)).
  rewrite (erase_rows_ok (data c0) 0 0 (col_data df)); [|lia|cbn; lia|].
  - cbn [mbind outcome_bind]. do 2 f_equal.
  - intros k c Hc. apply Hlen in Hc. cbn. lia.
Qed.

(** X14. [dropna] on a column that holds no missing value leaves the table
    as it is, whatever the other columns look like; and under the
    conditions of C6 a second [dropna] on the same column changes nothing
    more. *)
Theorem dropna_idempotent (df : DataFrame) (col : string) (c0 : Column) :
  col_data df !! col = Some c0 →
  ("" ∉ data c0 → DataFrame_dropna df col = Ok df) ∧
  ((∀ k c, col_data df !! k = Some c → length (data c) = length (data c0)) →
   Z.of_nat (length (data c0)) < 2 ^ 31 →
   ∃ df', DataFrame_dropna df col = Ok df' ∧ DataFrame_dropna df' col = Ok df').
Proof.
  intros Hcol.
  assert (Hid : ∀ d c, col_data d !! col = Some c → "" ∉ data c → DataFrame_dropna d col = Ok d).
  { intros d c Hc Hno. unfold DataFrame_dropna. rewrite Hc. cbv zeta. rewrite Hc.
    cbn [fmap option_fmap option_map default]. unfold id.
    rewrite missing_from_no_missing by done. cbn [erase_rows mbind outcome_bind].
    by rewrite DataFrame_eta. }
  split; [by apply Hid|]. intros Hlen Hsize.
  eexists. split; [by apply DataFrame_dropna_ok|].
  eapply Hid.
  - cbn [col_data]. rewrite lookup_fmap, Hcol. reflexivity.
  - cbn [with_data data]. rewrite select_keep_mask. apply present_no_missing.
Qed.

Lemma dropna_idempotent_witness :
  DataFrame_dropna t_table "y" = Ok t_table ∧
  ∃ df', DataFrame_dropna t_table "x" = Ok df' ∧ DataFrame_dropna df' "x" = Ok df'.
Proof.
  split.
  - destruct (dropna_idempotent t_table "y"
                {| name := "y"; data := ["a"; "b"; "c"]; dtype := "string" |}) as [Hsame _];
      [reflexivity|].
    apply Hsame. cbn [data]. rewrite !elem_of_cons, elem_of_nil. intros [?|[?|[?|?]]]; done.
  - destruct (dropna_idempotent t_table "x"
                {| name := "x"; data := ["1"; "2"; ""]; dtype := "int" |}) as [_ Htwice];
      [reflexivity|].
    apply Htwice.
    + intros k c Hc. cbn [t_table col_data] in Hc.
      destruct (decide (k = "x")) as [->|Hx]; [by injection Hc as <-|].
      destruct (decide (k = "y")) as [->|Hy]; [by injection Hc as <-|].
      destruct (decide (k = "z")) as [->|Hz]; [by injection Hc as <-|].
      rewrite !lookup_insert_ne in Hc by done. by rewrite lookup_singleton_ne in Hc.
    + cbn. lia.
Defined.

(** X15. [dropna] with a name that is not a key of the column map does not
    fail: [col_data[col]] adds a default-constructed column (no values,
    empty [name], dtype ["string"]) under that name and no row is removed.
    From then on the table holds a column without rows, and a later
    [dropna] that has a row to remove erases from that empty column:
    undefined behaviour. *)
Theorem dropna_unknown_column (df : DataFrame) (u : string) :
  col_data df !! u = None →
  ∃ df1, DataFrame_dropna df u = Ok df1 ∧
    col_data df1 = <[u := Column_default]> (col_data df) ∧
    columns df1 = columns df ∧ row_data df1 = row_data df ∧
    DataFrame_column df1 u = Ok Column_default ∧
    ∀ col c0, col_data df !! col = Some c0 → "" ∈ data c0 →
      DataFrame_dropna df1 col = Undefined.
Proof.
  intros Hu. eexists. unfold DataFrame_dropna at 1. rewrite Hu. cbv zeta.
  rewrite lookup_insert_eq. cbn [fmap option_fmap option_map default Column_default data].
  unfold id. cbn [missing_from erase_rows mbind outcome_bind].
  split; [reflexivity|]. cbn [col_data columns row_data].
  split; [done|]. split; [done|]. split; [done|]. split.
  - unfold DataFrame_column. cbn [col_data]. by rewrite lookup_insert_eq.
  - intros col c0 Hc Hin. assert (Hne : u ≠ col) by congruence.
    unfold DataFrame_dropna. cbn [col_data].
    rewrite lookup_insert_ne, Hc by done. cbv zeta. rewrite lookup_insert_ne, Hc by done.
    cbn [fmap option_fmap option_map default]. unfold id.
    pose proof (missing_from_some_missing 0 (data c0) Hin) as Hrem.
    destruct (missing_from 0 (data c0)) as [|idx rest]; [done|].
    cbn [erase_rows].
    assert (Hund : erase_all (ptrdiff_wrap (size_t_wrap idx) - 0)
                     (<[u:=Column_default]> (col_data df)) = Undefined).
    { unfold erase_all.
      destruct (decide (0 ≤ ptrdiff_wrap (size_t_wrap idx) - 0)) as [Hp|Hp].
      - rewrite (bool_decide_eq_false_2 (map_Forall _ _)); [by rewrite andb_false_r|].
        intros Hall. specialize (Hall u Column_default). cbn in Hall.
        rewrite lookup_insert_eq in Hall. specialize (Hall eq_refl). lia.
      - by rewrite (bool_decide_eq_false_2 (0 ≤ _)). }
    by rewrite Hund.
Qed.

Lemma dropna_unknown_column_witness :
  ∃ df1, DataFrame_dropna t_table "q" = Ok df1 ∧
    col_data df1 = <["q" := Column_default]> (col_data t_table) ∧
    columns df1 = columns t_table ∧ row_data df1 = row_data t_table ∧
    DataFrame_column df1 "q" = Ok Column_default ∧
    ∀ col c0, col_data t_table !! col = Some c0 → "" ∈ data c0 →
      DataFrame_dropna df1 col = Undefined.
Proof. apply (dropna_unknown_column t_table "q"). reflexivity. Defined.

Lemma filter_loop_short {A} (src : list A) (n i k : nat) (out : list A) :
  (i + k = n)%nat → (i ≤ length src < n)%nat →
  filter_loop (replicate n true) src 0 i k out = Undefined.
Proof.
  revert i out. induction k as [|k IH]; intros i out Hik Hlen; [lia|].
  cbn [filter_loop]. unfold vec_index.
  rewrite lookup_replicate_2 by lia. cbn [mbind outcome_bind].
  rewrite Nat.add_0_r.
  destruct (src !! i) as [x|] eqn:Hx; cbn [mbind outcome_bind]; [|done].
  apply IH; [lia|]. apply lookup_lt_Some in Hx. lia.
Qed.

Lemma present_shorter (elements : list string) :
  "" ∈ elements → (length (present elements) < length elements)%nat.
Proof.
  induction elements as [|element rest IH]; intros Hin; [by apply elem_of_nil in Hin|].
  pose proof (present_length rest) as Hpl.
  destruct (missing element) eqn:Hm.
  - rewrite present_cons_missing by done. cbn [length]. lia.
  - rewrite present_cons_value by done. cbn [length].
    apply elem_of_cons in Hin as [<-|Hin]; [done|]. apply IH in Hin. lia.
Qed.

(** X16. After a [dropna] that removed at least one row, the mask filter
    cannot select from the table any more: the row buffer still has the
    old number of rows, so a mask with one entry per remaining row is
    rejected with [std::out_of_range], and the all-true mask of the old
    length reads past the end of the shortened columns (undefined
    behaviour). *)
Theorem filter_after_dropna (T : DataFrame) (col : string) (c0 : Column) :
  table_inv T → col ∈ columns T → col_data T !! col = Some c0 →
  (∀ k c, col_data T !! k = Some c → length (data c) = length (data c0)) →
  Z.of_nat (length (data c0)) < 2 ^ 31 → "" ∈ data c0 →
  ∃ T', DataFrame_dropna T col = Ok T' ∧
    (∀ k, k ∈ columns T' →
       ∃ c', col_data T' !! k = Some c' ∧ length (data c') = length (present (data c0))) ∧
    (∀ m, length m = length (present (data c0)) →
          DataFrame_filter T' m = Throw out_of_range) ∧
    DataFrame_filter T' (replicate (row_count T) true) = Undefined.
Proof.
  intros Hinv Hcol Hc0 Hlen Hsize Hin.
  eexists. split; [by apply DataFrame_dropna_ok|].
  pose proof (present_shorter _ Hin) as Hshort.
  destruct (inv_columns T Hinv col Hcol) as (c0' & Hc0' & Hrc).
  rewrite Hc0 in Hc0'. injection Hc0' as <-.
  assert (Hcols : ∀ k, k ∈ columns T →
            ∃ c', (with_data (select (keep_mask (data c0))) <$> col_data T) !! k = Some c' ∧
                  length (data c') = length (present (data c0))).
  { intros k Hk. destruct (inv_columns T Hinv k Hk) as (c & Hc & Hl).
    rewrite lookup_fmap, Hc. eexists. split; [reflexivity|]. cbn [with_data data].
    rewrite select_length by (unfold keep_mask; rewrite length_fmap; lia).
    apply keep_mask_count. }
  split; [exact Hcols|]. split.
  - intros m Hm. apply DataFrame_filter_mismatch. unfold data_rows. cbn [row_data].
    fold (data_rows T). rewrite (data_rows_inv T Hinv). lia.
  - unfold DataFrame_filter, data_rows. cbn [row_data col_data columns].
    fold (data_rows T). rewrite (data_rows_inv T Hinv), length_replicate, Z.eqb_refl, Nat2Z.id.
    cbn [negb]. destruct Hinv as [Hh Hs Hic].
    destruct (row_data T) as [|header rows] eqn:Hrd; [done|].
    unfold vec_index at 1. cbn [lookup list_lookup mbind outcome_bind].
    assert (Hrows : row_count T = length rows) by (unfold row_count; by rewrite Hrd).
    rewrite (filter_loop_ok (replicate (row_count T) true) (header :: rows) 1 0 (row_count T))
      by (rewrite ?length_replicate; cbn [length]; lia).
    cbn [mbind outcome_bind].
    destruct (columns T) as [|k1 cols] eqn:Hcs; [by apply elem_of_nil in Hcol|].
    cbn [filter_columns]. destruct (Hcols k1) as (c' & Hc' & Hl'); [by left|].
    unfold map_at. rewrite Hc'. cbn [mbind outcome_bind].
    rewrite (filter_loop_short (data c') (row_count T) 0 (row_count T)); [done|lia|lia].
Qed.

Lemma filter_after_dropna_witness :
  ∃ T', DataFrame_dropna t_table "x" = Ok T' ∧
    (∀ k, k ∈ columns T' →
       ∃ c', col_data T' !! k = Some c' ∧
             length (data c') = length (present (data {| name := "x"; data := ["1"; "2"; ""]; dtype := "int" |}))) ∧
    (∀ m, length m = length (present (data {| name := "x"; data := ["1"; "2"; ""]; dtype := "int" |})) →
          DataFrame_filter T' m = Throw out_of_range) ∧
    DataFrame_filter T' (replicate (row_count t_table) true) = Undefined.
Proof.
  apply (filter_after_dropna t_table "x"
           {| name := "x"; data := ["1"; "2"; ""]; dtype := "int" |}).
  - exact t_table_inv.
  - by left.
  - reflexivity.
  - intros k c Hc. cbn [t_table col_data] in Hc.
    destruct (decide (k = "x")) as [->|Hx]; [by injection Hc as <-|].
    destruct (decide (k = "y")) as [->|Hy]; [by injection Hc as <-|].
    destruct (decide (k = "z")) as [->|Hz]; [by injection Hc as <-|].
    rewrite !lookup_insert_ne in Hc by done. by rewrite lookup_singleton_ne in Hc.
  - cbn. lia.
  - do 2 right. by left.
Defined.

(** * More on [fillna] *)

Section FillnaMore.
Context `{StdLib}.

Lemma Column_fillna_loop_cast (dt : string) (elements : list string) (x : fill_value) :
  Column_fillna_loop dt elements x
  = match elements with
    | [] => Ok []
    | element :: rest =>
        if missing element then
          x' ← (if bool_decide (dt = "int") then fill_cast_int x else Ok x);
          rest' ← Column_fillna_loop dt rest x';
          Ok (fill_to_string x' :: rest')
        else
          rest' ← Column_fillna_loop dt rest x;
          Ok (element :: rest')
    end.
Proof. by destruct elements. Qed.

(** Once the cast leaves the parameter alone, the loop is a map. *)
Lemma Column_fillna_loop_fixed (dt : string) (elements : list string) (x : fill_value) :
  (if bool_decide (dt = "int") then fill_cast_int x else Ok x) = Ok x →
  Column_fillna_loop dt elements x = Ok (fill_element x <$> elements).
Proof.
  intros Hx. induction elements as [|e rest IH]; [done|].
  rewrite Column_fillna_loop_cast. cbn [fmap list_fmap]. unfold fill_element at 1.
  destruct (missing e).
  - rewrite Hx. cbn [mbind outcome_bind]. by rewrite IH.
  - by rewrite IH.
Qed.

(** The first missing element replaces the parameter by its cast; the cast
    of the cast is the same value. *)
Lemma Column_fillna_loop_first (dt : string) (elements : list string) (x x' : fill_value) :
  (if bool_decide (dt = "int") then fill_cast_int x else Ok x) = Ok x' → (if bool_decide (dt = "int") then fill_cast_int x' else Ok x') = Ok x' →
  Column_fillna_loop dt elements x = Ok (fill_element x' <$> elements).
Proof.
  intros Hx Hx'. induction elements as [|e rest IH]; [done|].
  rewrite Column_fillna_loop_cast. cbn [fmap list_fmap]. unfold fill_element at 1.
  destruct (missing e).
  - rewrite Hx. cbn [mbind outcome_bind]. by rewrite Column_fillna_loop_fixed.
  - by rewrite IH.
Qed.

Lemma Column_fillna_loop_no_missing (dt : string) (elements : list string) (x : fill_value) :
  "" ∉ elements → Column_fillna_loop dt elements x = Ok elements.
Proof.
  induction elements as [|e rest IH]; [done|]. intros Hno.
  rewrite Column_fillna_loop_cast.
  destruct (missing e) eqn:He.
  - apply missing_iff in He. subst e. exfalso. apply Hno. by left.
  - rewrite IH; [done|]. intros Hin. apply Hno. by right.
Qed.

Lemma Column_fillna_loop_undefined (dt : string) (elements : list string) (x : fill_value) :
  "" ∈ elements → (if bool_decide (dt = "int") then fill_cast_int x else Ok x) = Undefined →
  Column_fillna_loop dt elements x = Undefined.
Proof.
  intros Hin Hx. induction elements as [|e rest IH]; [by apply elem_of_nil in Hin|].
  rewrite Column_fillna_loop_cast.
  destruct (missing e) eqn:He.
  - by rewrite Hx.
  - rewrite IH; [done|]. apply elem_of_cons in Hin as [Heq|Hin]; [subst e; by cbn in He|done].
Qed.

Lemma fill_element_lookup (x : fill_value) (elements : list string) (i : nat) (v : string) :
  elements !! i = Some v →
  (fill_element x <$> elements) !! i = Some (if missing v then fill_to_string x else v).
Proof. intros Hv. by rewrite list_lookup_fmap, Hv. Qed.

Lemma fill_element_no_missing (x : fill_value) (elements : list string) :
  missing (fill_to_string x) = false → "" ∉ fill_element x <$> elements.
Proof.
  intros Hx [u [Heq Hu]]%list_elem_of_fmap. unfold fill_element in Heq.
  destruct (missing u) eqn:Hmu.
  - by rewrite <- Heq in Hx.
  - by subst u.
Qed.

Lemma fill_element_fixed (x y : fill_value) (elements : list string) :
  missing (fill_to_string x) = false →
  fill_element y <$> (fill_element x <$> elements) = fill_element x <$> elements.
Proof.
  intros Hx. rewrite <- list_fmap_compose. apply list_fmap_ext. intros _ v _.
  cbn. unfold fill_element. destruct (missing v) eqn:Hv.
  - by rewrite Hx.
  - by rewrite Hv.
Qed.

Lemma to_string_int_present (z : Z) :
  INT_MIN ≤ z ≤ INT_MAX → missing (to_string_int z) = false.
Proof.
  intros Hz. pose proof (is_integer_to_string_int z Hz) as Hint.
  destruct (missing (to_string_int z)) eqn:Hm; [|done].
  apply missing_iff in Hm. by rewrite Hm in Hint.
Qed.

(** [dropna] on a column without a missing value changes nothing. *)
Lemma DataFrame_dropna_no_missing (df : DataFrame) (col : string) (c : Column) :
  col_data df !! col = Some c → "" ∉ data c → DataFrame_dropna df col = Ok df.
Proof.
  intros Hc Hno. unfold DataFrame_dropna. rewrite Hc. cbv zeta. rewrite Hc.
  cbn [fmap option_fmap option_map default]. unfold id.
  rewrite missing_from_no_missing by done. cbn [erase_rows mbind outcome_bind].
  by rewrite DataFrame_eta.
Qed.

(** Filtering a vector of mapped values gives the mapped filtered
    values, with the same failures. *)
Lemma vec_index_fmap {A B} (f : A → B) (l : list A) (i : nat) :
  vec_index (fmap (M := list) f l) i = (x ← vec_index l i; Ok (f x)).
Proof. unfold vec_index. rewrite list_lookup_fmap. by destruct (l !! i). Qed.

Lemma filter_loop_fmap {A B} (f : A → B) (mask : list bool) (src : list A)
    (off i n : nat) (out : list A) :
  filter_loop mask (fmap (M := list) f src) off i n (fmap (M := list) f out)
  = (r ← filter_loop mask src off i n out; Ok (fmap (M := list) f r)).
Proof.
  revert i out. induction n as [|n IH]; intros i out; [done|].
  cbn [filter_loop]. destruct (vec_index mask i) as [[|]| |]; cbn [mbind outcome_bind]; try done.
  rewrite vec_index_fmap. destruct (vec_index src (i + off)) as [a| |]; cbn [mbind outcome_bind]; try done.
  rewrite <- IH. by rewrite fmap_app.
Qed.

Lemma filter_columns_fmap (f : string → string) (src : gmap string Column) (mask : list bool)
    (n : nat) (cols : list string) (dst : gmap string Column) :
  filter_columns (with_data (fmap (M := list) f) <$> src) mask n cols
    (with_data (fmap (M := list) f) <$> dst)
  = (r ← filter_columns src mask n cols dst;
     Ok (fmap (M := gmap string) (with_data (fmap (M := list) f)) r)).
Proof.
  revert dst. induction cols as [|k cols IH]; intros dst; [done|].
  cbn [filter_columns]. unfold map_at. rewrite lookup_fmap.
  destruct (src !! k) as [c|]; cbn [fmap option_fmap option_map mbind outcome_bind]; [|done].
  cbn [with_data data dtype].
  change (@nil string) with (f <$> @nil string) at 1. rewrite filter_loop_fmap.
  destruct (filter_loop mask (data c) 0 0 n []) as [d| |]; cbn [mbind outcome_bind]; try done.
  rewrite <- IH. by rewrite fmap_insert.
Qed.

(** X17. [Column::fillna] with an [int] argument never fails: the column
    keeps its name, dtype and length, every missing element becomes the
    decimal text of the argument, every other element is left as it is,
    and no missing element is left.  An all-integer column stays
    all-integer. *)
Theorem Column_fillna_int_spec (c : Column) (z : Z) :
  INT_MIN ≤ z ≤ INT_MAX →
  ∃ c', Column_fillna c (fill_int z) = Ok c' ∧
    name c' = name c ∧ dtype c' = dtype c ∧ length (data c') = length (data c) ∧
    (∀ i v, data c !! i = Some v →
            data c' !! i = Some (if missing v then to_string_int z else v)) ∧
    ("" ∉ data c') ∧
    (all_integer (data c) → all_integer (data c')).
Proof.
  intros Hz. unfold Column_fillna.
  rewrite Column_fillna_loop_fixed by (by destruct (bool_decide _)).
  cbn [mbind outcome_bind]. eexists. split; [reflexivity|]. cbn [name data dtype].
  split; [done|]. split; [done|]. split; [by rewrite length_fmap|].
  split; [intros i v Hv; by apply (fill_element_lookup (fill_int z))|].
  split; [apply fill_element_no_missing; by apply to_string_int_present|].
  intros Hall v [u [-> Hu]]%list_elem_of_fmap Hm. unfold fill_element in *.
  destruct (missing u) eqn:Hmu; [by apply is_integer_to_string_int|by apply Hall].
Qed.

(** X18. The two [fillna] agree on a column whenever no cast is involved:
    for an [int] argument, and for a [double] argument on a column whose
    dtype is not ["int"], [Column::fillna] on a stored column gives the
    column that [DataFrame::fillna] stores under the same key. *)
Theorem fillna_column_agrees_with_table (df : DataFrame) (k : string) (c : Column)
    (x : fill_value) :
  col_data df !! k = Some c →
  dtype c ≠ "int" ∨ (∃ z, x = fill_int z) →
  ∃ c', Column_fillna c x = Ok c' ∧ col_data (DataFrame_fillna df x) !! k = Some c'.
Proof.
  intros Hc Hx. unfold Column_fillna. rewrite Column_fillna_loop_fixed.
  - cbn [mbind outcome_bind]. eexists. split; [reflexivity|].
    by rewrite DataFrame_fillna_lookup, Hc.
  - destruct Hx as [Hd|[z ->]].
    + by rewrite bool_decide_eq_false_2.
    + by destruct (bool_decide _).
Qed.

(** X19. [Column::fillna] with a [double] argument on an ["int"] column
    with a missing value: the argument is truncated to an [int] and
    converted back, and it is the text of that [double] that is stored in
    every missing element. *)
Theorem Column_fillna_double_truncates (c : Column) (d : double) (z : Z) :
  dtype c = "int" →
  int_of_double d = Ok z → int_of_double (double_of_int z) = Ok z →
  ∃ c', Column_fillna c (fill_double d) = Ok c' ∧
    name c' = name c ∧ dtype c' = "int" ∧ length (data c') = length (data c) ∧
    ∀ i v, data c !! i = Some v →
      data c' !! i = Some (if missing v then to_string_double (double_of_int z) else v).
Proof.
  intros Hd Hz Hzz. unfold Column_fillna.
  rewrite (Column_fillna_loop_first _ _ _ (fill_double (double_of_int z))).
  - cbn [mbind outcome_bind]. eexists. split; [reflexivity|]. cbn [name data dtype].
    split; [done|]. split; [done|]. split; [by rewrite length_fmap|].
    intros i v Hv. by apply (fill_element_lookup (fill_double (double_of_int z))).
  - rewrite bool_decide_eq_true_2 by done. cbn [fill_cast_int].
    by rewrite Hz.
  - rewrite bool_decide_eq_true_2 by done. cbn [fill_cast_int].
    by rewrite Hzz.
Qed.

(** X20. The cast of [Column::fillna] is reached only at a missing
    element.  A column without a missing value is returned as it is
    whatever the argument; on an ["int"] column with a missing value an
    argument whose truncation does not fit an [int] (a NaN, an infinity, a
    value beyond the [int] range) is undefined behaviour. *)
Theorem Column_fillna_cast_reached (c : Column) (d : double) :
  ("" ∉ data c → Column_fillna c (fill_double d) = Ok c) ∧
  ("" ∈ data c → dtype c = "int" → int_of_double d = Undefined →
   Column_fillna c (fill_double d) = Undefined).
Proof.
  split.
  - intros Hno. unfold Column_fillna. rewrite Column_fillna_loop_no_missing by done.
    cbn [mbind outcome_bind]. by destruct c.
  - intros Hin Hd Hu. unfold Column_fillna. rewrite Column_fillna_loop_undefined; [done|done|].
    rewrite bool_decide_eq_true_2 by done. cbn [fill_cast_int].
    by rewrite Hu.
Qed.

(** X21. After [DataFrame::fillna] with an argument whose text is not
    empty, no stored column has a missing value; a second [fillna], with
    any argument, and a [dropna] on any stored column leave the table as
    it is. *)
Theorem fillna_leaves_nothing_missing (df : DataFrame) (x : fill_value) :
  missing (fill_to_string x) = false →
  (∀ k c, col_data (DataFrame_fillna df x) !! k = Some c → "" ∉ data c) ∧
  (∀ y, DataFrame_fillna (DataFrame_fillna df x) y = DataFrame_fillna df x) ∧
  (∀ col, is_Some (col_data df !! col) →
          DataFrame_dropna (DataFrame_fillna df x) col = Ok (DataFrame_fillna df x)).
Proof.
  intros Hx.
  assert (Hno : ∀ k c, col_data (DataFrame_fillna df x) !! k = Some c → "" ∉ data c).
  { intros k c. rewrite DataFrame_fillna_lookup.
    destruct (col_data df !! k) as [c0|]; [|done]. intros [= <-].
    cbn [with_data data]. by apply fill_element_no_missing. }
  split; [exact Hno|]. split.
  - intros y. unfold DataFrame_fillna. cbn [col_data row_data file_dir columns]. f_equal.
    rewrite <- map_fmap_compose. apply map_fmap_ext. intros k c _.
    cbn [compose name data dtype]. f_equal. by apply fill_element_fixed.
  - intros col [c Hc].
    apply (DataFrame_dropna_no_missing _ col (with_data (fmap (fill_element x)) c)).
    + by rewrite DataFrame_fillna_lookup, Hc.
    + cbn [with_data data]. by apply fill_element_no_missing.
Qed.

(** X22. Mask filtering and [DataFrame::fillna] commute on the columns:
    filtering the filled table succeeds, throws or is undefined exactly
    when filtering the table does, and gives the filled filtered table.
    ([fillna] does not touch the row buffer, so the rows of both still
    show the missing values.) *)
Theorem filter_commutes_with_fillna (df : DataFrame) (x : fill_value) (mask : list bool) :
  DataFrame_filter (DataFrame_fillna df x) mask
  = (F ← DataFrame_filter df mask; Ok (DataFrame_fillna F x)).
Proof.
  unfold DataFrame_filter, data_rows. cbn [DataFrame_fillna row_data col_data columns file_dir].
  destruct (negb _); [done|].
  destruct (vec_index (row_data df) 0) as [header| |]; cbn [mbind outcome_bind]; try done.
  destruct (filter_loop mask (row_data df) 1 0 _ _) as [rows| |]; cbn [mbind outcome_bind]; try done.
  change (λ c, {| name := name c; data := fill_element x <$> data c; dtype := dtype c |})
    with (with_data (fmap (fill_element x))).
  rewrite filter_columns_fmap.
  by destruct (filter_columns (col_data df) mask _ (columns df) (col_data df)).
Qed.

End FillnaMore.

Lemma Column_fillna_int_spec_witness :
  ∃ c', Column_fillna (H := Binary64.lib)
          {| name := "x"; data := ["1"; "2"; ""]; dtype := "int" |} (fill_int 7) = Ok c' ∧
    name c' = "x" ∧ dtype c' = "int" ∧ length (data c') = 3%nat ∧
    (∀ i v, ["1"; "2"; ""] !! i = Some v →
            data c' !! i = Some (if missing v then to_string_int 7 else v)) ∧
    ("" ∉ data c') ∧
    (all_integer ["1"; "2"; ""] → all_integer (data c')).
Proof.
  apply (Column_fillna_int_spec (H := Binary64.lib)
           {| name := "x"; data := ["1"; "2"; ""]; dtype := "int" |} 7).
  unfold INT_MIN, INT_MAX. lia.
Defined.

Lemma fillna_column_agrees_with_table_witness :
  ∃ c', Column_fillna (H := Binary64.lib)
          {| name := "z"; data := ["2.5"; ""; "1"]; dtype := "float" |}
          (fill_double 0.5%float) = Ok c' ∧
        col_data (DataFrame_fillna (H := Binary64.lib) t_table (fill_double 0.5%float)) !! "z"
        = Some c'.
Proof.
  apply (fillna_column_agrees_with_table (H := Binary64.lib) t_table "z"
           {| name := "z"; data := ["2.5"; ""; "1"]; dtype := "float" |}
           (fill_double (H := Binary64.lib) 0.5%float)).
  - reflexivity.
  - left. cbn. done.
Defined.

Lemma Column_fillna_double_truncates_witness :
  ∃ c', Column_fillna (H := Binary64.lib)
          {| name := "x"; data := ["1"; ""; ""]; dtype := "int" |}
          (fill_double 2.5%float) = Ok c' ∧
    name c' = "x" ∧ dtype c' = "int" ∧ length (data c') = 3%nat ∧
    ∀ i v, ["1"; ""; ""] !! i = Some v →
      data c' !! i
      = Some (if missing v then to_string_double (StdLib := Binary64.lib)
                                   (double_of_int (StdLib := Binary64.lib) 2) else v).
Proof.
  apply (Column_fillna_double_truncates (H := Binary64.lib)
           {| name := "x"; data := ["1"; ""; ""]; dtype := "int" |} 2.5%float 2).
  - reflexivity.
  - vm_compute. reflexivity.
  - vm_compute. reflexivity.
Defined.

Lemma Column_fillna_cast_reached_witness :
  Column_fillna (H := Binary64.lib)
    {| name := "y"; data := ["a"; "b"; "c"]; dtype := "string" |} (fill_double nan)
  = Ok {| name := "y"; data := ["a"; "b"; "c"]; dtype := "string" |} ∧
  Column_fillna (H := Binary64.lib)
    {| name := "x"; data := ["1"; "2"; ""]; dtype := "int" |} (fill_double nan)
  = Undefined.
Proof.
  split.
  - apply (Column_fillna_cast_reached (H := Binary64.lib)
             {| name := "y"; data := ["a"; "b"; "c"]; dtype := "string" |} nan).
    cbn [data]. rewrite !elem_of_cons, elem_of_nil. intros [?|[?|[?|?]]]; done.
  - apply (Column_fillna_cast_reached (H := Binary64.lib)
             {| name := "x"; data := ["1"; "2"; ""]; dtype := "int" |} nan).
    + do 2 right. by left.
    + reflexivity.
    + vm_compute. reflexivity.
Defined.

Lemma fillna_leaves_nothing_missing_witness :
  (∀ k c, col_data (DataFrame_fillna (H := Binary64.lib) t_table (fill_int 0)) !! k = Some c →
          "" ∉ data c) ∧
  (∀ y, DataFrame_fillna (H := Binary64.lib)
          (DataFrame_fillna (H := Binary64.lib) t_table (fill_int 0)) y
        = DataFrame_fillna (H := Binary64.lib) t_table (fill_int 0)) ∧
  (∀ col, is_Some (col_data t_table !! col) →
          DataFrame_dropna (DataFrame_fillna (H := Binary64.lib) t_table (fill_int 0)) col
          = Ok (DataFrame_fillna (H := Binary64.lib) t_table (fill_int 0))).
Proof.
  apply (fillna_leaves_nothing_missing (H := Binary64.lib) t_table (fill_int 0)).
  reflexivity.
Defined.

(** * More on the constructor *)

Lemma read_cells_data (fields : list string) (temp_data : list Column)
    (temp_row : list string) (jdx : nat) :
  (jdx + length fields ≤ length temp_data)%nat →
  ∃ td, read_cells fields temp_data temp_row jdx
        = Ok (td, temp_row ++ fields, (jdx + length fields)%nat) ∧
    length td = length temp_data ∧
    ∀ i c, temp_data !! i = Some c →
      td !! i = Some (with_cell (if decide (jdx ≤ i)%nat then fields !! (i - jdx)%nat else None) c).
Proof.
  revert temp_data temp_row jdx.
  induction fields as [|element rest IH]; intros temp_data temp_row jdx Hlen;
    cbn [read_cells length] in *.
  - exists temp_data. rewrite app_nil_r, Nat.add_0_r. split; [done|]. split; [done|].
    intros i c Hc. rewrite Hc. by destruct (decide _).
  - destruct (lookup_lt_is_Some_2 temp_data jdx) as [c0 Hc0]; [lia|].
    unfold push_cell, vec_index. rewrite Hc0. cbn [mbind outcome_bind].
    set (c1 := {| name := name c0; data := data c0 ++ [element]; dtype := dtype c0 |}).
    destruct (IH (<[jdx:=c1]> temp_data) (temp_row ++ [element]) (S jdx))
      as (td & Hrun & Hl & Hcols).
    { rewrite length_insert. lia. }
    exists td. rewrite Hrun. rewrite <- app_assoc. cbn [app].
    replace (S jdx + length rest)%nat with (jdx + S (length rest))%nat by lia.
    split; [done|]. split; [by rewrite Hl, length_insert|].
    intros i c Hc. destruct (decide (i = jdx)) as [->|Hne].
    + rewrite (Hcols jdx c1) by (apply list_lookup_insert_eq; by eapply lookup_lt_Some).
      rewrite Hc0 in Hc. injection Hc as <-.
      rewrite decide_False by lia. rewrite decide_True by lia.
      by rewrite Nat.sub_diag.
    + rewrite (Hcols i c) by (by rewrite list_lookup_insert_ne).
      destruct (decide (S jdx ≤ i)%nat), (decide (jdx ≤ i)%nat); try done; try lia.
      by replace (i - jdx)%nat with (S (i - S jdx)) by lia.
Qed.

(** More fields than columns: [temp_data[jdx]] is read past the end. *)
Lemma read_cells_overflow (fields : list string) (temp_data : list Column)
    (temp_row : list string) (jdx : nat) :
  (jdx ≤ length temp_data < jdx + length fields)%nat →
  read_cells fields temp_data temp_row jdx = Undefined.
Proof.
  revert temp_data temp_row jdx.
  induction fields as [|element rest IH]; intros temp_data temp_row jdx Hlen;
    cbn [read_cells length] in *; [lia|].
  unfold push_cell, vec_index.
  destruct (temp_data !! jdx) as [c0|] eqn:Hc0; [|done].
  cbn [mbind outcome_bind]. apply IH. rewrite length_insert.
  apply lookup_lt_Some in Hc0. lia.
Qed.

Lemma stored_row_length (n : nat) (line : string) :
  (length (split_fields line "") ≤ n)%nat →
  (length (stored_row n line) ≤ n)%nat ∧
  (row_fits n line → length (stored_row n line) = n) ∧
  (0 < n → 0 < length (stored_row n line))%nat ∧
  (S (length (split_fields line "")) < n →
   length (stored_row n line) = S (length (split_fields line "")))%nat.
Proof.
  intros Hle. unfold stored_row, row_fits. cbv zeta.
  destruct (Nat.ltb_spec (length (split_fields line "")) n) as [Hlt|Hge];
    rewrite ?length_app; cbn [length]; lia.
Qed.

(** One data line with no more fields than the header: the stored row is
    appended to the row buffer, and every column that the row has a cell
    for receives that cell. *)
Lemma read_row_data (line : string) (temp_data : list Column) (header : list string)
    (rows : list (list string)) :
  length header = length temp_data →
  (length (split_fields line "") ≤ length header)%nat →
  ∃ td, read_row line temp_data (header :: rows)
        = Ok (td, header :: rows ++ [stored_row (length header) line]) ∧
    length td = length temp_data ∧
    ∀ i c, temp_data !! i = Some c →
      td !! i = Some (with_cell (stored_row (length header) line !! i) c).
Proof.
  intros Hh Hle. unfold read_row, stored_row. cbv zeta.
  set (fields := split_fields line "") in *.
  destruct (read_cells_data fields temp_data [] 0) as (td1 & Hrun & Hl1 & Hc1); [lia|].
  rewrite Hrun. cbn [mbind outcome_bind app Nat.add].
  unfold vec_index at 1. cbn [lookup list_lookup mbind outcome_bind].
  destruct (Nat.ltb_spec (length fields) (length header)) as [Hlt|Hge].
  - destruct (lookup_lt_is_Some_2 temp_data (length fields)) as [cm Hcm]; [lia|].
    unfold push_cell, vec_index. rewrite (Hc1 _ _ Hcm). cbn [mbind outcome_bind].
    rewrite decide_True by lia. rewrite Nat.sub_0_r.
    rewrite (proj2 (lookup_ge_None fields (length fields))) by lia.
    cbn [with_cell]. eexists. split; [reflexivity|].
    split; [by rewrite length_insert|].
    intros i c Hc. destruct (decide (i = length fields)) as [->|Hne].
    + rewrite list_lookup_insert_eq by (rewrite Hl1; lia).
      rewrite Hcm in Hc. injection Hc as <-.
      rewrite lookup_app_r by lia. by rewrite Nat.sub_diag.
    + rewrite list_lookup_insert_ne by done. rewrite (Hc1 _ _ Hc).
      rewrite decide_True by lia. rewrite Nat.sub_0_r.
      destruct (decide (i < length fields)%nat) as [Hi|Hi].
      * by rewrite lookup_app_l by done.
      * rewrite (proj2 (lookup_ge_None fields i)) by lia.
        rewrite (proj2 (lookup_ge_None (fields ++ [""]) i)); [done|].
        rewrite length_app. cbn [length]. lia.
  - cbn [mbind outcome_bind]. exists td1. split; [done|]. split; [done|].
    intros i c Hc. rewrite (Hc1 _ _ Hc). rewrite decide_True by lia.
    by rewrite Nat.sub_0_r.
Qed.

Lemma cells_at_snoc (j : nat) (rows : list (list string)) (row : list string) :
  cells_at j (rows ++ [row]) = cells_at j rows ++ option_list (row !! j).
Proof.
  unfold cells_at. rewrite omap_app. cbn [omap list_omap].
  by destruct (row !! j).
Qed.

Lemma cells_at_cons (j : nat) (rows : list (list string)) (row : list string) :
  cells_at j (row :: rows) = option_list (row !! j) ++ cells_at j rows.
Proof. unfold cells_at. cbn [omap list_omap]. by destruct (row !! j). Qed.

Lemma with_cell_data (cell : option string) (c : Column) :
  name (with_cell cell c) = name c ∧ dtype (with_cell cell c) = dtype c ∧
  data (with_cell cell c) = data c ++ option_list cell.
Proof. destruct cell; cbn; by rewrite ?app_nil_r. Qed.

(** The data lines, none of them longer than the header. *)
Lemma read_rows_data (lines : list string) (temp_data : list Column) (header : list string)
    (rows : list (list string)) :
  length header = length temp_data →
  Forall (λ line, length (split_fields line "") ≤ length header)%nat lines →
  ∃ td, read_rows lines temp_data (header :: rows)
        = Ok (td, header :: rows ++ (stored_row (length header) <$> lines)) ∧
    length td = length temp_data ∧
    ∀ i c, temp_data !! i = Some c →
      ∃ c', td !! i = Some c' ∧ name c' = name c ∧ dtype c' = dtype c ∧
        data c' = data c ++ cells_at i (stored_row (length header) <$> lines).
Proof.
  intros Hh Hfit. revert temp_data rows Hh.
  induction Hfit as [|line lines Hline Hfit IH]; intros temp_data rows Hh.
  - cbn [read_rows fmap list_fmap]. exists temp_data. rewrite app_nil_r.
    split; [done|]. split; [done|]. intros i c Hc. exists c.
    split; [done|]. split; [done|]. split; [done|]. by rewrite app_nil_r.
  - cbn [read_rows].
    destruct (read_row_data line temp_data header rows Hh Hline) as (td1 & Hrun1 & Hl1 & Hc1).
    rewrite Hrun1. cbn [mbind outcome_bind].
    destruct (IH td1 (rows ++ [stored_row (length header) line])) as (td & Hrun & Hl & Hc).
    { congruence. }
    exists td. rewrite Hrun. rewrite fmap_cons, <- app_assoc. cbn [app].
    split; [done|]. split; [congruence|].
    intros i c Hci. destruct (Hc i _ (Hc1 i c Hci)) as (c' & Hc' & Hn & Hd & Hdata).
    destruct (with_cell_data (stored_row (length header) line !! i) c) as (Hn1 & Hd1 & Hdata1).
    exists c'. split; [done|]. split; [congruence|]. split; [congruence|].
    rewrite Hdata, Hdata1, cells_at_cons. by rewrite app_assoc.
Qed.

Lemma read_rows_app (lines1 lines2 : list string) (temp_data : list Column)
    (rows : list (list string)) :
  read_rows (lines1 ++ lines2) temp_data rows
  = ('(td, rows') ← read_rows lines1 temp_data rows; read_rows lines2 td rows').
Proof.
  revert temp_data rows. induction lines1 as [|line lines1 IH]; intros temp_data rows; [done|].
  cbn [app read_rows].
  destruct (read_row line temp_data rows) as [[td1 rows1]| |]; cbn [mbind outcome_bind]; [|done|done].
  apply IH.
Qed.

(** [col_data[col.name] = col] over the columns in order: a name is bound
    to the last column that carries it. *)
Lemma foldl_insert_last (cols : list Column) (m : gmap string Column) (j : nat) (c : Column) :
  cols !! j = Some c →
  (∀ j' c', (j < j')%nat → cols !! j' = Some c' → name c' ≠ name c) →
  foldl (λ m col, <[name col := col]> m) m cols !! name c = Some c.
Proof.
  revert m j. induction cols as [|x cols IH]; intros m j Hj Hlast; [done|].
  cbn [foldl]. destruct j as [|j].
  - injection Hj as ->. rewrite foldl_insert_other; [apply lookup_insert_eq|].
    intros [c' [Hn Hc']]%list_elem_of_fmap. apply list_elem_of_lookup in Hc' as [j' Hj'].
    apply (Hlast (S j') c'); [lia|done|done].
  - apply (IH _ j); [done|]. intros j' c' Hlt Hc'. apply (Hlast (S j') c'); [lia|done].
Qed.

(** The constructor on a file in which no data line has more fields than
    the header. *)
Lemma DataFrame_read_ok `{StdLib} (path first : string) (lines : list string) :
  let header := split_fields first "" in
  let rows := stored_row (length header) <$> lines in
  Forall (λ line, length (split_fields line "") ≤ length header)%nat lines →
  ∃ df, DataFrame_read path (Some (first :: lines)) = Ok df ∧
    columns df = header ∧ row_data df = header :: rows ∧ file_dir df = path ∧
    (∀ j k, header !! j = Some k → (∀ j', (j < j')%nat → header !! j' ≠ Some k) →
       col_data df !! k
       = Some {| name := k; data := cells_at j rows; dtype := infer_dtype (cells_at j rows) |}) ∧
    (∀ k, k ∉ header → col_data df !! k = None).
Proof.
  intros header rows Hfit. unfold DataFrame_read. fold header.
  set (temp0 := (λ element, {| name := element; data := []; dtype := "string" |}) <$> header).
  destruct (read_rows_data lines temp0 header []) as (td & Hrun & Hl & Hc).
  { subst temp0. by rewrite length_fmap. }
  { done. }
  rewrite Hrun. cbn [mbind outcome_bind app]. fold rows.
  eexists. split; [reflexivity|]. cbn [columns row_data file_dir col_data].
  split; [done|]. split; [done|]. split; [done|].
  set (f := λ col, {| name := name col; data := data col; dtype := infer_dtype (data col) |}).
  assert (Htd : ∀ j k, header !! j = Some k →
            (f <$> td) !! j
            = Some {| name := k; data := cells_at j rows; dtype := infer_dtype (cells_at j rows) |}).
  { intros j k Hj.
    destruct (Hc j {| name := k; data := []; dtype := "string" |}) as (c' & Hc' & Hn & _ & Hd).
    { subst temp0. by rewrite list_lookup_fmap, Hj. }
    rewrite list_lookup_fmap, Hc'. cbn [fmap option_fmap option_map]. subst f. cbn beta.
    cbn [name data app] in Hn, Hd. by rewrite Hn, Hd. }
  split.
  - intros j k Hj Hlast.
    pose proof (foldl_insert_last (f <$> td) ∅ j _ (Htd j k Hj)) as Hfold.
    cbn [name] in Hfold. apply Hfold.
    intros j' c' Hlt Hc' Heq.
    destruct (lookup_lt_is_Some_2 header j') as [k' Hk'].
    { apply lookup_lt_Some in Hc'. rewrite length_fmap, Hl in Hc'.
      subst temp0. by rewrite length_fmap in Hc'. }
    rewrite (Htd j' k' Hk') in Hc'. injection Hc' as <-. cbn [name] in Heq. subst k'.
    by apply (Hlast j').
  - intros k Hk. rewrite foldl_insert_other; [done|].
    intros [c' [Hn Hc']]%list_elem_of_fmap. apply list_elem_of_lookup in Hc' as [j' Hj'].
    destruct (lookup_lt_is_Some_2 header j') as [k' Hk'].
    { apply lookup_lt_Some in Hj'. rewrite length_fmap, Hl in Hj'.
      subst temp0. by rewrite length_fmap in Hj'. }
    rewrite (Htd j' k' Hk') in Hj'. injection Hj' as <-. cbn [name] in Hn. subst k'.
    apply Hk. apply list_elem_of_lookup. by exists j'.
Qed.

Lemma last_occurrence {A} `{EqDecision A} (k : A) (l : list A) :
  k ∈ l → ∃ j, l !! j = Some k ∧ ∀ j', (j < j')%nat → l !! j' ≠ Some k.
Proof.
  induction l as [|a l IH]; intros Hk; [by apply elem_of_nil in Hk|].
  destruct (decide (k ∈ l)) as [Hin|Hout].
  - destruct (IH Hin) as (j & Hj & Hlast). exists (S j). split; [done|].
    intros [|j'] Hlt; [lia|]. apply Hlast. lia.
  - apply elem_of_cons in Hk as [->|Hk]; [|done]. exists 0%nat. split; [done|].
    intros [|j'] Hlt Hj'; [lia|]. apply Hout. apply list_elem_of_lookup. by exists j'.
Qed.

Lemma cells_at_total (j : nat) (rows : list (list string)) :
  Forall (λ row, j < length row)%nat rows →
  ∀ i row, rows !! i = Some row → cells_at j rows !! i = row !! j.
Proof.
  induction 1 as [|r rs Hr Hrs IH]; intros i row Hi; [done|].
  rewrite cells_at_cons. destruct (lookup_lt_is_Some_2 r j Hr) as [e He].
  rewrite He. cbn [option_list option_rect app]. destruct i as [|i].
  - injection Hi as <-. by rewrite He.
  - by apply IH.
Qed.

Lemma cells_at_length_le (j : nat) (rows : list (list string)) :
  (length (cells_at j rows) ≤ length rows)%nat.
Proof.
  induction rows as [|r rs IH]; [done|]. rewrite cells_at_cons, length_app.
  destruct (r !! j); cbn [option_list option_rect length]; lia.
Qed.

Lemma cells_at_length_lt (j : nat) (rows : list (list string)) (row : list string) :
  row ∈ rows → (length row ≤ j)%nat → (length (cells_at j rows) < length rows)%nat.
Proof.
  intros Hin Hshort. induction rows as [|r rs IH]; [by apply elem_of_nil in Hin|].
  rewrite cells_at_cons, length_app. cbn [length].
  apply elem_of_cons in Hin as [<-|Hin].
  - rewrite (proj2 (lookup_ge_None row j)) by done. cbn [option_list option_rect length].
    pose proof (cells_at_length_le j rs). lia.
  - specialize (IH Hin). destruct (r !! j); cbn [option_list option_rect length]; lia.
Qed.

Lemma cells_at_length_full (j : nat) (rows : list (list string)) :
  Forall (λ row, j < length row)%nat rows → length (cells_at j rows) = length rows.
Proof.
  induction 1 as [|r rs Hr Hrs IH]; [done|]. rewrite cells_at_cons, length_app.
  destruct (lookup_lt_is_Some_2 r j Hr) as [e He]. rewrite He. cbn [option_list option_rect length]. lia.
Qed.

Section ReadMore.
Context `{StdLib}.

(** X23. The constructor on a file in which no data line has more fields
    than the header.  [columns] is the header, the row buffer is the
    header followed by one stored row per data line, and the keys of the
    column map are the header names.  The column stored under a name is
    built from the rightmost header field with that name: it carries the
    name, holds the cells that the stored rows have at that position, in
    row order, and its dtype is the one inferred from these cells. *)
Theorem DataFrame_read_spec (path first : string) (lines : list string) :
  let header := split_fields first "" in
  let rows := stored_row (length header) <$> lines in
  Forall (λ line, length (split_fields line "") ≤ length header)%nat lines →
  ∃ df, DataFrame_read path (Some (first :: lines)) = Ok df ∧
    columns df = header ∧ row_data df = header :: rows ∧ file_dir df = path ∧
    (∀ k, is_Some (col_data df !! k) ↔ k ∈ header) ∧
    (∀ j k, header !! j = Some k → (∀ j', (j < j')%nat → header !! j' ≠ Some k) →
       ∃ c, col_data df !! k = Some c ∧ name c = k ∧
            data c = cells_at j rows ∧ dtype c = infer_dtype (data c)).
Proof.
  intros header rows Hfit.
  destruct (DataFrame_read_ok path first lines Hfit) as (df & Hrun & Hcols & Hrows & Hdir & Hcol & Hnone).
  fold header in Hcols, Hrows, Hcol, Hnone. fold rows in Hrows, Hcol.
  exists df. split; [done|]. split; [done|]. split; [done|]. split; [done|]. split.
  - intros k. split.
    + intros Hsome. destruct (decide (k ∈ header)) as [Hin|Hout]; [done|].
      rewrite (Hnone k Hout) in Hsome. by destruct Hsome.
    + intros Hin. destruct (last_occurrence k header Hin) as (j & Hj & Hlast).
      rewrite (Hcol j k Hj Hlast). by eexists.
  - intros j k Hj Hlast. rewrite (Hcol j k Hj Hlast). eexists. by split.
Qed.

(** X24. A file whose header names are distinct and whose data lines
    have as many fields as the header, or one fewer: the table satisfies
    the representation invariant, has one row per data line, every stored
    row has one cell per header field, and the row view and the column
    view agree cell by cell: the value at position [i] of the column
    named by the [j]-th header field is the [j]-th cell of the row stored
    for the [i]-th data line. *)
Theorem read_well_formed (path first : string) (lines : list string) :
  let header := split_fields first "" in
  NoDup header →
  Forall (row_fits (length header)) lines →
  Z.of_nat (S (length lines)) < 2 ^ 64 →
  ∃ df, DataFrame_read path (Some (first :: lines)) = Ok df ∧
    table_inv df ∧ row_count df = length lines ∧
    ∀ i line, lines !! i = Some line →
      ∃ row, row_data df !! S i = Some row ∧ row = stored_row (length header) line ∧
        length row = length header ∧
        ∀ j k, header !! j = Some k →
          ∃ c, col_data df !! k = Some c ∧ data c !! i = row !! j.
Proof.
  intros header Hnd Hfit Hsize.
  destruct (DataFrame_read_inv path first lines Hnd Hfit Hsize) as (df & Hrun & Hinv & Hrc & _).
  assert (Hle : Forall (λ line, length (split_fields line "") ≤ length header)%nat lines).
  { eapply Forall_impl; [exact Hfit|]. intros line Hl. unfold row_fits in Hl. fold header in Hl. lia. }
  destruct (DataFrame_read_ok path first lines Hle) as (df' & Hrun' & _ & Hrows & _ & Hcol & _).
  rewrite Hrun in Hrun'. injection Hrun' as <-. fold header in Hrows, Hcol.
  exists df. split; [done|]. split; [done|]. split; [done|].
  intros i line Hi. exists (stored_row (length header) line).
  rewrite Hrows.
  change ((header :: (stored_row (length header) <$> lines)) !! S i)
    with ((stored_row (length header) <$> lines) !! i).
  rewrite list_lookup_fmap, Hi.
  split; [done|]. split; [done|].
  assert (Hfull : ∀ l, l ∈ lines → length (stored_row (length header) l) = length header).
  { intros l Hl. rewrite Forall_forall in Hfit, Hle.
    by apply (stored_row_length (length header) l (Hle l Hl)), Hfit. }
  split; [apply Hfull; apply list_elem_of_lookup; by exists i|].
  intros j k Hj. rewrite (Hcol j k Hj).
  - eexists. split; [reflexivity|]. cbn [data]. apply cells_at_total.
    + apply Forall_fmap, Forall_forall. intros l Hl. cbn. rewrite (Hfull l Hl).
      by eapply lookup_lt_Some.
    + by rewrite list_lookup_fmap, Hi.
  - intros j' Hlt Hj'. pose proof (NoDup_lookup _ _ _ _ Hnd Hj Hj'). lia.
Qed.

(** X25. A data line with at least two fields fewer than the header gets
    only one padding value.  The constructor does not fail, but the
    columns then have different lengths: the first column has one value
    per data line, the last column has fewer, and the table does not
    satisfy the representation invariant. *)
Theorem read_short_line_misaligned (path first : string) (lines : list string)
    (line k0 kl : string) :
  let header := split_fields first "" in
  NoDup header →
  Forall (λ line, length (split_fields line "") ≤ length header)%nat lines →
  line ∈ lines → (S (length (split_fields line "")) < length header)%nat →
  header !! 0%nat = Some k0 → last header = Some kl →
  ∃ df c0 cl, DataFrame_read path (Some (first :: lines)) = Ok df ∧
    col_data df !! k0 = Some c0 ∧ col_data df !! kl = Some cl ∧
    length (data c0) = length lines ∧ (length (data cl) < length lines)%nat ∧
    row_count df = length lines ∧ ¬ table_inv df.
Proof.
  intros header Hnd Hle Hin Hshort Hk0 Hkl.
  destruct (DataFrame_read_ok path first lines Hle) as (df & Hrun & Hcols & Hrows & _ & Hcol & _).
  fold header in Hcols, Hrows, Hcol.
  assert (Hlast : ∀ j k, header !! j = Some k → ∀ j', (j < j')%nat → header !! j' ≠ Some k).
  { intros j k Hj j' Hlt Hj'. pose proof (NoDup_lookup _ _ _ _ Hnd Hj Hj'). lia. }
  rewrite last_lookup in Hkl.
  pose proof (Hcol _ _ Hk0 (Hlast _ _ Hk0)) as Hc0.
  pose proof (Hcol _ _ Hkl (Hlast _ _ Hkl)) as Hcl.
  assert (Hrc : row_count df = length lines).
  { unfold row_count. rewrite Hrows. cbn [length pred]. by rewrite length_fmap. }
  assert (Hlt : (length (cells_at (pred (length header)) (stored_row (length header) <$> lines))
                 < length lines)%nat).
  { rewrite <- (length_fmap (stored_row (length header)) lines).
    apply (cells_at_length_lt _ _ (stored_row (length header) line)).
    - apply list_elem_of_fmap. by exists line.
    - rewrite Forall_forall in Hle.
      rewrite (proj2 (proj2 (proj2 (stored_row_length _ line (Hle line Hin))))) by done. lia. }
  eexists df, _, _. split; [done|]. split; [exact Hc0|]. split; [exact Hcl|].
  cbn [data]. split; [|split; [exact Hlt|split; [done|]]].
  - rewrite cells_at_length_full; [by rewrite length_fmap|].
    apply Forall_fmap, Forall_forall. intros l Hl. cbn.
    rewrite Forall_forall in Hle.
    apply (stored_row_length (length header) l (Hle l Hl)). lia.
  - intros Hinv. destruct (inv_columns df Hinv kl) as (c & Hc & Hlen).
    { rewrite Hcols. apply list_elem_of_lookup. by eexists. }
    rewrite Hcl in Hc. injection Hc as <-. cbn [data] in Hlen. lia.
Qed.

(** X26. A data line with more fields than the header makes the
    constructor write past the end of its column vector: undefined
    behaviour, whatever follows the line. *)
Theorem read_long_line_undefined (path first : string) (good rest : list string)
    (line : string) :
  let header := split_fields first "" in
  Forall (λ line, length (split_fields line "") ≤ length header)%nat good →
  (length header < length (split_fields line ""))%nat →
  DataFrame_read path (Some (first :: good ++ line :: rest)) = Undefined.
Proof.
  intros header Hgood Hlong. unfold DataFrame_read. fold header.
  set (temp0 := (λ element, {| name := element; data := []; dtype := "string" |}) <$> header).
  rewrite read_rows_app.
  destruct (read_rows_data good temp0 header []) as (td & Hrun & Hl & _).
  { subst temp0. by rewrite length_fmap. }
  { done. }
  rewrite Hrun. cbn [mbind outcome_bind read_rows]. unfold read_row.
  rewrite read_cells_overflow; [done|].
  rewrite Hl. subst temp0. rewrite length_fmap. lia.
Qed.

End ReadMore.

Lemma DataFrame_read_spec_witness :
  ∃ df, DataFrame_read (H := Binary64.lib) "t.csv" (Some ("x,y,x" :: ["1,a,2.5"; "2,b"; "3"])) = Ok df ∧
    columns df = ["x"; "y"; "x"] ∧
    row_data df = [["x"; "y"; "x"]; ["1"; "a"; "2.5"]; ["2"; "b"; ""]; ["3"; ""]] ∧
    file_dir df = "t.csv" ∧
    (∀ k, is_Some (col_data df !! k) ↔ k ∈ ["x"; "y"; "x"]) ∧
    (∀ j k, ["x"; "y"; "x"] !! j = Some k →
       (∀ j', (j < j')%nat → ["x"; "y"; "x"] !! j' ≠ Some k) →
       ∃ c, col_data df !! k = Some c ∧ name c = k ∧
            data c = cells_at j [["1"; "a"; "2.5"]; ["2"; "b"; ""]; ["3"; ""]] ∧
            dtype c = infer_dtype (H := Binary64.lib) (data c)).
Proof.
  apply (DataFrame_read_spec (H := Binary64.lib) "t.csv" "x,y,x" ["1,a,2.5"; "2,b"; "3"]).
  repeat constructor.
Defined.

Lemma read_well_formed_witness :
  ∃ df, DataFrame_read (H := Binary64.lib) "t.csv" (Some ("x,y,z" :: ["1,a,2.5"; "2,b"; ",c,1"])) = Ok df ∧
    table_inv df ∧ row_count df = 3%nat ∧
    ∀ i line, ["1,a,2.5"; "2,b"; ",c,1"] !! i = Some line →
      ∃ row, row_data df !! S i = Some row ∧ row = stored_row 3 line ∧
        length row = 3%nat ∧
        ∀ j k, ["x"; "y"; "z"] !! j = Some k →
          ∃ c, col_data df !! k = Some c ∧ data c !! i = row !! j.
Proof.
  apply (read_well_formed (H := Binary64.lib) "t.csv" "x,y,z" ["1,a,2.5"; "2,b"; ",c,1"]).
  - cbn. apply (bool_decide_unpack _). vm_compute. reflexivity.
  - constructor; [left; reflexivity|]. constructor; [right; reflexivity|].
    constructor; [left; reflexivity|]. constructor.
  - cbn. lia.
Defined.

Lemma read_short_line_misaligned_witness :
  ∃ df c0 cl, DataFrame_read (H := Binary64.lib) "r.csv" (Some ("a,b,c" :: ["1,2,3"; "4"])) = Ok df ∧
    col_data df !! "a" = Some c0 ∧ col_data df !! "c" = Some cl ∧
    length (data c0) = 2%nat ∧ (length (data cl) < 2)%nat ∧
    row_count df = 2%nat ∧ ¬ table_inv df.
Proof.
  apply (read_short_line_misaligned (H := Binary64.lib) "r.csv" "a,b,c" ["1,2,3"; "4"] "4" "a" "c").
  - cbn. apply (bool_decide_unpack _). vm_compute. reflexivity.
  - repeat constructor.
  - right. by left.
  - vm_compute. lia.
  - reflexivity.
  - reflexivity.
Defined.

Lemma read_long_line_undefined_witness :
  DataFrame_read (H := Binary64.lib) "r.csv" (Some ("a,b" :: ["1,2"] ++ "3,4,5" :: ["6,7"]))
  = Undefined.
Proof.
  apply (read_long_line_undefined (H := Binary64.lib) "r.csv" "a,b" ["1,2"] ["6,7"] "3,4,5").
  - repeat constructor.
  - vm_compute. lia.
Defined.

(** * [Column::print], [head] and [tail] *)

Lemma string_app_assoc (s t u : string) : (s +:+ t) +:+ u = s +:+ (t +:+ u).
Proof. induction s as [|c s IH]; [done|]. rewrite !append_String. by rewrite IH. Qed.

Lemma string_app_nil_r (s : string) : s +:+ "" = s.
Proof. induction s as [|c s IH]; [done|]. rewrite append_String. by rewrite IH. Qed.

Lemma lines_text_cons (line : string) (lines : list string) :
  lines_text (line :: lines) = line +:+ endl +:+ lines_text lines.
Proof. reflexivity. Qed.

Lemma print_loop_ok (elements : list string) (idx n : nat) (out : string) :
  (idx + n ≤ length elements)%nat →
  print_loop elements idx n out = Ok (out +:+ lines_text (take n (drop idx elements))).
Proof.
  revert idx out. induction n as [|n IH]; intros idx out Hlen.
  - cbn [print_loop take lines_text foldr]. by rewrite string_app_nil_r.
  - cbn [print_loop]. destruct (lookup_lt_is_Some_2 elements idx) as [e He]; [lia|].
    unfold vec_index. rewrite He. cbn [mbind outcome_bind]. rewrite IH by lia.
    rewrite (drop_S _ _ _ He). cbn [take]. rewrite lines_text_cons.
    by rewrite ?string_app_assoc.
Qed.

Lemma print_loop_overflow (elements : list string) (idx n : nat) (out : string) :
  (idx ≤ length elements < idx + n)%nat → print_loop elements idx n out = Undefined.
Proof.
  revert idx out. induction n as [|n IH]; intros idx out Hlen; [lia|].
  cbn [print_loop]. unfold vec_index.
  destruct (elements !! idx) as [e|] eqn:He; [|done].
  cbn [mbind outcome_bind]. apply IH. apply lookup_lt_Some in He. lia.
Qed.

(** X27. [Column::head(n)] and [Column::tail(n)] with [n > 0] on a column
    that has values.  With [n] at most the number of values, [head]
    writes the title, the first [n] values and the footer, and [tail] the
    title, the last [n] values and the footer.  With [n] larger than the
    number of values, [head] reads past the end of the data (undefined
    behaviour), and [tail] writes no value at all, and still a footer that
    says [n] rows were printed. *)
Theorem Column_head_tail_spec (c : Column) (n : Z) :
  data c ≠ [] → Z.of_nat (length (data c)) < 2 ^ 63 → 0 < n ≤ INT_MAX →
  (n ≤ Z.of_nat (length (data c)) →
   Column_head c n
   = Ok (print_title c +:+ lines_text (take (Z.to_nat n) (data c)) +:+ print_footer n) ∧
   Column_tail c n
   = Ok (print_title c +:+ lines_text (drop (length (data c) - Z.to_nat n) (data c))
         +:+ print_footer n)) ∧
  (Z.of_nat (length (data c)) < n →
   Column_head c n = Undefined ∧
   Column_tail c n = Ok (print_title c +:+ print_footer n)).
Proof.
  intros Hne Hsize Hn. unfold Column_head, Column_tail, Column_print. cbv zeta.
  assert (Hpos : 0 < Z.of_nat (length (data c))).
  { destruct (data c); [done|]. cbn [length]. lia. }
  rewrite (proj2 (Z.eqb_neq _ 0)) by lia. rewrite (proj2 (Z.eqb_neq n 0)) by lia.
  fold (print_title c). fold (print_footer n). unfold INT_MAX in Hn. split.
  - intros Hle. split.
    + rewrite print_loop_ok by lia. cbn [mbind outcome_bind]. rewrite drop_0.
      by rewrite ?string_app_assoc.
    + unfold size_t_wrap. rewrite Z.mod_small by lia.
      rewrite (proj2 (Z.ltb_lt _ _)) by lia.
      replace (Z.of_nat (length (data c)) - (Z.of_nat (length (data c)) - n)) with n by lia.
      rewrite print_loop_ok by lia. cbn [mbind outcome_bind].
      replace (Z.to_nat (Z.of_nat (length (data c)) - n))
        with (length (data c) - Z.to_nat n)%nat by lia.
      rewrite take_ge by (rewrite length_drop; lia).
      by rewrite ?string_app_assoc.
  - intros Hgt. split.
    + rewrite print_loop_overflow by lia. done.
    + unfold size_t_wrap.
      replace ((Z.of_nat (length (data c)) - n) `mod` 2 ^ 64)
        with (Z.of_nat (length (data c)) - n + 2 ^ 64).
      2:{ apply (Z.mod_unique _ _ (-1)); lia. }
      rewrite (proj2 (Z.ltb_ge _ _)) by lia. cbn [mbind outcome_bind].
      by rewrite ?string_app_assoc.
Qed.

(** X28. [Column::print()] without arguments, which is also what
    [operator<<] calls, does not print all rows: a column without values
    prints nothing, not even its name, and otherwise the row count is
    set to one less than the number of values, so the last value is left
    out.  With [is_tail] set it is the first value that is left out. *)
Theorem Column_print_default_omits_one (c : Column) :
  Z.of_nat (length (data c)) ≤ INT_MAX →
  (data c = [] → Column_output c = Ok "" ∧ Column_print c 0 true = Ok "") ∧
  (∀ rest v, data c = rest ++ [v] →
     Column_output c
     = Ok (print_title c +:+ lines_text rest +:+ print_footer (Z.of_nat (length rest)))) ∧
  (∀ v rest, data c = v :: rest →
     Column_print c 0 true
     = Ok (print_title c +:+ lines_text rest +:+ print_footer (Z.of_nat (length rest)))).
Proof.
  intros Hsize. unfold INT_MAX in Hsize. unfold Column_output, Column_print. cbv zeta.
  split; [intros ->; by cbn|].
  assert (Hwrap : 0 < Z.of_nat (length (data c)) →
            int_wrap (size_t_wrap (Z.of_nat (length (data c)) - 1))
            = Z.of_nat (length (data c)) - 1).
  { intros Hpos. unfold int_wrap, size_t_wrap. rewrite (Z.mod_small (_ - 1)) by lia.
    rewrite Z.mod_small by lia. lia. }
  fold (print_title c). split.
  - intros rest v Hd. rewrite Hd, length_app in *. cbn [length] in *.
    rewrite (proj2 (Z.eqb_neq _ 0)) by lia. rewrite Z.eqb_refl. rewrite Hwrap by lia.
    replace (Z.of_nat (length rest + 1) - 1) with (Z.of_nat (length rest)) by lia.
    fold (print_footer (Z.of_nat (length rest))).
    rewrite print_loop_ok by (rewrite length_app; cbn [length]; lia).
    cbn [mbind outcome_bind]. rewrite drop_0, Nat2Z.id, take_app_length.
    by rewrite ?string_app_assoc.
  - intros v rest Hd. rewrite Hd in *. cbn [length] in *.
    rewrite (proj2 (Z.eqb_neq _ 0)) by lia. rewrite Z.eqb_refl. rewrite Hwrap by lia.
    replace (Z.of_nat (S (length rest)) - 1) with (Z.of_nat (length rest)) by lia.
    fold (print_footer (Z.of_nat (length rest))).
    replace (Z.of_nat (S (length rest)) - Z.of_nat (length rest)) with 1 by lia.
    unfold size_t_wrap. rewrite (Z.mod_small 1) by lia.
    destruct (Z.ltb_spec 1 (Z.of_nat (S (length rest)))) as [Hlt|Hge].
    + rewrite print_loop_ok by (cbn [length]; lia). cbn [mbind outcome_bind].
      change (Z.to_nat 1) with 1%nat. cbn [drop]. rewrite drop_0.
      rewrite take_ge by lia. by rewrite ?string_app_assoc.
    + cbn [mbind outcome_bind]. destruct rest; [|cbn [length] in Hge; lia].
      cbn [lines_text foldr]. by rewrite ?string_app_assoc.
Qed.

Lemma Column_head_tail_spec_witness :
  (Column_head {| name := "x"; data := ["1"; "2"; ""]; dtype := "int" |} 2
   = Ok (print_title {| name := "x"; data := ["1"; "2"; ""]; dtype := "int" |}
         +:+ lines_text ["1"; "2"] +:+ print_footer 2) ∧
   Column_tail {| name := "x"; data := ["1"; "2"; ""]; dtype := "int" |} 2
   = Ok (print_title {| name := "x"; data := ["1"; "2"; ""]; dtype := "int" |}
         +:+ lines_text ["2"; ""] +:+ print_footer 2)) ∧
  (Column_head {| name := "x"; data := ["1"; "2"; ""]; dtype := "int" |} 5 = Undefined ∧
   Column_tail {| name := "x"; data := ["1"; "2"; ""]; dtype := "int" |} 5
   = Ok (print_title {| name := "x"; data := ["1"; "2"; ""]; dtype := "int" |}
         +:+ print_footer 5)).
Proof.
  split.
  - destruct (Column_head_tail_spec {| name := "x"; data := ["1"; "2"; ""]; dtype := "int" |} 2)
      as [Hle _]; [done|cbn; lia|unfold INT_MAX; lia|].
    apply Hle. cbn. lia.
  - destruct (Column_head_tail_spec {| name := "x"; data := ["1"; "2"; ""]; dtype := "int" |} 5)
      as [_ Hgt]; [done|cbn; lia|unfold INT_MAX; lia|].
    apply Hgt. cbn. lia.
Defined.

Lemma Column_print_default_omits_one_witness :
  (Column_output {| name := "e"; data := []; dtype := "string" |} = Ok "" ∧
   Column_print {| name := "e"; data := []; dtype := "string" |} 0 true = Ok "") ∧
  Column_output {| name := "x"; data := ["1"; "2"; ""]; dtype := "int" |}
  = Ok (print_title {| name := "x"; data := ["1"; "2"; ""]; dtype := "int" |}
        +:+ lines_text ["1"; "2"] +:+ print_footer 2) ∧
  Column_print {| name := "x"; data := ["1"; "2"; ""]; dtype := "int" |} 0 true
  = Ok (print_title {| name := "x"; data := ["1"; "2"; ""]; dtype := "int" |}
        +:+ lines_text ["2"; ""] +:+ print_footer 2).
Proof.
  split; [|split].
  - destruct (Column_print_default_omits_one {| name := "e"; data := []; dtype := "string" |})
      as [Hempty _]; [unfold INT_MAX; cbn; lia|].
    by apply Hempty.
  - destruct (Column_print_default_omits_one {| name := "x"; data := ["1"; "2"; ""]; dtype := "int" |})
      as (_ & Hhead & _); [unfold INT_MAX; cbn; lia|].
    apply (Hhead ["1"; "2"] ""). reflexivity.
  - destruct (Column_print_default_omits_one {| name := "x"; data := ["1"; "2"; ""]; dtype := "int" |})
      as (_ & _ & Htail); [unfold INT_MAX; cbn; lia|].
    apply (Htail "1" ["2"; ""]). reflexivity.
Defined.

(** * [DataFrame::save_to_csv] *)

Lemma lines_text_app (l1 l2 : list string) :
  lines_text (l1 ++ l2) = lines_text l1 +:+ lines_text l2.
Proof.
  induction l1 as [|l l1 IH]; [done|]. cbn [app]. rewrite !lines_text_cons, IH.
  by rewrite !string_app_assoc.
Qed.

Lemma validate_columns_ok (m : gmap string Column) (selected acc : list string) :
  (∀ k, k ∈ selected → is_Some (m !! k)) →
  validate_columns m selected acc = Ok (acc ++ selected).
Proof.
  revert acc. induction selected as [|k rest IH]; intros acc Hall.
  - by rewrite app_nil_r.
  - cbn [validate_columns]. destruct (Hall k) as [c Hc]; [by left|]. rewrite Hc.
    rewrite IH; [by rewrite <- app_assoc|]. intros k' Hk'. apply Hall. by right.
Qed.

Lemma validate_columns_throws (m : gmap string Column) (selected acc : list string) (k : string) :
  k ∈ selected → m !! k = None → validate_columns m selected acc = Throw out_of_range.
Proof.
  revert acc. induction selected as [|k' rest IH]; intros acc Hin Hk; [by apply elem_of_nil in Hin|].
  cbn [validate_columns]. destruct (m !! k') as [c|] eqn:Hc; [|done].
  apply IH; [|done]. apply elem_of_cons in Hin as [->|Hin]; [congruence|done].
Qed.

Lemma write_names_ok (sep : string) (names : list string) (out : string) :
  write_names sep names out = out +:+ String.concat sep names.
Proof.
  revert out. induction names as [|x [|y r] IH]; intros out.
  - by rewrite string_app_nil_r.
  - reflexivity.
  - cbn [write_names] in *. rewrite IH. cbn [String.concat].
    by rewrite !string_app_assoc.
Qed.

Lemma write_row_ok (m : gmap string Column) (sep na_rep : string) (idx : nat)
    (names : list string) (out : string) :
  (∀ k, k ∈ names → ∃ c, m !! k = Some c ∧ (idx < length (data c))%nat) →
  write_row m sep na_rep idx names out
  = Ok (out +:+ String.concat sep (saved_cells m na_rep names idx)).
Proof.
  revert out. induction names as [|x names IH]; intros out Hall.
  - cbn. by rewrite string_app_nil_r.
  - destruct (Hall x) as (c & Hc & Hlen); [by left|].
    destruct (lookup_lt_is_Some_2 (data c) idx Hlen) as [e He].
    cbn [write_row]. unfold map_at, vec_index. rewrite Hc. cbn [mbind outcome_bind].
    rewrite He. cbn [mbind outcome_bind].
    rewrite IH by (intros k Hk; apply Hall; by right).
    unfold saved_cells. cbn [fmap list_fmap]. rewrite Hc. cbn [mbind option_bind].
    rewrite He. cbn [default].
    destruct names as [|y r]; [by rewrite string_app_nil_r|].
    cbn [fmap list_fmap String.concat]. by rewrite !string_app_assoc.
Qed.

Lemma write_rows_ok (m : gmap string Column) (index : bool) (sep na_rep : string)
    (names : list string) (idx n : nat) (out : string) :
  (∀ k, k ∈ names → ∃ c, m !! k = Some c ∧ (idx + n ≤ length (data c))%nat) →
  write_rows m index sep na_rep names idx n out
  = Ok (out +:+ lines_text
          ((λ idx, (if index then N_to_string (N.of_nat idx) +:+ sep else "")
                   +:+ String.concat sep (saved_cells m na_rep names idx)) <$> seq idx n)).
Proof.
  revert idx out. induction n as [|n IH]; intros idx out Hall.
  - cbn. by rewrite string_app_nil_r.
  - cbn [write_rows]. rewrite write_row_ok.
    2:{ intros k Hk. destruct (Hall k Hk) as (c & Hc & Hlen). exists c. split; [done|lia]. }
    cbn [mbind outcome_bind]. rewrite IH.
    2:{ intros k Hk. destruct (Hall k Hk) as (c & Hc & Hlen). exists c. split; [done|lia]. }
    cbn [seq fmap list_fmap]. rewrite lines_text_cons.
    destruct index; by rewrite ?string_app_assoc.
Qed.

(** A row loop that has a row to write stops at a column that is not
    stored. *)
Lemma write_row_throws (m : gmap string Column) (sep na_rep : string) (idx : nat)
    (names : list string) (out : string) (k : string) :
  k ∈ names → m !! k = None →
  (∀ k', k' ∈ names → ∀ c, m !! k' = Some c → (idx < length (data c))%nat) →
  write_row m sep na_rep idx names out = Throw out_of_range.
Proof.
  revert out. induction names as [|x names IH]; intros out Hin Hk Hlen; [by apply elem_of_nil in Hin|].
  cbn [write_row]. unfold map_at. destruct (m !! x) as [c|] eqn:Hc; [|done].
  cbn [mbind outcome_bind].
  destruct (lookup_lt_is_Some_2 (data c) idx) as [e He]; [apply (Hlen x); [by left|done]|].
  unfold vec_index. rewrite He. cbn [mbind outcome_bind]. apply IH; [|done|].
  - apply elem_of_cons in Hin as [->|Hin]; [congruence|done].
  - intros k' Hk'. apply Hlen. by right.
Qed.

(** A row loop on stored columns reads past the end of the first column
    that has no value at [idx]. *)
Lemma write_row_undefined (m : gmap string Column) (sep na_rep : string) (idx : nat)
    (names : list string) (out : string) (k : string) (c : Column) :
  (∀ k', k' ∈ names → is_Some (m !! k')) →
  k ∈ names → m !! k = Some c → (length (data c) ≤ idx)%nat →
  write_row m sep na_rep idx names out = Undefined.
Proof.
  revert out. induction names as [|x names IH]; intros out Hall Hin Hk Hshort;
    [by apply elem_of_nil in Hin|].
  cbn [write_row]. unfold map_at. destruct (Hall x) as [cx Hcx]; [by left|].
  rewrite Hcx. cbn [mbind outcome_bind]. unfold vec_index.
  destruct (data cx !! idx) as [e|] eqn:He; [|done].
  cbn [mbind outcome_bind]. apply IH; [|  |done|done].
  - intros k' Hk'. apply Hall. by right.
  - apply elem_of_cons in Hin as [->|Hin]; [|done].
    rewrite Hk in Hcx. injection Hcx as <-. apply lookup_lt_Some in He. lia.
Qed.

Lemma write_rows_undefined (m : gmap string Column) (index : bool) (sep na_rep : string)
    (names : list string) (idx n : nat) (out : string) (k : string) (c : Column) :
  (∀ k', k' ∈ names → is_Some (m !! k')) →
  k ∈ names → m !! k = Some c → (idx ≤ length (data c) < idx + n)%nat →
  write_rows m index sep na_rep names idx n out = Undefined.
Proof.
  intros Hall Hin Hk. revert idx out.
  induction n as [|n IH]; intros idx out Hshort; [lia|].
  cbn [write_rows].
  destruct (write_row m sep na_rep idx names
              (if index then out +:+ N_to_string (N.of_nat idx) +:+ sep else out))
    as [out'| |] eqn:Hrow; cbn [mbind outcome_bind]; [|exfalso|done].
  - apply IH. destruct (decide (length (data c) ≤ idx)%nat) as [Hle|Hgt]; [|lia].
    by rewrite (write_row_undefined _ _ _ _ _ _ k c Hall Hin Hk Hle) in Hrow.
  - clear IH Hshort Hin Hk. revert Hrow.
    generalize (if index then out +:+ N_to_string (N.of_nat idx) +:+ sep else out).
    induction names as [|x names IHn]; intros o Hrow; [done|].
    cbn [write_row] in Hrow. unfold map_at in Hrow. destruct (Hall x) as [cx Hcx]; [by left|].
    rewrite Hcx in Hrow. cbn [mbind outcome_bind] in Hrow. unfold vec_index in Hrow.
    destruct (data cx !! idx) as [e'|]; [|done]. cbn [mbind outcome_bind] in Hrow.
    eapply IHn; [|exact Hrow]. intros k' Hk'. apply Hall. by right.
Qed.

(** The default selection on a table whose listed columns are stored with
    [n] values each. *)
Lemma DataFrame_save_to_csv_ok (df : DataFrame) (output_file : string) (index : bool)
    (sep : string) (header : bool) (na_rep : string) (n : nat) :
  (∀ k, k ∈ columns df → ∃ c, col_data df !! k = Some c ∧ length (data c) = n) →
  (columns df = [] → n = 0%nat) →
  DataFrame_save_to_csv df output_file true index sep header na_rep []
  = Ok (lines_text (saved_lines (col_data df) index sep header na_rep (columns df) n),
        saved_message output_file sep).
Proof.
  intros Hall Hnil. unfold DataFrame_save_to_csv. cbn [negb mbind outcome_bind].
  assert (Hrows : match columns df with
                  | [] => Ok 0%nat
                  | first_col :: _ =>
                      col ← map_at (col_data df) first_col; Ok (length (data col))
                  end = Ok n).
  { destruct (columns df) as [|k0 cols] eqn:Hcols; [by rewrite Hnil|].
    destruct (Hall k0) as (c0 & Hc0 & Hl0); [by left|].
    unfold map_at. rewrite Hc0. cbn [mbind outcome_bind]. by rewrite Hl0. }
  rewrite Hrows. cbn [mbind outcome_bind]. rewrite write_rows_ok.
  2:{ intros k Hk. destruct (Hall k Hk) as (c & Hc & Hl). exists c. split; [done|lia]. }
  cbn [mbind outcome_bind]. unfold saved_lines, saved_message.
  rewrite lines_text_app, write_names_ok.
  destruct header; cbn [lines_text foldr]; by rewrite ?string_app_assoc.
Qed.

(** X29. [save_to_csv], case by case.  [names] are the columns written:
    [selected_columns], or [columns] when none is selected.
    - A file that cannot be opened: [std::runtime_error].
    - A selected column that is not stored: [std::out_of_range].
    - No selection, and the first listed column is not stored:
      [std::out_of_range].
    - Every column of [names] stored and at least as long as the first
      one: the file holds the header line, when asked for, and one line
      per row of the first column, each with the row number, when asked
      for, and the values separated by [sep], [na_rep] standing for a
      missing value; [cout] gets the message.
    - Every column of [names] stored, and one of them shorter than the
      first: undefined behaviour. *)
Theorem save_to_csv_spec (df : DataFrame) (output_file : string) (index : bool)
    (sep : string) (header : bool) (na_rep : string) (selected_columns : list string) :
  let names := match selected_columns with [] => columns df | _ => selected_columns end in
  let save opened :=
    DataFrame_save_to_csv df output_file opened index sep header na_rep selected_columns in
  save false = Throw runtime_error ∧
  (∀ k, k ∈ selected_columns → col_data df !! k = None → save true = Throw out_of_range) ∧
  (∀ k, selected_columns = [] → head (columns df) = Some k → col_data df !! k = None →
        save true = Throw out_of_range) ∧
  (names = [] →
   save true
   = Ok (lines_text (saved_lines (col_data df) index sep header na_rep [] 0),
         saved_message output_file sep)) ∧
  (∀ k0 c0, head names = Some k0 → col_data df !! k0 = Some c0 →
     (∀ k, k ∈ names → ∃ c, col_data df !! k = Some c) →
     ((∀ k c, k ∈ names → col_data df !! k = Some c →
              (length (data c0) ≤ length (data c))%nat) →
      save true
      = Ok (lines_text (saved_lines (col_data df) index sep header na_rep names
                          (length (data c0))),
            saved_message output_file sep)) ∧
     (∀ k c, k ∈ names → col_data df !! k = Some c →
             (length (data c) < length (data c0))%nat →
      save true = Undefined)).
Proof.
  intros names save. subst save. cbv beta. unfold DataFrame_save_to_csv. cbn [negb].
  split; [done|].
  assert (Hsel : ∀ k, k ∈ selected_columns → col_data df !! k = None →
            match selected_columns with
            | [] => Ok (columns df)
            | _ => validate_columns (col_data df) selected_columns []
            end = Throw out_of_range).
  { intros k Hin Hk. rewrite (validate_columns_throws _ _ _ k Hin Hk).
    destruct selected_columns; [by apply elem_of_nil in Hin|done]. }
  assert (Hnames : (∀ k, k ∈ names → ∃ c, col_data df !! k = Some c) →
            match selected_columns with
            | [] => Ok (columns df)
            | _ => validate_columns (col_data df) selected_columns []
            end = Ok names).
  { intros Hall. subst names. destruct selected_columns as [|s sel]; [done|].
    rewrite validate_columns_ok; [done|]. intros k Hk. destruct (Hall k Hk) as [c Hc].
    by exists c. }
  split; [intros k Hin Hk; by rewrite (Hsel k Hin Hk)|].
  split.
  { intros k -> Hhead Hk. cbn [mbind outcome_bind].
    destruct (columns df) as [|k' cols]; [done|]. injection Hhead as ->.
    unfold map_at. by rewrite Hk. }
  split.
  { intros Hnil. rewrite Hnames by (rewrite Hnil; intros k Hk; by apply elem_of_nil in Hk).
    rewrite Hnil. cbn [mbind outcome_bind write_rows].
    unfold saved_lines, saved_message. cbn [seq fmap list_fmap]. rewrite app_nil_r.
    rewrite write_names_ok. by destruct header. }
  intros k0 c0 Hhead Hc0 Hall. rewrite (Hnames Hall). cbn [mbind outcome_bind].
  destruct names as [|k0' names']; [done|]. injection Hhead as ->.
  unfold map_at. rewrite Hc0. cbn [mbind outcome_bind]. split.
  - intros Hlen. rewrite write_rows_ok.
    2:{ intros k Hk. destruct (Hall k Hk) as [c Hc]. exists c. split; [done|].
        specialize (Hlen k c Hk Hc). lia. }
    cbn [mbind outcome_bind]. unfold saved_lines, saved_message.
    rewrite lines_text_app, write_names_ok.
    destruct header; cbn [lines_text foldr]; by rewrite ?string_app_assoc.
  - intros k c Hk Hc Hshort. rewrite (write_rows_undefined _ _ _ _ _ _ _ _ k c); [done| |done|done|lia].
    intros k' Hk'. destruct (Hall k' Hk') as [c' Hc']. by exists c'.
Qed.

(** ** Reading back what was saved *)

Lemma string_app_nil_l (s : string) : "" +:+ s = s.
Proof. reflexivity. Qed.

Lemma free_of_app (ch : ascii) (s t : string) :
  free_of ch (s +:+ t) = free_of ch s && free_of ch t.
Proof.
  induction s as [|c s IH]; [done|]. rewrite append_String. cbn [free_of].
  rewrite IH. by rewrite andb_assoc.
Qed.

Lemma free_of_concat (ch : ascii) (sep : string) (cells : list string) :
  free_of ch sep = true → Forall (λ s, free_of ch s = true) cells →
  free_of ch (String.concat sep cells) = true.
Proof.
  intros Hsep Hcells. induction Hcells as [|x r Hx Hr IH]; [done|].
  destruct r as [|y r]; [done|].
  change (free_of ch (x +:+ sep +:+ String.concat sep (y :: r)) = true).
  rewrite !free_of_app, Hx, Hsep. by rewrite IH.
Qed.

Lemma split_fields_app (s t cur : string) :
  free_of "," s = true → split_fields (s +:+ t) cur = split_fields t (cur +:+ s).
Proof.
  revert cur. induction s as [|c s IH]; intros cur Hs.
  - by rewrite string_app_nil_r.
  - cbn [free_of] in Hs. apply andb_prop in Hs as [Hc Hs]. apply negb_true_iff in Hc.
    rewrite append_String. cbn [split_fields]. rewrite Hc. rewrite IH by done.
    rewrite string_app_assoc. by rewrite append_String.
Qed.

Lemma file_lines_app (s t cur : string) :
  free_of "010" s = true → file_lines (s +:+ t) cur = file_lines t (cur +:+ s).
Proof.
  revert cur. induction s as [|c s IH]; intros cur Hs.
  - by rewrite string_app_nil_r.
  - cbn [free_of] in Hs. apply andb_prop in Hs as [Hc Hs]. apply negb_true_iff in Hc.
    rewrite append_String. cbn [file_lines]. rewrite Hc. rewrite IH by done.
    rewrite string_app_assoc. by rewrite append_String.
Qed.

Lemma file_lines_text (lines : list string) :
  Forall (λ s, free_of "010" s = true) lines → file_lines (lines_text lines) "" = lines.
Proof.
  induction 1 as [|l lines Hl Hlines IH]; [done|].
  rewrite lines_text_cons, file_lines_app by done.
  unfold endl. rewrite append_String, !string_app_nil_l.
  cbn [file_lines Ascii.eqb Bool.eqb]. by rewrite IH.
Qed.

Lemma split_fields_concat (cells : list string) (v : string) :
  Forall (λ s, free_of "," s = true) cells → last cells = Some v → v ≠ "" →
  split_fields (String.concat "," cells) "" = cells.
Proof.
  intros Hcells Hlast Hv. induction Hcells as [|x r Hx Hr IH]; [done|].
  destruct r as [|y r].
  - cbn [String.concat]. injection Hlast as ->.
    rewrite <- (string_app_nil_r v) at 1. rewrite split_fields_app by done.
    rewrite string_app_nil_l. cbn [split_fields]. destruct (missing v) eqn:Hm; [|done].
    by apply missing_iff in Hm.
  - change (String.concat "," (x :: y :: r)) with (x +:+ "," +:+ String.concat "," (y :: r)).
    rewrite split_fields_app by done. rewrite append_String, !string_app_nil_l.
    cbn [split_fields Ascii.eqb Bool.eqb]. by rewrite IH.
Qed.

Lemma split_fields_concat_missing (init : list string) :
  Forall (λ s, free_of "," s = true) init →
  split_fields (String.concat "," (init ++ [""])) "" = init.
Proof.
  induction 1 as [|x r Hx Hr IH]; [done|].
  change (String.concat "," ((x :: r) ++ [""]))
    with (match r ++ [""] with [] => x | _ => x +:+ "," +:+ String.concat "," (r ++ [""]) end).
  destruct (r ++ [""]) as [|y r'] eqn:Hr'; [by destruct r|].
  rewrite split_fields_app by done. rewrite append_String, !string_app_nil_l.
  cbn [split_fields Ascii.eqb Bool.eqb]. by rewrite IH.
Qed.

Lemma stored_row_concat (cells : list string) :
  cells ≠ [] → Forall (λ s, free_of "," s = true) cells →
  stored_row (length cells) (String.concat "," cells) = cells ∧
  (length (split_fields (String.concat "," cells) "") ≤ length cells)%nat.
Proof.
  intros Hne Hcells. unfold stored_row. cbv zeta.
  destruct cells as [|x r _] using rev_ind; [done|].
  destruct (decide (x = "")) as [->|Hx].
  - apply Forall_app in Hcells as [Hr _]. rewrite split_fields_concat_missing by done.
    rewrite length_app. cbn [length].
    rewrite (proj2 (Nat.ltb_lt _ _)) by lia. split; [done|lia].
  - rewrite (split_fields_concat _ x) by (done || by rewrite last_snoc).
    rewrite Nat.ltb_irrefl. done.
Qed.

Lemma cells_at_fmap {A} (j : nat) (f : A → list string) (h : A → string) (l : list A) :
  (∀ i, i ∈ l → f i !! j = Some (h i)) → cells_at j (f <$> l) = h <$> l.
Proof.
  induction l as [|a l IH]; intros Hf; [done|].
  rewrite !fmap_cons, cells_at_cons, (Hf a) by (by left).
  cbn [option_list option_rect app]. rewrite IH; [done|]. intros i Hi. apply Hf. by right.
Qed.

Lemma fmap_seq_lookup {A} (d : A) (l : list A) :
  (λ i, default d (l !! i)) <$> seq 0 (length l) = l.
Proof.
  apply list_eq. intros i. rewrite list_lookup_fmap.
  destruct (decide (i < length l)%nat) as [Hlt|Hge].
  - rewrite lookup_seq_lt by done. cbn. 
    destruct (lookup_lt_is_Some_2 l i Hlt) as [x Hx]. by rewrite Hx.
  - rewrite lookup_seq_ge by lia. cbn. symmetry. apply lookup_ge_None. lia.
Qed.

Lemma missing_default (e : string) : (if missing e then "" else e) = e.
Proof. destruct (missing e) eqn:Hm; [|done]. apply missing_iff in Hm. by subst e. Qed.

Lemma saved_cells_lookup (m : gmap string Column) (names : list string) (idx j : nat)
    (k : string) (c : Column) :
  names !! j = Some k → m !! k = Some c →
  saved_cells m "" names idx !! j = Some (default "" (data c !! idx)).
Proof.
  intros Hj Hk. unfold saved_cells. rewrite list_lookup_fmap, Hj.
  cbn [fmap option_fmap option_map]. rewrite Hk. cbn [mbind option_bind].
  by rewrite missing_default.
Qed.

Lemma saved_cells_safe (m : gmap string Column) (names : list string) (idx : nat) :
  (∀ k, k ∈ names → ∃ c, m !! k = Some c ∧ Forall csv_safe (data c)) →
  Forall csv_safe (saved_cells m "" names idx).
Proof.
  intros Hall. unfold saved_cells. apply Forall_fmap, Forall_forall. intros k Hk.
  cbn. rewrite missing_default. destruct (Hall k Hk) as (c & Hc & Hsafe).
  rewrite Hc. cbn [mbind option_bind].
  destruct (data c !! idx) as [e|] eqn:He; [|done].
  cbn [default]. rewrite Forall_forall in Hsafe. apply Hsafe.
  apply list_elem_of_lookup. by exists idx.
Qed.

Section SaveRead.
Context `{StdLib}.

(** X30. Saving and reading back.  Take a table whose listed columns have
    distinct names, are all stored and have [n] values each, where no
    name and no value holds a comma or a newline and the last name is not
    empty.  [save_to_csv] without row numbers, with the header, the
    default separator and the empty string for missing values writes a
    text from which the constructor rebuilds the table: the same
    [columns], one row per value, exactly the listed columns stored, each
    under its name with the values it had and the dtype inferred from
    them. *)
Theorem save_then_read (df : DataFrame) (path : string) (n : nat) :
  NoDup (columns df) →
  Forall csv_safe (columns df) →
  last (columns df) ≠ Some "" →
  (columns df = [] → n = 0%nat) →
  (∀ k, k ∈ columns df →
     ∃ c, col_data df !! k = Some c ∧ length (data c) = n ∧ Forall csv_safe (data c)) →
  ∃ text df',
    DataFrame_save_to_csv df path true false "," true "" [] = Ok (text, saved_message path ",") ∧
    DataFrame_read path (Some (file_lines text "")) = Ok df' ∧
    columns df' = columns df ∧ file_dir df' = path ∧
    length (row_data df') = S n ∧
    (∀ k, is_Some (col_data df' !! k) ↔ k ∈ columns df) ∧
    ∀ k c, k ∈ columns df → col_data df !! k = Some c →
      col_data df' !! k = Some {| name := k; data := data c; dtype := infer_dtype (data c) |}.
Proof.
  intros Hnd Hnames Hlast Hnil Hall.
  set (names := columns df) in *. set (m := col_data df) in *.
  set (rows := (λ idx, saved_cells m "" names idx) <$> seq 0 n).
  set (hdr := String.concat "," names).
  set (row_lines := String.concat "," <$> rows).
  (* what is written *)
  assert (Hsave : DataFrame_save_to_csv df path true false "," true "" []
                  = Ok (lines_text (hdr :: row_lines), saved_message path ",")).
  { rewrite (DataFrame_save_to_csv_ok df path false "," true "" n).
    - unfold saved_lines. cbn [app]. rewrite string_app_nil_l. fold names hdr m.
      subst row_lines rows. by rewrite <- list_fmap_compose.
    - intros k Hk. destruct (Hall k Hk) as (c & Hc & Hl & _). by exists c.
    - done. }
  (* the lines read back *)
  assert (Hcells : ∀ row, row ∈ rows → length row = length names ∧ Forall csv_safe row).
  { intros row [idx [-> _]]%list_elem_of_fmap. split.
    - unfold saved_cells. by rewrite length_fmap.
    - apply saved_cells_safe. intros k Hk. destruct (Hall k Hk) as (c & Hc & _ & Hs).
      by exists c. }
  assert (Hlines : file_lines (lines_text (hdr :: row_lines)) "" = hdr :: row_lines).
  { apply file_lines_text. constructor.
    - apply free_of_concat; [done|]. eapply Forall_impl; [exact Hnames|]. by intros s [_ Hs].
    - subst row_lines. apply Forall_fmap, Forall_forall. intros row Hrow. cbn.
      apply free_of_concat; [done|]. destruct (Hcells row Hrow) as [_ Hs].
      eapply Forall_impl; [exact Hs|]. by intros s [_ Hs']. }
  assert (Hheader : split_fields hdr "" = names).
  { subst hdr. destruct (last names) as [v|] eqn:Hv.
    - apply (split_fields_concat _ v); [|done|congruence].
      eapply Forall_impl; [exact Hnames|]. by intros s [Hs _].
    - apply last_None in Hv. by rewrite Hv. }
  assert (Hstored : ∀ row, row ∈ rows →
            stored_row (length names) (String.concat "," row) = row ∧
            (length (split_fields (String.concat "," row) "") ≤ length names)%nat).
  { intros row Hrow. destruct (Hcells row Hrow) as [Hlen Hs]. rewrite <- Hlen.
    apply stored_row_concat.
    - intros ->. cbn [length] in Hlen. symmetry in Hlen. apply length_zero_iff_nil in Hlen.
      specialize (Hnil Hlen). subst n. subst rows. cbn in Hrow. by apply elem_of_nil in Hrow.
    - eapply Forall_impl; [exact Hs|]. by intros s [Hs' _]. }
  destruct (DataFrame_read_ok path hdr row_lines) as (df' & Hread & Hcols & Hrows & Hdir & Hcol & Hnone).
  { rewrite Hheader. subst row_lines. apply Forall_fmap, Forall_forall. intros row Hrow. cbn.
    by apply Hstored. }
  rewrite Hheader in Hcols, Hrows, Hcol, Hnone.
  assert (Hback : stored_row (length names) <$> row_lines = rows).
  { subst row_lines. rewrite <- list_fmap_compose.
    rewrite <- (list_fmap_id rows) at 2. apply list_fmap_ext.
    intros i row Hrow. cbn. apply Hstored. apply list_elem_of_lookup. by exists i. }
  rewrite Hback in Hrows, Hcol.
  assert (Hdata : ∀ j k c, names !! j = Some k → m !! k = Some c → length (data c) = n →
            cells_at j rows = data c).
  { intros j k c Hj Hk Hl. subst rows.
    rewrite (cells_at_fmap j _ (λ idx, default "" (data c !! idx))).
    - rewrite <- Hl. apply fmap_seq_lookup.
    - intros idx _. exact (saved_cells_lookup m names idx j k c Hj Hk). }
  exists (lines_text (hdr :: row_lines)), df'.
  split; [exact Hsave|]. rewrite Hlines. split; [exact Hread|].
  split; [done|]. split; [done|]. split.
  { rewrite Hrows. cbn [length]. subst rows. by rewrite length_fmap, length_seq. }
  split.
  - intros k. split.
    + intros Hsome. destruct (decide (k ∈ names)) as [Hin|Hout]; [done|].
      rewrite (Hnone k Hout) in Hsome. by destruct Hsome.
    + intros Hin. apply list_elem_of_lookup in Hin as [j Hj].
      rewrite (Hcol j k Hj); [by eexists|].
      intros j' Hlt Hj'. pose proof (NoDup_lookup _ _ _ _ Hnd Hj Hj'). lia.
  - intros k c Hin Hc. apply list_elem_of_lookup in Hin as [j Hj].
    destruct (Hall k (proj2 (list_elem_of_lookup _ _) (ex_intro _ j Hj))) as (c' & Hc' & Hl & _).
    fold m in Hc. rewrite Hc in Hc'. injection Hc' as <-.
    rewrite (Hcol j k Hj).
    + by rewrite (Hdata j k c Hj Hc Hl).
    + intros j' Hlt Hj'. pose proof (NoDup_lookup _ _ _ _ Hnd Hj Hj'). lia.
Qed.

End SaveRead.

Lemma save_to_csv_spec_witness :
  DataFrame_save_to_csv t_table "o.csv" false true ";" true "NA" ["z"; "x"] = Throw runtime_error ∧
  DataFrame_save_to_csv t_table "o.csv" true true ";" true "NA" ["x"; "w"] = Throw out_of_range ∧
  DataFrame_save_to_csv
    {| col_data := delete "x" (col_data t_table); row_data := row_data t_table;
       file_dir := "t.csv"; columns := columns t_table |}
    "o.csv" true true ";" true "NA" [] = Throw out_of_range ∧
  DataFrame_save_to_csv t_table "o.csv" true true ";" true "NA" ["z"; "x"]
  = Ok (lines_text ["index;z;x"; "0;2.5;1"; "1;NA;2"; "2;1;NA"], saved_message "o.csv" ";") ∧
  DataFrame_save_to_csv
    {| col_data := {[ "a" := {| name := "a"; data := ["1"; "2"]; dtype := "int" |};
                      "b" := {| name := "b"; data := ["3"]; dtype := "int" |} ]};
       row_data := [["a"; "b"]; ["1"; "3"]; ["2"]]; file_dir := "r.csv"; columns := ["a"; "b"] |}
    "o.csv" true true ";" true "NA" [] = Undefined.
Proof.
  split; [|split; [|split; [|split]]].
  - apply (save_to_csv_spec t_table "o.csv" true ";" true "NA" ["z"; "x"]).
  - destruct (save_to_csv_spec t_table "o.csv" true ";" true "NA" ["x"; "w"])
      as (_ & Hsel & _).
    apply (Hsel "w"); [|reflexivity]. right. by left.
  - destruct (save_to_csv_spec
                {| col_data := delete "x" (col_data t_table); row_data := row_data t_table;
                   file_dir := "t.csv"; columns := columns t_table |}
                "o.csv" true ";" true "NA" []) as (_ & _ & Hfirst & _).
    apply (Hfirst "x"); reflexivity.
  - destruct (save_to_csv_spec t_table "o.csv" true ";" true "NA" ["z"; "x"])
      as (_ & _ & _ & _ & Hrows).
    destruct (Hrows "z" {| name := "z"; data := ["2.5"; ""; "1"]; dtype := "float" |})
      as [Hok _]; [reflexivity|reflexivity| |].
    + intros k Hk. apply elem_of_cons in Hk as [->|Hk]; [by eexists|].
      apply elem_of_cons in Hk as [->|Hk]; [by eexists|]. by apply elem_of_nil in Hk.
    + apply Hok. intros k c Hk Hc.
      apply elem_of_cons in Hk as [->|Hk]; [by injection Hc as <-|].
      apply elem_of_cons in Hk as [->|Hk]; [by injection Hc as <-|]. by apply elem_of_nil in Hk.
  - destruct (save_to_csv_spec
                {| col_data := {[ "a" := {| name := "a"; data := ["1"; "2"]; dtype := "int" |};
                                  "b" := {| name := "b"; data := ["3"]; dtype := "int" |} ]};
                   row_data := [["a"; "b"]; ["1"; "3"]; ["2"]]; file_dir := "r.csv";
                   columns := ["a"; "b"] |}
                "o.csv" true ";" true "NA" []) as (_ & _ & _ & _ & Hrows).
    destruct (Hrows "a" {| name := "a"; data := ["1"; "2"]; dtype := "int" |})
      as [_ Hundef]; [reflexivity|reflexivity| |].
    + intros k Hk. apply elem_of_cons in Hk as [->|Hk]; [by eexists|].
      apply elem_of_cons in Hk as [->|Hk]; [by eexists|]. by apply elem_of_nil in Hk.
    + apply (Hundef "b" {| name := "b"; data := ["3"]; dtype := "int" |}).
      * right. by left.
      * reflexivity.
      * cbn. lia.
Defined.

Lemma save_then_read_witness :
  ∃ text df',
    DataFrame_save_to_csv t_table "o.csv" true false "," true "" []
    = Ok (text, saved_message "o.csv" ",") ∧
    DataFrame_read (H := Binary64.lib) "o.csv" (Some (file_lines text "")) = Ok df' ∧
    columns df' = ["x"; "y"; "z"] ∧ file_dir df' = "o.csv" ∧
    length (row_data df') = 4%nat ∧
    (∀ k, is_Some (col_data df' !! k) ↔ k ∈ ["x"; "y"; "z"]) ∧
    ∀ k c, k ∈ ["x"; "y"; "z"] → col_data t_table !! k = Some c →
      col_data df' !! k
      = Some {| name := k; data := data c; dtype := infer_dtype (H := Binary64.lib) (data c) |}.
Proof.
  apply (save_then_read (H := Binary64.lib) t_table "o.csv" 3).
  - apply (bool_decide_unpack _). vm_compute. reflexivity.
  - repeat constructor.
  - done.
  - done.
  - intros k Hk. cbn [t_table columns] in Hk.
    apply elem_of_cons in Hk as [->|Hk]; [eexists; split; [reflexivity|]; split; [reflexivity|]; repeat constructor|].
    apply elem_of_cons in Hk as [->|Hk]; [eexists; split; [reflexivity|]; split; [reflexivity|]; repeat constructor|].
    apply elem_of_cons in Hk as [->|Hk]; [eexists; split; [reflexivity|]; split; [reflexivity|]; repeat constructor|].
    by apply elem_of_nil in Hk.
Defined.
